(** * TrafegoDNS: the Technitium provider and the public IP resolver

    A shallow embedding of
      - src/providers/technitium/converter.js
      - src/providers/technitium/validator.js
      - src/providers/technitium/provider.js
      - the earlier TechnitiumProvider class (validateRecord, isValidIPv4,
        isValidIPv6)
      - the public IP part of ConfigManager (getPublicIP, updatePublicIPs)
    followed by the properties of the reconciliation core that are stated
    about them. *)

From Stdlib Require Import ZArith List String Ascii Bool Lia.
From Stdlib Require Import DecimalString DecimalZ DecimalPos.
Import ListNotations.

Set Implicit Arguments.
Set Warnings "-register-all".
Local Open Scope Z_scope.
Local Open Scope list_scope.

(* ================================================================== *)
(** ** JavaScript values *)
(* ================================================================== *)

Module Js.

(** The values the modelled code handles.  Numbers are integers (TTLs,
    priorities, timestamps); an object is its list of own properties in
    insertion order. *)
Inductive JsVal : Type :=
| JUndef
| JNull
| JBool (b : bool)
| JNum (n : Z)
| JStr (s : string)
| JObj (fields : list (string * JsVal)).

Definition Obj : Type := list (string * JsVal).

(** ToBoolean. *)
Definition truthy (v : JsVal) : bool :=
  match v with
  | JUndef | JNull => false
  | JBool b => b
  | JNum n => negb (n =? 0)
  | JStr s => negb (s =? "")%string
  | JObj _ => true
  end.

(** [a === b].  Objects are compared by reference; the objects met here are
    parsed from separate responses or built by separate calls, so two of
    them are never the same reference. *)
Definition strictEq (a b : JsVal) : bool :=
  match a, b with
  | JUndef, JUndef => true
  | JNull, JNull => true
  | JBool x, JBool y => Bool.eqb x y
  | JNum x, JNum y => x =? y
  | JStr x, JStr y => (x =? y)%string
  | _, _ => false
  end.

(** [a !== b]. *)
Definition strictNe (a b : JsVal) : bool := negb (strictEq a b).

(** [a || b] and [a && b]: they return one of their operands. *)
Definition or_ (a b : JsVal) : JsVal := if truthy a then a else b.
Definition and_ (a b : JsVal) : JsVal := if truthy a then b else a.

(** The decimal digits of an integer, with a minus sign when negative. *)
Definition decimal (n : Z) : string := NilZero.string_of_int (Z.to_int n).

(** Number.MAX_SAFE_INTEGER. *)
Definition maxSafeInteger : Z := 9007199254740991.

(** The shortest decimal that reads back as the Number [n], for [n] from
    2^53 on: the first of the roundings of [n] to 1, 2, ... significant
    digits that lies in the interval of the reals that round to [n]; of two
    that do, the nearer, and on a tie the even one.  [u] is the unit of the
    last digit kept, [low2] and [high2] are twice the ends of the interval,
    which belong to it when the significand of [n] is even. *)
Fixpoint shortest (fuel : nat) (u n low2 high2 : Z) (even : bool) : Z :=
  match fuel with
  | O => n
  | S fuel' =>
      let c1 := (n / u) * u in
      let c2 := c1 + u in
      let within c :=
        if even then (low2 <=? 2 * c) && (2 * c <=? high2)
        else (low2 <? 2 * c) && (2 * c <? high2) in
      match within c1, within c2 with
      | true, true =>
          if n - c1 <? c2 - n then c1
          else if c2 - n <? n - c1 then c2
          else if Z.even (c1 / u) then c1 else c2
      | true, false => c1
      | false, true => c2
      | false, false => shortest fuel' (u / 10) n low2 high2 even
      end
  end.

Fixpoint dropTrailingZeros (s : string) : string :=
  match s with
  | EmptyString => EmptyString
  | String c s' =>
      match dropTrailingZeros s' with
      | EmptyString => if Ascii.eqb c "0" then EmptyString else String c EmptyString
      | t => String c t
      end
  end.

(** The digits [ds] of a positive integer, written the way Number::toString
    writes them: in full up to 21 digits, with an exponent beyond. *)
Definition written (ds : string) : string :=
  if (String.length ds <=? 21)%nat then ds
  else
    let exponent := decimal (Z.of_nat (String.length ds) - 1) in
    match dropTrailingZeros ds with
    | String d EmptyString => String d ("e+" ++ exponent)
    | String d rest => String d ("." ++ rest ++ "e+" ++ exponent)
    | EmptyString => ds
    end.

(** Number::toString of a positive integer that is a Number. *)
Definition positiveToString (n : Z) : string :=
  if n <=? maxSafeInteger then decimal n
  else
    let e := Z.log2 n in
    let above := 2 ^ (e - 52) in
    let below := if n =? 2 ^ e then 2 ^ (e - 53) else above in
    let digits := String.length (decimal n) in
    written (decimal (shortest digits (10 ^ (Z.of_nat digits - 1)) n
                               (2 * n - below) (2 * n + above)
                               (Z.even (n / above)))).

(** [String(n)] for a Number whose value is the integer [n]: up to
    Number.MAX_SAFE_INTEGER every integer is a Number and is written in full;
    above, the integers that are Numbers are written with the fewest digits
    that tell them from their neighbours (2^60 is 1152921504606847000), and
    with an exponent from 1e21 on. *)
Definition numToString (n : Z) : string :=
  if n =? 0 then "0"
  else if n <? 0 then String "-" (positiveToString (- n))
  else positiveToString n.

(** ToString, as applied by template literals and by URLSearchParams. *)
Definition toString (v : JsVal) : string :=
  match v with
  | JUndef => "undefined"
  | JNull => "null"
  | JBool true => "true"
  | JBool false => "false"
  | JNum n => numToString n
  | JStr s => s
  | JObj _ => "[object Object]"
  end.

(** Reading of a decimal integer literal with an optional minus sign. *)
Definition parseInteger (s : string) : option Z :=
  option_map Z.of_int (NilZero.int_of_string s).

Definition code (c : ascii) : N := N_of_ascii c.

Definition isDecimalDigit (c : ascii) : bool := ((48 <=? code c) && (code c <=? 57))%N.

(** The white space and line terminators that ToNumber trims, a string
    being the UTF-8 bytes of its text: TAB, LF, VT, FF, CR and SP; U+00A0;
    U+1680, U+2000 to U+200A, U+2028, U+2029, U+202F, U+205F, U+3000 and
    U+FEFF. *)
Definition white1 (a : ascii) : bool :=
  match code a with
  | 9 | 10 | 11 | 12 | 13 | 32 => true
  | _ => false
  end%N.

Definition white2 (a b : ascii) : bool := ((code a =? 194) && (code b =? 160))%N.

Definition white3 (a b c : ascii) : bool :=
  (((code a =? 225) && (code b =? 154) && (code c =? 128))
   || ((code a =? 226) && (code b =? 128)
       && (((128 <=? code c) && (code c <=? 138))
           || (code c =? 168) || (code c =? 169) || (code c =? 175)))
   || ((code a =? 226) && (code b =? 129) && (code c =? 159))
   || ((code a =? 227) && (code b =? 128) && (code c =? 128))
   || ((code a =? 239) && (code b =? 187) && (code c =? 191)))%N.

Fixpoint skipWhite (s : string) : string :=
  match s with
  | String a s1 =>
      if white1 a then skipWhite s1
      else
        match s1 with
        | String b s2 =>
            if white2 a b then skipWhite s2
            else
              match s2 with
              | String c s3 => if white3 a b c then skipWhite s3 else s
              | EmptyString => s
              end
        | EmptyString => s
        end
  | EmptyString => s
  end.

Definition onlyWhite (s : string) : bool := (skipWhite s =? "")%string.

(** The decimal digits a string starts with: the number they write after
    the digits that gave [acc], how many they are, and what follows them. *)
Fixpoint takeDigits (acc : Z) (count : nat) (s : string) : Z * nat * string :=
  match s with
  | String c s' =>
      if isDecimalDigit c
      then takeDigits (10 * acc + (Z.of_N (code c) - 48)) (S count) s'
      else (acc, count, s)
  | EmptyString => (acc, count, s)
  end.

(** [s] without the prefix [p], when it starts with it. *)
Fixpoint after (p s : string) : option string :=
  match p, s with
  | EmptyString, _ => Some s
  | String a p', String b s' => if Ascii.eqb a b then after p' s' else None
  | String _ _, EmptyString => None
  end.

(** An ExponentPart at the start of [s], if there is one: its value and
    what follows it. *)
Definition exponentPart (s : string) : Z * string :=
  match s with
  | String c r =>
      if Ascii.eqb c "e" || Ascii.eqb c "E" then
        let '(sign, r') :=
          match r with
          | String x r1 =>
              if Ascii.eqb x "+" then (1, r1)
              else if Ascii.eqb x "-" then (-1, r1)
              else (1, r)
          | EmptyString => (1, r)
          end in
        let '(v, n, rest) := takeDigits 0 0 r' in
        if (n =? 0)%nat then (0, s) else (sign * v, rest)
      else (0, s)
  | EmptyString => (0, s)
  end.

(** [d * 10^e], for [d >= 0], does not round to the Number 0: it is above
    2^-1075, half of the least positive Number. *)
Definition staysNonzero (d e : Z) : bool :=
  negb (d =? 0) && ((0 <=? e) || (10 ^ (- e) <? d * 2 ^ 1075)).

(** ToNumber(s) < 0 for a string: trimmed, [s] is a minus sign followed by
    Infinity, or by a decimal literal (digits, with an optional fraction and
    an optional exponent) whose value does not round to zero.  Every other
    string is NaN, zero or positive. *)
Definition negativeLiteral (s : string) : bool :=
  match skipWhite s with
  | String sign u =>
      if Ascii.eqb sign "-" then
        match after "Infinity" u with
        | Some rest => onlyWhite rest
        | None =>
            let '(i, ni, r1) := takeDigits 0 0 u in
            let '(f, nf, r2) :=
              match r1 with
              | String dot r => if Ascii.eqb dot "." then takeDigits i 0 r else (i, 0%nat, r1)
              | EmptyString => (i, 0%nat, r1)
              end in
            if (ni + nf =? 0)%nat then false
            else
              let '(e, r3) := exponentPart r2 in
              onlyWhite r3 && staysNonzero f (e - Z.of_nat nf)
        end
      else false
  | EmptyString => false
  end.

(** [v < 0]: ToNumber of [undefined] and of an object is NaN, of [null] and
    of a boolean 0 or 1. *)
Definition ltZero (v : JsVal) : bool :=
  match v with
  | JNum n => n <? 0
  | JStr s => negativeLiteral s
  | JUndef | JNull | JBool _ | JObj _ => false
  end.

(** [o.k], [undefined] when [k] is not a property of [o]. *)
Fixpoint get (k : string) (o : Obj) : JsVal :=
  match o with
  | [] => JUndef
  | (k', v) :: o' => if (k' =? k)%string then v else get k o'
  end.

(** [o.k = v]: an existing property keeps its place, a new one goes last. *)
Fixpoint set (k : string) (v : JsVal) (o : Obj) : Obj :=
  match o with
  | [] => [(k, v)]
  | (k', v') :: o' =>
      if (k' =? k)%string then (k, v) :: o' else (k', v') :: set k v o'
  end.

(** [v?.k]: [undefined] on [undefined] and [null]; a primitive has none of
    the properties read here. *)
Definition optGet (v : JsVal) (k : string) : JsVal :=
  match v with
  | JObj o => get k o
  | _ => JUndef
  end.

(** The entries of [new URLSearchParams(o)]: every value is turned into a
    string. *)
Definition urlParams (o : Obj) : list (string * string) :=
  map (fun kv => (fst kv, toString (snd kv))) o.

End Js.
Import Js.

(* ================================================================== *)
(** ** converter.js *)
(* ================================================================== *)

Module Converter.

(** The line [convertToTechnitiumFormat] hands to [logger.trace] on entry. *)
Definition traceLine (record : Obj) : string :=
  ("technitium.converter: Converting record: " ++ toString (get "name" record))%string.

(** [convertToTechnitiumFormat(record, zone)]: the request parameters. *)
Definition convertToTechnitiumFormat (record : Obj) (zone : JsVal) : Obj :=
  let params :=
    [ ("zone"%string, zone);
      ("domain"%string, get "name" record);
      ("type"%string, get "type" record);
      ("ttl"%string, or_ (get "ttl" record) (JNum 3600)) ] in
  let type := get "type" record in
  if strictEq type (JStr "A") || strictEq type (JStr "AAAA") then
    set "ipAddress" (get "content" record) params
  else if strictEq type (JStr "CNAME") || strictEq type (JStr "ANAME") then
    set "cname" (get "content" record) params
  else if strictEq type (JStr "TXT") then
    set "text" (get "content" record) params
  else if strictEq type (JStr "MX") then
    set "preference" (or_ (get "priority" record) (JNum 10))
      (set "exchange" (get "content" record) params)
  else params.

(** [convertToStandardFormat(techRecord)]. *)
Definition convertToStandardFormat (techRecord : Obj) : Obj :=
  let rData := get "rData" techRecord in
  [ ("id"%string,
      JStr (toString (get "name" techRecord) ++ "-" ++
            toString (get "type" techRecord) ++ "-" ++
            toString (or_ (or_ (optGet rData "ipAddress") (optGet rData "cname"))
                          (JStr "data")))%string);
    ("type"%string, get "type" techRecord);
    ("name"%string, get "name" techRecord);
    ("content"%string,
      or_ (or_ (or_ (optGet rData "ipAddress") (optGet rData "cname"))
               (optGet rData "text"))
          rData);
    ("ttl"%string, get "ttl" techRecord);
    ("_original"%string, JObj techRecord) ].

End Converter.
Import Converter.

(* ================================================================== *)
(** ** The provider's world: backend, record cache, clock, trace *)
(* ================================================================== *)

Module Eff.

Inductive Verb : Type := GET | POST.

(** An outbound request: verb, path and the url-encoded parameters. *)
Record Request : Type := mkRequest
  { verb : Verb; path : string; params : list (string * string) }.

(** [response.data.response]. *)
Record Payload : Type := mkPayload { records : option (list Obj) }.

(** [response.data]: the envelope [{status, response: {records}}]. *)
Record Envelope : Type := mkEnvelope
  { status : JsVal; response : option Payload }.

(** What a request comes back with: axios rejects (timeout, connection or
    HTTP error) or resolves with the envelope. *)
Inductive Reply : Type :=
| NetError (message : string)
| Data (e : Envelope).

Inductive Level : Type := LTrace | LDebug | LInfo | LWarn | LError.

Inductive Call : Type :=
| CreateRecord
| UpdateRecord (id : JsVal)
| DeleteRecord (id : JsVal).

(** What is observable of a run: outbound requests, entries into the three
    mutating methods, and log lines. *)
Inductive Event : Type :=
| EHttp (r : Request)
| ECall (c : Call)
| ELog (l : Level) (msg : string).

(** [this.recordCache]. *)
Record Cache : Type := mkCache { cached : list Obj; lastUpdated : Z }.

(** How a call ends: it returns, or it throws an [Error] with a message. *)
Inductive Outcome (A : Type) : Type :=
| Ok (a : A)
| Thrown (message : string).
Arguments Thrown {A} message.

Section World.
Variable B : Type.

Record World : Type := mkWorld
  { backend : B; recordCache : Cache; clock : Z; trace : list Event }.

Definition M (A : Type) : Type := World -> Outcome A * World.

Definition ret {A} (a : A) : M A := fun w => (Ok a, w).

Definition bind {A C} (m : M A) (k : A -> M C) : M C :=
  fun w =>
    match m w with
    | (Ok a, w') => k a w'
    | (Thrown e, w') => (Thrown e, w')
    end.

Definition throw {A} (message : string) : M A := fun w => (Thrown message, w).

(** [try { m } catch (error) { h error.message }]: what [m] did to the world
    before it threw stays done. *)
Definition tryCatch {A} (m : M A) (h : string -> M A) : M A :=
  fun w =>
    match m w with
    | (Ok a, w') => (Ok a, w')
    | (Thrown e, w') => h e w'
    end.

Definition emit (e : Event) : M unit :=
  fun w => (Ok tt, mkWorld (backend w) (recordCache w) (clock w) (trace w ++ [e])).

Definition log (l : Level) (msg : string) : M unit := emit (ELog l msg).

Definition getCache : M Cache := fun w => (Ok (recordCache w), w).

Definition setCache (c : Cache) : M unit :=
  fun w => (Ok tt, mkWorld (backend w) c (clock w) (trace w)).

(** [Date.now()]. *)
Definition dateNow : M Z := fun w => (Ok (clock w), w).

End World.

Arguments ret {B A} a _.
Arguments throw {B A} message _.
Arguments emit {B} e _.
Arguments log {B} l msg _.
Arguments getCache {B} _.
Arguments setCache {B} c _.
Arguments dateNow {B} _.

End Eff.
Import Eff.

Notation "x <- m ;; k" := (bind m (fun x => k))
  (at level 61, m at next level, right associativity).
Notation "m ;;; k" := (bind m (fun _ => k))
  (at level 61, right associativity).

(* ================================================================== *)
(** ** validator.js *)
(* ================================================================== *)

Module Validator.

Definition apexWarning : string :=
  "Technitium: CNAME at zone apex is often restricted. Consider ANAME.".

(** [validateRecord(record)]. *)
Definition validateRecord {B} (record : Obj) : M B unit :=
  if negb (truthy (get "type" record)) then throw "Record type is required"
  else if negb (truthy (get "name" record)) then throw "Record name is required"
  else if negb (truthy (get "content" record)) then throw "Record content is required"
  else
    (if strictEq (get "type" record) (JStr "CNAME")
        && strictEq (get "name" record) (get "zone" record)
     then log LWarn apexWarning else ret tt) ;;;
    if truthy (get "ttl" record) && ltZero (get "ttl" record)
    then throw "TTL must be a positive integer"
    else ret tt.

End Validator.
Import Validator.

(* ================================================================== *)
(** ** provider.js *)
(* ================================================================== *)

Module Provider.

(** The fields of [config] the provider keeps, and the staleness threshold
    of its record cache. *)
Record Config : Type := mkConfig
  { technitiumToken : JsVal;
    technitiumZone : JsVal;
    cacheRefreshInterval : Z }.

Section Backend.
Variable B : Type.

(** The Technitium server behind [this.client]: any function from a request
    and the server's state to a reply and the next state. *)
Variable serve : Request -> B -> Reply * B.
Variable config : Config.

Let token := technitiumToken config.
Let zone := technitiumZone config.

(** [this.client.get] / [this.client.post]. *)
Definition request (r : Request) : M B Envelope :=
  fun w =>
    let (reply, b) := serve r (backend w) in
    let w' := mkWorld b (recordCache w) (clock w) (trace w ++ [EHttp r]) in
    match reply with
    | NetError e => (Thrown e, w')
    | Data d => (Ok d, w')
    end.

(** [refreshRecordCache()]. *)
Definition refreshRecordCache : M B (list Obj) :=
  let params := urlParams
    [ ("token"%string, token); ("domain"%string, zone);
      ("zone"%string, zone); ("listAll"%string, JStr "true") ] in
  d <- request (mkRequest GET "/api/zones/records/get" params) ;;
  if strictNe (status d) (JStr "ok") then
    throw ("Technitium API Error: " ++ toString (status d))%string
  else
    match response d with
    | None => throw "Cannot read properties of undefined (reading 'records')"
    | Some payload =>
        let records := match records payload with Some l => l | None => [] end in
        t <- dateNow ;;
        setCache (mkCache (map convertToStandardFormat records) t) ;;;
        ret (map convertToStandardFormat records)
    end.

(** Modelled from the spec: [getRecordsFromCache] of the base class
    DNSProvider, which is not among the sources.  The snapshot is served
    while it is fresh; a stale or empty one is refreshed first. *)
Definition getRecordsFromCache : M B (list Obj) :=
  c <- getCache ;;
  t <- dateNow ;;
  if (Nat.eqb (List.length (cached c)) 0
      || negb (t - lastUpdated c <? cacheRefreshInterval config))%bool
  then refreshRecordCache
  else ret (cached c).

(** [createRecord(record)]. *)
Definition createRecord (record : Obj) : M B Obj :=
  emit (ECall CreateRecord) ;;;
  validateRecord record ;;;
  log LTrace (traceLine record) ;;;
  let techData := convertToTechnitiumFormat record JUndef in
  let params := urlParams (set "zone" zone (set "token" token techData)) in
  d <- request (mkRequest POST "/api/zones/records/add" params) ;;
  if strictNe (status d) (JStr "ok") then
    throw ("Create failed: " ++ toString (status d))%string
  else
    refreshRecordCache ;;; ret record.

(** [deleteRecord(id)]. *)
Definition deleteRecord (id : JsVal) : M B bool :=
  emit (ECall (DeleteRecord id)) ;;;
  c <- getCache ;;
  match find (fun r => strictEq (get "id" r) id) (cached c) with
  | None => ret false
  | Some record =>
      log LTrace (traceLine record) ;;;
      let techData := convertToTechnitiumFormat record JUndef in
      let params := urlParams
        (set "domain" (get "name" record)
           (set "zone" zone (set "token" token techData))) in
      d <- request (mkRequest POST "/api/zones/records/delete" params) ;;
      if strictEq (status d) (JStr "ok") then
        c' <- getCache ;;
        setCache (mkCache (filter (fun r => strictNe (get "id" r) id) (cached c'))
                          (lastUpdated c')) ;;;
        ret true
      else ret false
  end.

(** [updateRecord(id, record)]: delete, then create. *)
Definition updateRecord (id : JsVal) (record : Obj) : M B Obj :=
  emit (ECall (UpdateRecord id)) ;;;
  deleteRecord id ;;;
  createRecord record.

(** [recordNeedsUpdate(existing, newRecord)]; the value returned is
    [contentDiff || ttlDiff]. *)
Definition recordNeedsUpdate (existing newRecord : Obj) : M B JsVal :=
  let contentDiff := JBool (strictNe (get "content" existing) (get "content" newRecord)) in
  let ttlDiff := and_ (get "ttl" newRecord)
                      (JBool (strictNe (get "ttl" existing) (get "ttl" newRecord))) in
  (if truthy contentDiff then
     log LDebug ("Record " ++ toString (get "name" existing) ++ " content: " ++
                 toString (get "content" existing) ++ " -> " ++
                 toString (get "content" newRecord))%string
   else ret tt) ;;;
  (if truthy ttlDiff then
     log LDebug ("Record " ++ toString (get "name" existing) ++ " TTL: " ++
                 toString (get "ttl" existing) ++ " -> " ++
                 toString (get "ttl" newRecord))%string
   else ret tt) ;;;
  ret (or_ contentDiff ttlDiff).

(** The cached record a desired spec is matched with: the first one of the
    same name and type. *)
Definition findExisting (config0 : Obj) (c : Cache) : option Obj :=
  find (fun r => strictEq (get "name" r) (get "name" config0)
                 && strictEq (get "type" r) (get "type" config0))
       (cached c).

(** The body of the [try] block for one spec; it yields what is pushed on
    [results], if anything. *)
Definition ensureRecord (config0 : Obj) : M B (option Obj) :=
  c <- getCache ;;
  match findExisting config0 c with
  | None =>
      log LInfo ("✨ Creating Technitium " ++ toString (get "type" config0) ++
                 " record for " ++ toString (get "name" config0))%string ;;;
      r <- createRecord config0 ;;
      ret (Some r)
  | Some existing =>
      n <- recordNeedsUpdate existing config0 ;;
      if truthy n then
        log LInfo ("🔄 Updating Technitium " ++ toString (get "type" config0) ++
                   " record for " ++ toString (get "name" config0))%string ;;;
        r <- updateRecord (get "id" existing) config0 ;;
        ret (Some r)
      else ret None
  end.

(** One turn of the [for] loop: the [try] block and its [catch]. *)
Definition processConfig (config0 : Obj) (results : list Obj) : M B (list Obj) :=
  tryCatch
    (r <- ensureRecord config0 ;;
     ret (match r with Some x => results ++ [x] | None => results end))
    (fun message =>
       log LError ("Failed to process record " ++ toString (get "name" config0) ++
                   ": " ++ message)%string ;;;
       ret results).

(** The [for (const config of recordConfigs)] loop. *)
Fixpoint processAll (recordConfigs : list Obj) (results : list Obj) : M B (list Obj) :=
  match recordConfigs with
  | [] => ret results
  | config0 :: rest =>
      results' <- processConfig config0 results ;;
      processAll rest results'
  end.

(** [batchEnsureRecords(recordConfigs)]. *)
Definition batchEnsureRecords (recordConfigs : list Obj) : M B (list Obj) :=
  match recordConfigs with
  | [] => ret []
  | _ :: _ =>
      getRecordsFromCache ;;;
      processAll recordConfigs []
  end.

End Backend.

End Provider.
Import Provider.

(* ================================================================== *)
(** ** A zone server *)
(* ================================================================== *)

(** The environment the provider talks to in the closed examples and in the
    statements about two consecutive runs: a server that keeps the zone as a
    list of records, stores what an add request sends, and lists it back in
    the shape [{name, type, ttl, rData}] that [convertToStandardFormat]
    reads.  It changes the zone on add and delete requests only. *)
Module ZoneServer.

Definition Zone : Type := list Obj.

Fixpoint param (k : string) (ps : list (string * string)) : option string :=
  match ps with
  | [] => None
  | (k', v) :: ps' => if (k' =? k)%string then Some v else param k ps'
  end.

(** The [rData] of a record of the given type, from the request parameters. *)
Definition rDataOf (type : string) (ps : list (string * string)) : option Obj :=
  let field k := option_map (fun v => [(k, JStr v)]) (param k ps) in
  if ((type =? "A") || (type =? "AAAA"))%string then field "ipAddress"%string
  else if ((type =? "CNAME") || (type =? "ANAME"))%string then field "cname"%string
  else if (type =? "TXT")%string then field "text"%string
  else if (type =? "MX")%string then
    match param "preference" ps, param "exchange" ps with
    | Some p, Some x =>
        option_map (fun n => [("preference"%string, JNum n); ("exchange"%string, JStr x)])
                   (parseInteger p)
    | _, _ => None
    end
  else Some [].

(** The record an add request describes. *)
Definition recordOfParams (ps : list (string * string)) : option Obj :=
  match param "domain" ps, param "type" ps, param "ttl" ps with
  | Some domain, Some type, Some ttl =>
      match parseInteger ttl, rDataOf type ps with
      | Some n, Some rData =>
          Some [ ("name"%string, JStr domain); ("type"%string, JStr type);
                 ("ttl"%string, JNum n); ("rData"%string, JObj rData) ]
      | _, _ => None
      end
  | _, _, _ => None
  end.

Fixpoint sameFields (a b : Obj) : bool :=
  match a, b with
  | [], [] => true
  | (k, v) :: a', (k', v') :: b' =>
      (k =? k')%string && strictEq v v' && sameFields a' b'
  | _, _ => false
  end.

(** A stored record is the one a delete request names when name, type and
    [rData] agree. *)
Definition named (ps : list (string * string)) (r : Obj) : bool :=
  match recordOfParams ps with
  | Some target =>
      strictEq (get "name" r) (get "name" target)
      && strictEq (get "type" r) (get "type" target)
      && match get "rData" r, get "rData" target with
         | JObj x, JObj y => sameFields x y
         | _, _ => false
         end
  | None => false
  end.

Definition ok (rs : option (list Obj)) : Reply :=
  Data (mkEnvelope (JStr "ok") (Some (mkPayload rs))).

Definition failed : Reply := Data (mkEnvelope (JStr "error") None).

Definition serve (r : Request) (zone : Zone) : Reply * Zone :=
  match verb r with
  | GET =>
      if (path r =? "/api/zones/records/get")%string then (ok (Some zone), zone)
      else (NetError "Request failed with status code 404", zone)
  | POST =>
      if (path r =? "/api/zones/records/add")%string then
        match recordOfParams (params r) with
        | Some record => (ok None, zone ++ [record])
        | None => (failed, zone)
        end
      else if (path r =? "/api/zones/records/delete")%string then
        (ok None, filter (fun x => negb (named (params r) x)) zone)
      else (NetError "Request failed with status code 404", zone)
  end.

End ZoneServer.

(* ================================================================== *)
(** ** The earlier TechnitiumProvider class: record validation *)
(* ================================================================== *)

Module Legacy.

(** Regular expressions, matched against a whole string (every alternative
    of the two patterns below sits between [^] and [$]). *)
Inductive Regex : Type :=
| Void
| Eps
| Class (p : ascii -> bool)
| Seq (r1 r2 : Regex)
| Alt (r1 r2 : Regex)
| Star (r : Regex).

Fixpoint nullable (r : Regex) : bool :=
  match r with
  | Void => false
  | Eps => true
  | Class _ => false
  | Seq r1 r2 => nullable r1 && nullable r2
  | Alt r1 r2 => nullable r1 || nullable r2
  | Star _ => true
  end.

Fixpoint deriv (c : ascii) (r : Regex) : Regex :=
  match r with
  | Void => Void
  | Eps => Void
  | Class p => if p c then Eps else Void
  | Seq r1 r2 =>
      if nullable r1 then Alt (Seq (deriv c r1) r2) (deriv c r2)
      else Seq (deriv c r1) r2
  | Alt r1 r2 => Alt (deriv c r1) (deriv c r2)
  | Star r0 => Seq (deriv c r0) (Star r0)
  end.

Fixpoint test (r : Regex) (s : string) : bool :=
  match s with
  | EmptyString => nullable r
  | String c s' => test (deriv c r) s'
  end.

(** [r{n}]. *)
Fixpoint times (n : nat) (r : Regex) : Regex :=
  match n with
  | O => Eps
  | S n' => Seq r (times n' r)
  end.

(** [r{0,n}]. *)
Fixpoint upTo (n : nat) (r : Regex) : Regex :=
  match n with
  | O => Eps
  | S n' => Alt Eps (Seq r (upTo n' r))
  end.

(** [r{m,n}], for [m <= n]. *)
Definition range (m n : nat) (r : Regex) : Regex :=
  Seq (times m r) (upTo (n - m) r).

Definition chr (c : ascii) : Regex := Class (Ascii.eqb c).

Definition between (lo hi c : ascii) : bool :=
  (N.leb (N_of_ascii lo) (N_of_ascii c) && N.leb (N_of_ascii c) (N_of_ascii hi))%bool.

(** [\d]. *)
Definition isDigit (c : ascii) : bool := between "0" "9" c.

(** [[\da-fA-F]]. *)
Definition isHex (c : ascii) : bool :=
  isDigit c || between "a" "f" c || between "A" "F" c.

(** [/^(\d{1,3}\.){3}\d{1,3}$/]. *)
Definition ipv4Regex : Regex :=
  Seq (times 3 (Seq (range 1 3 (Class isDigit)) (chr ".")))
      (range 1 3 (Class isDigit)).

(** [/^([\da-fA-F]{1,4}:){7}[\da-fA-F]{1,4}$|^::$|^([\da-fA-F]{1,4}:){1,6}:$|^:((:[\da-fA-F]{1,4}){1,6})$/]. *)
Definition ipv6Regex : Regex :=
  let h := range 1 4 (Class isHex) in
  let colon := chr ":" in
  Alt (Seq (times 7 (Seq h colon)) h)
      (Alt (Seq colon colon)
           (Alt (Seq (range 1 6 (Seq h colon)) colon)
                (Seq colon (range 1 6 (Seq colon h))))).

(** [s.split(sep)] for a one-character separator. *)
Fixpoint split (sep : ascii) (s : string) : list string :=
  match s with
  | EmptyString => [EmptyString]
  | String c s' =>
      if Ascii.eqb c sep then EmptyString :: split sep s'
      else match split sep s' with
           | [] => [String c EmptyString]
           | p :: ps => String c p :: ps
           end
  end.

Definition isSpace (c : ascii) : bool :=
  match N_of_ascii c with
  | 9%N | 10%N | 11%N | 12%N | 13%N | 32%N => true
  | _ => false
  end.

Fixpoint skipSpaces (s : string) : string :=
  match s with
  | String c s' => if isSpace c then skipSpaces s' else s
  | EmptyString => s
  end.

(** The digits a string starts with, as a number; [None] when it starts
    with none. *)
Fixpoint leadingDigits (acc : option Z) (s : string) : option Z :=
  match s with
  | String c s' =>
      if isDigit c then
        let d := Z.of_N (N_of_ascii c) - 48 in
        leadingDigits (Some (10 * match acc with Some a => a | None => 0 end + d)) s'
      else acc
  | EmptyString => acc
  end.

(** [parseInt(s, 10)]; [None] is NaN. *)
Definition parseInt (s : string) : option Z :=
  match skipSpaces s with
  | String "-" s' => option_map Z.opp (leadingDigits None s')
  | String "+" s' => leadingDigits None s'
  | s' => leadingDigits None s'
  end.

(** [isValidIPv4(ip)].  [test] applies ToString to its argument, and a value
    whose string passes the pattern is a string, so [split] is applied to a
    string. *)
Definition isValidIPv4 (ip : JsVal) : bool :=
  if negb (test ipv4Regex (toString ip)) then false
  else
    forallb (fun part =>
               match parseInt part with
               | Some num => (0 <=? num) && (num <=? 255)
               | None => false
               end)
            (split "." (toString ip)).

(** [isValidIPv6(ip)]. *)
Definition isValidIPv6 (ip : JsVal) : bool := test ipv6Regex (toString ip).

Definition upcase (c : ascii) : ascii :=
  if between "a" "z" c then ascii_of_N (N_of_ascii c - 32) else c.

(** [s.toUpperCase()], on ASCII letters. *)
Fixpoint toUpperCase (s : string) : string :=
  match s with
  | EmptyString => EmptyString
  | String c s' => String (upcase c) (toUpperCase s')
  end.

Definition defaulted (k : string) (v : JsVal) (o : Obj) : Obj :=
  if negb (truthy (get k o)) then set k v o else o.

(** [validateRecord(hostname, type, content, additionalOptions)] of the
    class; [zone] is [this.zone].  It returns [true]; the value given here is
    [additionalOptions] as the call leaves it. *)
Definition validateRecord (zone hostname type content : JsVal)
    (additionalOptions : Obj) : Outcome Obj :=
  if negb (truthy hostname) || negb (truthy type) || negb (truthy content) then
    Thrown "Hostname, type, and content are required"
  else
    match type with
    | JStr t =>
        let T := toUpperCase t in
        if (T =? "A")%string then
          if negb (isValidIPv4 content)
          then Thrown ("Invalid IPv4 address: " ++ toString content)%string
          else Ok additionalOptions
        else if (T =? "AAAA")%string then
          if negb (isValidIPv6 content)
          then Thrown ("Invalid IPv6 address: " ++ toString content)%string
          else Ok additionalOptions
        else if (T =? "CNAME")%string then
          if strictEq hostname zone
          then Thrown "CNAME records cannot be created at zone apex. Use A or ANAME instead."
          else Ok additionalOptions
        else if (T =? "MX")%string then
          Ok (defaulted "priority" (JNum 10) additionalOptions)
        else if (T =? "SRV")%string then
          Ok (defaulted "port" (JNum 80)
                (defaulted "weight" (JNum 10)
                   (defaulted "priority" (JNum 10) additionalOptions)))
        else Ok additionalOptions
    | _ => Thrown "type.toUpperCase is not a function"
    end.

End Legacy.

(* ================================================================== *)
(** ** ConfigManager: the public IP cache *)
(* ================================================================== *)

Module Resolver.

(** [this.ipCache]. *)
Record IpCache : Type := mkIpCache { ipv4 : JsVal; ipv6 : JsVal; lastCheck : Z }.

(** How an [axios.get] settles: with [response.data], or rejected. *)
Inductive NetResult : Type :=
| Resolved (data : JsVal)
| Rejected (message : string).

(** The two entry points that end in a refresh. *)
Inductive Entry : Type := ViaUpdatePublicIPs | ViaGetPublicIP.

(** What a caller's promise resolves to: [this.ipCache] for
    [updatePublicIPs], [this.ipCache.ipv4] for [getPublicIP]. *)
Inductive Result : Type :=
| GotCache (c : IpCache)
| GotIp (ip : JsVal).

(** The local variables of [updatePublicIPs]. *)
Record Locals : Type := mkLocals
  { oldIpv4 : JsVal; oldIpv6 : JsVal; ipv4' : JsVal; ipv6' : JsVal }.

(** Where a call of [updatePublicIPs] stands: at one of its [await]s, or
    returned. *)
Inductive Pc : Type :=
| Waiting
| AwaitPrimary (l : Locals)
| AwaitFallback (l : Locals)
| AwaitIpv6 (l : Locals)
| Returned (r : Result).

Record Task : Type := mkTask { entry : Entry; pc : Pc }.

Inductive Event : Type :=
| Outbound (caller : nat) (url : string)
| Logged (l : Level) (msg : string)
| Console (at_ : Z) (msg : string).

(** The module-level flag, the instance's cache and settings, the calls made
    so far, and what has been sent and logged. *)
Record State : Type := mkState
  { ipUpdateInProgress : bool;
    ipCache : IpCache;
    PUBLIC_IP : JsVal;
    PUBLIC_IPV6 : JsVal;
    ipRefreshInterval : Z;
    tasks : list Task;
    events : list Event }.

Definition withFlag (b : bool) (s : State) : State :=
  mkState b (ipCache s) (PUBLIC_IP s) (PUBLIC_IPV6 s) (ipRefreshInterval s)
          (tasks s) (events s).

Definition withCache (c : IpCache) (s : State) : State :=
  mkState (ipUpdateInProgress s) c (PUBLIC_IP s) (PUBLIC_IPV6 s)
          (ipRefreshInterval s) (tasks s) (events s).

Definition withTasks (ts : list Task) (s : State) : State :=
  mkState (ipUpdateInProgress s) (ipCache s) (PUBLIC_IP s) (PUBLIC_IPV6 s)
          (ipRefreshInterval s) ts (events s).

Definition record (e : Event) (s : State) : State :=
  mkState (ipUpdateInProgress s) (ipCache s) (PUBLIC_IP s) (PUBLIC_IPV6 s)
          (ipRefreshInterval s) (tasks s) (events s ++ [e]).

Definition recordIf (b : bool) (e : Event) (s : State) : State :=
  if b then record e s else s.

(** What the caller gets when [updatePublicIPs] returns [this.ipCache]. *)
Definition deliver (en : Entry) (s : State) : Result :=
  match en with
  | ViaUpdatePublicIPs => GotCache (ipCache s)
  | ViaGetPublicIP => GotIp (ipv4 (ipCache s))
  end.

(** From "Update cache" to the end of [updatePublicIPs]: the cache is
    replaced, a changed address is reported once, [this.ipCache] is returned
    and the [finally] block clears the flag. *)
Definition finish (en : Entry) (now : Z) (l : Locals) (s : State) : State * Pc :=
  let s1 := withCache (mkIpCache (ipv4' l) (ipv6' l) now) s in
  let s2 := recordIf (truthy (ipv4' l) && strictNe (ipv4' l) (oldIpv4 l))
              (Console now ("[INFO] Public IPv4: " ++ toString (ipv4' l))%string) s1 in
  let s3 := recordIf (truthy (ipv6' l) && strictNe (ipv6' l) (oldIpv6 l))
              (Logged LDebug ("Public IPv6: " ++ toString (ipv6' l))%string) s2 in
  (withFlag false s3, Returned (deliver en s3)).

(** From "Try to get IPv6" on. *)
Definition tryIpv6 (me : nat) (en : Entry) (now : Z) (l : Locals) (s : State)
    : State * Pc :=
  if negb (truthy (ipv6' l)) then
    (record (Outbound me "https://api6.ipify.org") s, AwaitIpv6 l)
  else finish en now l s.

(** [updatePublicIPs()] from its first line to its first [await].  Each
    request sits in a [try] of its own, so nothing reaches the outer [catch];
    the [finally] block is the last step of [finish]. *)
Definition enterUpdate (me : nat) (en : Entry) (now : Z) (s : State) : State * Pc :=
  if ipUpdateInProgress s then
    (record (Logged LDebug "IP update already in progress, waiting...") s, Waiting)
  else
    let s1 := withFlag true s in
    let l := mkLocals (ipv4 (ipCache s)) (ipv6 (ipCache s)) (PUBLIC_IP s) (PUBLIC_IPV6 s) in
    if negb (truthy (ipv4' l)) then
      (record (Outbound me "https://api.ipify.org") s1, AwaitPrimary l)
    else tryIpv6 me en now l s1.

(** A call of one of the entry points, up to its first [await]. *)
Definition enter (me : nat) (en : Entry) (now : Z) (s : State) : State * Pc :=
  match en with
  | ViaUpdatePublicIPs => enterUpdate me en now s
  | ViaGetPublicIP =>
      if truthy (ipv4 (ipCache s)) && (now - lastCheck (ipCache s) <? ipRefreshInterval s)
      then (s, Returned (GotIp (ipv4 (ipCache s))))
      else enterUpdate me en now s
  end.

(** A call continues after the [await] it stands at: a tick of the 100 ms
    poll for a waiting call, the settlement [net] of its request for the
    others. *)
Definition resume (me : nat) (en : Entry) (now : Z) (net : NetResult) (p : Pc)
    (s : State) : State * Pc :=
  match p with
  | Waiting =>
      if ipUpdateInProgress s then (s, Waiting)
      else (s, Returned (deliver en s))
  | AwaitPrimary l =>
      match net with
      | Resolved data =>
          tryIpv6 me en now (mkLocals (oldIpv4 l) (oldIpv6 l) data (ipv6' l)) s
      | Rejected _ =>
          (record (Outbound me "https://ifconfig.me/ip") s, AwaitFallback l)
      end
  | AwaitFallback l =>
      match net with
      | Resolved data =>
          tryIpv6 me en now (mkLocals (oldIpv4 l) (oldIpv6 l) data (ipv6' l)) s
      | Rejected message =>
          tryIpv6 me en now l
            (record (Logged LError
                       ("Failed to fetch public IPv4 address: " ++ message)%string) s)
      end
  | AwaitIpv6 l =>
      match net with
      | Resolved data =>
          finish en now (mkLocals (oldIpv4 l) (oldIpv6 l) (ipv4' l) data) s
      | Rejected _ =>
          finish en now l
            (record (Logged LDebug
                       "Failed to fetch public IPv6 address (this is normal if you don't have IPv6)") s)
      end
  | Returned r => (s, Returned r)
  end.

Fixpoint setTask (i : nat) (t : Task) (ts : list Task) : list Task :=
  match ts, i with
  | [], _ => []
  | _ :: ts', O => t :: ts'
  | x :: ts', S i' => x :: setTask i' t ts'
  end.

(** What the event loop runs next: a new call of an entry point, or the
    continuation of call [who]. *)
Inductive Tick : Type :=
| Invoke (en : Entry) (now : Z)
| Resume (who : nat) (now : Z) (net : NetResult).

Definition step (t : Tick) (s : State) : State :=
  match t with
  | Invoke en now =>
      let me := List.length (tasks s) in
      let (s', p) := enter me en now s in
      withTasks (tasks s' ++ [mkTask en p]) s'
  | Resume who now net =>
      match nth_error (tasks s) who with
      | Some t0 =>
          let (s', p) := resume who (entry t0) now net (pc t0) s in
          withTasks (setTask who (mkTask (entry t0) p) (tasks s')) s'
      | None => s
      end
  end.

Fixpoint run (ticks : list Tick) (s : State) : State :=
  match ticks with
  | [] => s
  | t :: rest => run rest (step t s)
  end.

(** The call gets as far as [updatePublicIPs]: always for a direct call, and
    for [getPublicIP] when the cached address is missing or too old. *)
Definition reachesUpdate (en : Entry) (now : Z) (s : State) : bool :=
  match en with
  | ViaUpdatePublicIPs => true
  | ViaGetPublicIP =>
      negb (truthy (ipv4 (ipCache s))
            && (now - lastCheck (ipCache s) <? ipRefreshInterval s))
  end.

(** Every call in [ticks] is a call of the refresh made while the flag is
    set. *)
Fixpoint duringRefresh (ticks : list Tick) (s : State) : bool :=
  match ticks with
  | [] => true
  | t :: rest =>
      match t with
      | Invoke en now => ipUpdateInProgress s && reachesUpdate en now s
      | Resume _ _ _ => true
      end && duringRefresh rest (step t s)
  end.

Definition outbound (es : list Event) : list (nat * string) :=
  flat_map (fun e => match e with Outbound c u => [(c, u)] | _ => [] end) es.

(** The requests one call of [updatePublicIPs] by [me] can have sent, at any
    point of its course. *)
Definition callSequences (me : nat) : list (list (nat * string)) :=
  let primary := (me, "https://api.ipify.org"%string) in
  let fallback := (me, "https://ifconfig.me/ip"%string) in
  let six := (me, "https://api6.ipify.org"%string) in
  [ []; [six]; [primary]; [primary; six]; [primary; fallback];
    [primary; fallback; six] ].

Definition returned (t : Task) : bool :=
  match pc t with Returned _ => true | _ => false end.

(** Continuations that bring every call to its end: the requests of the
    first call settle (at most three of them), then the poll of every call
    ticks once. *)
Definition drain (now : Z) (net : NetResult) (s : State) : list Tick :=
  [Resume 0 now net; Resume 0 now net; Resume 0 now net]
  ++ map (fun i => Resume i now net) (seq 0 (List.length (tasks s))).

(** No call made and none under way. *)
Definition idle (s : State) : Prop :=
  ipUpdateInProgress s = false /\ tasks s = [] /\ events s = [].

(** The requests the first call has sent when it stands at [p]. *)
Definition inFlight (p : Pc) (out : list (nat * string)) : Prop :=
  match p with
  | AwaitPrimary _ => out = [(0%nat, "https://api.ipify.org"%string)]
  | AwaitFallback _ =>
      out = [(0%nat, "https://api.ipify.org"%string);
             (0%nat, "https://ifconfig.me/ip"%string)]
  | AwaitIpv6 _ =>
      out = [(0%nat, "https://api6.ipify.org"%string)]
      \/ out = [(0%nat, "https://api.ipify.org"%string);
                (0%nat, "https://api6.ipify.org"%string)]
      \/ out = [(0%nat, "https://api.ipify.org"%string);
                (0%nat, "https://ifconfig.me/ip"%string);
                (0%nat, "https://api6.ipify.org"%string)]
  | _ => False
  end.

(** A call that waits, or that has returned what the cache now holds. *)
Definition atRest (s : State) (t : Task) : Prop :=
  pc t = Waiting \/ pc t = Returned (deliver (entry t) s).

(** The states a first call and the calls made during its refresh go
    through: either the first call has requests under way, the flag is set
    and every other call waits; or the flag is clear, the first call has
    returned what the cache holds, and every other call waits or has
    returned the same. *)
Inductive Inv (s : State) : Prop :=
| inv_flight t0 others :
    tasks s = t0 :: others ->
    ipUpdateInProgress s = true ->
    inFlight (pc t0) (outbound (events s)) ->
    Forall (fun t => pc t = Waiting) others ->
    Inv s
| inv_done t0 others :
    tasks s = t0 :: others ->
    ipUpdateInProgress s = false ->
    pc t0 = Returned (deliver (entry t0) s) ->
    Forall (atRest s) others ->
    In (outbound (events s)) (callSequences 0) ->
    Inv s.

(** How many requests the call may still have to wait for. *)
Definition rank (p : Pc) : nat :=
  match p with
  | AwaitPrimary _ => 3
  | AwaitFallback _ => 2
  | AwaitIpv6 _ => 1
  | Waiting | Returned _ => 0
  end.

Definition headRank (s : State) : nat :=
  match tasks s with
  | t0 :: _ => rank (pc t0)
  | [] => 0
  end.

(** No request is under way: the flag is clear and every call waits or
    has returned. *)
Definition Quiet (s : State) : Prop :=
  ipUpdateInProgress s = false
  /\ Forall (fun t => pc t = Waiting \/ exists r, pc t = Returned r) (tasks s).

End Resolver.

(* ================================================================== *)
(** ** What the properties speak of *)
(* ================================================================== *)

(** *** Traces *)

Definition isMutation (e : Eff.Event) : bool :=
  match e with
  | ECall _ => true
  | EHttp r => match verb r with POST => true | GET => false end
  | ELog _ _ => false
  end.

(** The mutating method calls and the mutating requests of a trace. *)
Definition mutations (t : list Eff.Event) : list Eff.Event := filter isMutation t.

Definition isHttp (e : Eff.Event) : bool :=
  match e with EHttp _ => true | _ => false end.

(** The outbound requests of a trace. *)
Definition requests (t : list Eff.Event) : list Eff.Event := filter isHttp t.

Definition isUpdateCall (e : Eff.Event) : bool :=
  match e with ECall (UpdateRecord _) => true | _ => false end.

Definition notUpdateCall (e : Eff.Event) : bool := negb (isUpdateCall e).

Definition withClock {B} (t : Z) (w : World B) : World B :=
  mkWorld (backend w) (recordCache w) t (trace w).

Definition withTrace {B} (t : list Eff.Event) (w : World B) : World B :=
  mkWorld (backend w) (recordCache w) (clock w) t.

(** What a call adds to the trace. *)
Definition added (before after : list Eff.Event) : list Eff.Event :=
  skipn (List.length before) after.

(** The world with one more event in its trace. *)
Definition logged {B} (e : Eff.Event) (w : World B) : World B :=
  withTrace (trace w ++ [e]) w.

(** The line the [catch] block logs. *)
Definition failureLine (spec : Obj) (message : string) : Eff.Event :=
  ELog LError ("Failed to process record " ++ toString (get "name" spec) ++
               ": " ++ message)%string.

(** [m] extends the trace, and only by events that satisfy [P]. *)
Definition Only {B} (P : Eff.Event -> bool) {A} (m : M B A) : Prop :=
  forall w, exists t, trace (snd (m w)) = trace w ++ t /\ forallb P t = true.

(** *** Requests of the provider *)

(** The request [refreshRecordCache] sends. *)
Definition listRequest (config : Config) : Request :=
  mkRequest GET "/api/zones/records/get"
    (urlParams [ ("token"%string, technitiumToken config);
                 ("domain"%string, technitiumZone config);
                 ("zone"%string, technitiumZone config);
                 ("listAll"%string, JStr "true") ]).

(** The request [createRecord] sends for a spec. *)
Definition addRequest (config : Config) (spec : Obj) : Request :=
  mkRequest POST "/api/zones/records/add"
    (urlParams
       (set "zone" (technitiumZone config)
          (set "token" (technitiumToken config)
             (convertToTechnitiumFormat spec JUndef)))).

(** The request [deleteRecord] sends for a cached record. *)
Definition deleteRequest (config : Config) (record : Obj) : Request :=
  mkRequest POST "/api/zones/records/delete"
    (urlParams
       (set "domain" (get "name" record)
          (set "zone" (technitiumZone config)
             (set "token" (technitiumToken config)
                (convertToTechnitiumFormat record JUndef))))).

(** *** Validation and comparison *)

(** The checks of [validateRecord] that throw. *)
Definition accepted (spec : Obj) : bool :=
  truthy (get "type" spec) && truthy (get "name" spec)
  && truthy (get "content" spec)
  && negb (truthy (get "ttl" spec) && ltZero (get "ttl" spec)).

(** The warning of [validateRecord], if it is written. *)
Definition apexLines (spec : Obj) : list Eff.Event :=
  if strictEq (get "type" spec) (JStr "CNAME")
     && strictEq (get "name" spec) (get "zone" spec)
  then [ELog LWarn apexWarning] else [].

Definition contentDiff (existing newRecord : Obj) : bool :=
  strictNe (get "content" existing) (get "content" newRecord).

Definition ttlDiff (existing newRecord : Obj) : JsVal :=
  and_ (get "ttl" newRecord)
       (JBool (strictNe (get "ttl" existing) (get "ttl" newRecord))).

(** The value of [recordNeedsUpdate(existing, newRecord)]. *)
Definition needsUpdate (existing newRecord : Obj) : JsVal :=
  or_ (JBool (contentDiff existing newRecord)) (ttlDiff existing newRecord).

(** The debug lines [recordNeedsUpdate] writes. *)
Definition diffLines (existing newRecord : Obj) : list Eff.Event :=
  (if contentDiff existing newRecord then
     [ELog LDebug ("Record " ++ toString (get "name" existing) ++ " content: " ++
                   toString (get "content" existing) ++ " -> " ++
                   toString (get "content" newRecord))%string]
   else []) ++
  (if truthy (ttlDiff existing newRecord) then
     [ELog LDebug ("Record " ++ toString (get "name" existing) ++ " TTL: " ++
                   toString (get "ttl" existing) ++ " -> " ++
                   toString (get "ttl" newRecord))%string]
   else []).

(** The cache holds a match for the spec, and the two do not differ. *)
Definition settledIn (c : Cache) (spec : Obj) : Prop :=
  exists existing,
    findExisting spec c = Some existing
    /\ truthy (needsUpdate existing spec) = false.

(** *** The outcome of a batch *)

Section Partial.
Variable B : Type.
Variable serve : Request -> B -> Reply * B.
Variable config : Config.

(** Partial success: the specs are taken in order, each in the world the
    previous ones left; a spec whose turn returns a record is in the
    results, one that is left alone or whose turn throws is not, and a throw
    is logged and the run goes on. *)
Inductive PartialSuccess : list Obj -> World B -> list Obj -> World B -> Prop :=
| ps_nil w : PartialSuccess [] w [] w
| ps_done spec rest w w1 rs w2 :
    ensureRecord serve config spec w = (Ok (Some spec), w1) ->
    PartialSuccess rest w1 rs w2 ->
    PartialSuccess (spec :: rest) w (spec :: rs) w2
| ps_unchanged spec rest w w1 rs w2 :
    ensureRecord serve config spec w = (Ok None, w1) ->
    PartialSuccess rest w1 rs w2 ->
    PartialSuccess (spec :: rest) w rs w2
| ps_failed spec rest w e w1 rs w2 :
    ensureRecord serve config spec w = (Thrown e, w1) ->
    PartialSuccess rest (logged (failureLine spec e) w1) rs w2 ->
    PartialSuccess (spec :: rest) w rs w2.

End Partial.

(** The spec with its [manage] property set to [flag]. *)
Definition managed (flag : JsVal) (spec : Obj) : Obj := set "manage" flag spec.

(** The result of a call with [f] applied to what it returns. *)
Definition managedResult {B A} (f : A -> A) (x : Outcome A * World B)
    : Outcome A * World B :=
  match x with
  | (Ok a, w) => (Ok (f a), w)
  | (Thrown e, w) => (Thrown e, w)
  end.

(** *** Records on the zone server *)

(** The record types whose content [convertToTechnitiumFormat] sends under
    a key that [convertToStandardFormat] reads back. *)
Definition roundTrips (type : string) : bool :=
  ((type =? "A") || (type =? "AAAA") || (type =? "CNAME") || (type =? "ANAME")
   || (type =? "TXT"))%string.

(** The [rData] key under which the content of such a type travels. *)
Definition dataKey (type : string) : string :=
  if ((type =? "A") || (type =? "AAAA"))%string then "ipAddress"
  else if ((type =? "CNAME") || (type =? "ANAME"))%string then "cname"
  else "text".

(** The zone record that holds the given fields. *)
Definition zoneRecord (name type content : string) (ttl : Z) : Obj :=
  [ ("name"%string, JStr name); ("type"%string, JStr type);
    ("ttl"%string, JNum ttl);
    ("rData"%string, JObj [(dataKey type, JStr content)]) ].

(** Specs that pass [validateRecord] and that the converter carries to the
    zone and back: string name, type and content, none of them empty, a
    type among A, AAAA, CNAME, ANAME, TXT, and a TTL that is unset or a
    number from 0 to Number.MAX_SAFE_INTEGER. *)
Definition convergible (spec : Obj) : bool :=
  match get "name" spec, get "type" spec, get "content" spec with
  | JStr n, JStr t, JStr c =>
      negb (n =? "")%string && roundTrips t && negb (c =? "")%string
      && match get "ttl" spec with
         | JUndef => true
         | JNum k => (0 <=? k) && (k <=? maxSafeInteger)
         | _ => false
         end
  | _, _, _ => false
  end.

(** [r] has the name and type of [spec]: the test of the lookup in
    [batchEnsureRecords]. *)
Definition sameKey (r spec : Obj) : bool :=
  strictEq (get "name" r) (get "name" spec)
  && strictEq (get "type" r) (get "type" spec).

(** No two specs of the list have the same name and type. *)
Fixpoint distinctKeys (specs : list Obj) : bool :=
  match specs with
  | [] => true
  | s :: rest => forallb (fun x => negb (sameKey s x)) rest && distinctKeys rest
  end.

(** The cache holds what the zone holds. *)
Definition synced (w : World ZoneServer.Zone) : Prop :=
  cached (recordCache w) = map convertToStandardFormat (backend w).

(** The zone has no record of the spec's name and type. *)
Definition absentFrom (zone : ZoneServer.Zone) (spec : Obj) : Prop :=
  find (fun r => sameKey r spec) (map convertToStandardFormat zone) = None.

(** The first record of the spec's name and type in the zone does not
    differ from the spec. *)
Definition settledOn (zone : ZoneServer.Zone) (spec : Obj) : Prop :=
  exists existing,
    find (fun r => sameKey r spec) (map convertToStandardFormat zone) = Some existing
    /\ truthy (needsUpdate existing spec) = false.

(* ================================================================== *)
(** ** Concrete inputs *)
(* ================================================================== *)

Module Scenario.

Definition config : Config :=
  mkConfig (JStr "secret") (JStr "example.com") 3600000.

(** A provider that has just been constructed, before an empty zone. *)
Definition fresh : World ZoneServer.Zone :=
  mkWorld [] (mkCache [] 0) 1000 [].

Definition app : Obj :=
  [ ("name"%string, JStr "app.example.com"); ("type"%string, JStr "A");
    ("content"%string, JStr "1.2.3.4"); ("ttl"%string, JNum 300) ].

(** The same name and type as [app], another address. *)
Definition appMoved : Obj :=
  [ ("name"%string, JStr "app.example.com"); ("type"%string, JStr "A");
    ("content"%string, JStr "5.6.7.8"); ("ttl"%string, JNum 300) ].

Definition note : Obj :=
  [ ("name"%string, JStr "example.com"); ("type"%string, JStr "TXT");
    ("content"%string, JStr "v=spf1 -all") ].

(** A second TXT record of the same name as [note]. *)
Definition noteMore : Obj :=
  [ ("name"%string, JStr "example.com"); ("type"%string, JStr "TXT");
    ("content"%string, JStr "site-verification=4f2a") ].

Definition mail : Obj :=
  [ ("name"%string, JStr "example.com"); ("type"%string, JStr "MX");
    ("content"%string, JStr "mail.example.com"); ("ttl"%string, JNum 300) ].

(** A spec without content. *)
Definition broken : Obj :=
  [ ("name"%string, JStr "db.example.com"); ("type"%string, JStr "A") ].

(** A CNAME at the zone apex. *)
Definition apex : Obj :=
  [ ("name"%string, JStr "example.com"); ("type"%string, JStr "CNAME");
    ("content"%string, JStr "target.example.net");
    ("zone"%string, JStr "example.com") ].

(** An A record with an address that is no IPv4 address. *)
Definition badAddress : Obj :=
  [ ("name"%string, JStr "app.example.com"); ("type"%string, JStr "A");
    ("content"%string, JStr "999.1.1.1") ].

(** A spec that is not to be managed. *)
Definition unmanaged : Obj :=
  [ ("name"%string, JStr "app.example.com"); ("type"%string, JStr "A");
    ("content"%string, JStr "1.2.3.4"); ("ttl"%string, JNum 300);
    ("manage"%string, JBool false) ].

(** The zone record of [app], the cache entry read from it, and a provider
    whose cache holds it. *)
Definition appStored : Obj :=
  [ ("name"%string, JStr "app.example.com"); ("type"%string, JStr "A");
    ("ttl"%string, JNum 300);
    ("rData"%string, JObj [("ipAddress"%string, JStr "1.2.3.4")]) ].

Definition appCached : Obj := convertToStandardFormat appStored.

Definition warm : World ZoneServer.Zone :=
  mkWorld [appStored] (mkCache [appCached] 1000) 2000 [].

(** The resolver with an address learnt an hour and more ago, and no
    address given in the environment. *)
Definition stale : Resolver.State :=
  Resolver.mkState false (Resolver.mkIpCache (JStr "203.0.113.7") JNull 0)
                   JUndef JUndef 3600000 [] [].

Definition timeout : Resolver.NetResult :=
  Resolver.Rejected "timeout of 5000ms exceeded".

(** A timer tick starts a refresh; two more callers arrive while it is in
    flight; the primary lookup fails, the fallback answers, IPv6 fails. *)
Definition crowd : list Resolver.Tick :=
  [ Resolver.Invoke Resolver.ViaUpdatePublicIPs 4000010;
    Resolver.Resume 1 4000100 timeout;
    Resolver.Resume 0 4000200 timeout;
    Resolver.Invoke Resolver.ViaGetPublicIP 4000250;
    Resolver.Resume 0 4000300 (Resolver.Resolved (JStr "198.51.100.4"));
    Resolver.Resume 2 4000350 timeout;
    Resolver.Resume 0 4000400 timeout ].

(** A refresh is in flight when a second caller arrives; the refresh ends
    with 198.51.100.4; before the poll of the second caller ticks, a third
    call starts a refresh of its own, which ends with 192.0.2.99. *)
Definition overtaken : list Resolver.Tick :=
  [ Resolver.Invoke Resolver.ViaUpdatePublicIPs 4000010;
    Resolver.Resume 0 4000100 (Resolver.Resolved (JStr "198.51.100.4"));
    Resolver.Resume 0 4000200 timeout;
    Resolver.Invoke Resolver.ViaUpdatePublicIPs 4000210;
    Resolver.Resume 1 4000250 timeout;
    Resolver.Resume 2 4000300 (Resolver.Resolved (JStr "192.0.2.99"));
    Resolver.Resume 2 4000400 timeout;
    Resolver.Resume 1 4000450 timeout ].

End Scenario.

(* ================================================================== *)
(** ** The rest of the provider *)
(* ================================================================== *)

(* ================================================================== *)
(** ** provider.js: initialisation and listing *)
(* ================================================================== *)

Module ProviderRest.

Section Backend.
Variable B : Type.
Variable serve : Request -> B -> Reply * B.
Variable config : Config.

(** [init()]. *)
Definition init : M B bool :=
  tryCatch
    (refreshRecordCache serve config ;;;
     log LInfo ("Technitium provider initialized for zone: " ++
                toString (technitiumZone config))%string ;;;
     ret true)
    (fun message =>
       throw ("Technitium initialization failed: " ++ message)%string).

(** The callback of [records.filter] in [listRecords]. *)
Definition keeps (params r : Obj) : bool :=
  if truthy (get "type" params) && strictNe (get "type" r) (get "type" params)
  then false
  else if truthy (get "name" params) && strictNe (get "name" r) (get "name" params)
  then false
  else true.

(** [listRecords(params)]; the default [{}] of [params] is the empty
    object. *)
Definition listRecords (params : Obj) : M B (list Obj) :=
  records <- getRecordsFromCache serve config ;;
  ret (filter (keeps params) records).

End Backend.

End ProviderRest.
Import ProviderRest.

(* ================================================================== *)
(** ** More of what the properties speak of *)
(* ================================================================== *)

(** [xs] is [ys] with some elements left out, the order kept. *)
Inductive Subsequence {A : Type} : list A -> list A -> Prop :=
| sub_nil : Subsequence [] []
| sub_keep x xs ys : Subsequence xs ys -> Subsequence (x :: xs) (x :: ys)
| sub_drop y xs ys : Subsequence xs ys -> Subsequence xs (y :: ys).

(** The cached record [deleteRecord(id)] picks. *)
Definition cachedById {B} (id : JsVal) (w : World B) : option Obj :=
  find (fun r => strictEq (get "id" r) id) (cached (recordCache w)).

(** The cache after a successful [deleteRecord(id)]. *)
Definition without (id : JsVal) (c : Cache) : Cache :=
  mkCache (filter (fun r => strictNe (get "id" r) id) (cached c)) (lastUpdated c).

(** The record has neither an address nor a CNAME target in its [rData]. *)
Definition plainData (techRecord : Obj) : bool :=
  negb (truthy (optGet (get "rData" techRecord) "ipAddress"))
  && negb (truthy (optGet (get "rData" techRecord) "cname")).

(** The record types for which [convertToTechnitiumFormat] adds a key. *)
Definition handled (type : JsVal) : bool :=
  strictEq type (JStr "A") || strictEq type (JStr "AAAA")
  || strictEq type (JStr "CNAME") || strictEq type (JStr "ANAME")
  || strictEq type (JStr "TXT") || strictEq type (JStr "MX").

Module Scenario2.

(** A backend that answers every request with status "error". *)
Definition refusing (r : Request) (b : unit) : Reply * unit :=
  (Data (mkEnvelope (JStr "error") None), b).

Definition cold : World unit := mkWorld tt (mkCache [] 0) 1000 [].

(** A provider in front of the refusing backend, with [app] in its cache. *)
Definition stuck : World unit :=
  mkWorld tt (mkCache [Scenario.appCached] 1000) 2000 [].

Definition nameServer : Obj :=
  [ ("name"%string, JStr "example.com"); ("type"%string, JStr "NS");
    ("content"%string, JStr "ns1.example.net"); ("ttl"%string, JNum 86400) ].

Definition noteStored : Obj :=
  [ ("name"%string, JStr "example.com"); ("type"%string, JStr "TXT");
    ("ttl"%string, JNum 3600);
    ("rData"%string, JObj [("text"%string, JStr "v=spf1 -all")]) ].

Definition noteMoreStored : Obj :=
  [ ("name"%string, JStr "example.com"); ("type"%string, JStr "TXT");
    ("ttl"%string, JNum 3600);
    ("rData"%string, JObj [("text"%string, JStr "site-verification=4f2a")]) ].

(** A provider whose zone and cache hold the two TXT records. *)
Definition notes : World ZoneServer.Zone :=
  mkWorld [noteStored; noteMoreStored]
          (mkCache [convertToStandardFormat noteStored;
                    convertToStandardFormat noteMoreStored] 1000)
          2000 [].

End Scenario2.

(** The zone record the server stores for a convergible spec. *)
Definition storedOf (spec : Obj) : Obj :=
  zoneRecord (toString (get "name" spec)) (toString (get "type" spec))
             (toString (get "content" spec))
             (match or_ (get "ttl" spec) (JNum 3600) with JNum k => k | _ => 0 end).

(** [r], a record of the zone, has the name and type of [spec]. *)
Definition keyed (spec r : Obj) : bool := sameKey (convertToStandardFormat r) spec.

(** The id the cache gives a record of the zone. *)
Definition idOf (r : Obj) : JsVal := get "id" (convertToStandardFormat r).

(** The zone holds one record of the spec's name and type, and the provider
    can replace it: the record is a zone record of a carried type with
    content and a safe-integer TTL, so the delete request names it, and no
    record before it in the zone has its id, so the lookup by id finds it. *)
Definition replaceableOn (zone : ZoneServer.Zone) (spec : Obj) : Prop :=
  exists n t c k,
    filter (keyed spec) zone = [zoneRecord n t c k]
    /\ roundTrips t = true /\ c <> ""%string /\ Z.abs k <= maxSafeInteger
    /\ find (fun r => strictEq (idOf r) (idOf (zoneRecord n t c k))) zone
       = Some (zoneRecord n t c k).

(** The zone once the record of the spec has been created, in place of the
    one of its name and type if there was one. *)
Definition replaced (spec : Obj) (zone : ZoneServer.Zone) : ZoneServer.Zone :=
  filter (fun r => negb (keyed spec r)) zone ++ [storedOf spec].

(** What one accepted create adds to the mutations of a trace: the call and
    its add request. *)
Definition createMutations (config : Config) (spec : Obj) : list Eff.Event :=
  [ECall CreateRecord; EHttp (addRequest config spec)].

(* ================================================================== *)
(** ** What the patterns of the older class accept *)
(* ================================================================== *)

(** The strings a regular expression denotes. *)
Inductive Matches : Legacy.Regex -> string -> Prop :=
| MEps : Matches Legacy.Eps ""
| MClass p c : p c = true -> Matches (Legacy.Class p) (String c "")
| MSeq r1 r2 s1 s2 :
    Matches r1 s1 -> Matches r2 s2 -> Matches (Legacy.Seq r1 r2) (s1 ++ s2)
| MAltL r1 r2 s : Matches r1 s -> Matches (Legacy.Alt r1 r2) s
| MAltR r1 r2 s : Matches r2 s -> Matches (Legacy.Alt r1 r2) s
| MStarNil r : Matches (Legacy.Star r) ""
| MStarCons r s1 s2 :
    Matches r s1 -> Matches (Legacy.Star r) s2 -> Matches (Legacy.Star r) (s1 ++ s2).

(** Every character of the string satisfies [p]. *)
Fixpoint allOf (p : ascii -> bool) (s : string) : bool :=
  match s with
  | EmptyString => true
  | String c s' => p c && allOf p s'
  end.

Definition digitValue (c : ascii) : Z := Z.of_N (N_of_ascii c) - 48.

(** The number a string of decimal digits writes. *)
Fixpoint numeral (s : string) : Z :=
  match s with
  | EmptyString => 0
  | String c s' => digitValue c * 10 ^ Z.of_nat (String.length s') + numeral s'
  end.

(** One to three decimal digits that write a number up to 255. *)
Definition octet (p : string) : bool :=
  allOf Legacy.isDigit p
  && (1 <=? String.length p)%nat && (String.length p <=? 3)%nat
  && (numeral p <=? 255).

(** One to four hexadecimal digits. *)
Definition hexGroup (g : string) : bool :=
  allOf Legacy.isHex g && (1 <=? String.length g)%nat && (String.length g <=? 4)%nat.

(* ================================================================== *)
(** ** The older class: requests *)
(* ================================================================== *)

(** The methods of the class in the second half of validator.js that send
    requests, and [getRecordName]. *)
Module LegacyClass.

(** What a [catch] block reads of the error it is given: [error.message]
    and [error.response?.data].  An [Error] made with [new Error], and a
    TypeError, have no [response]. *)
Record Failure : Type := mkFailure { message : string; responseData : JsVal }.

(** How the promise of [client.post] settles: fulfilled, with
    [response.data], a JSON object; or rejected by axios. *)
Inductive Settled : Type :=
| Fulfilled (data : Obj)
| RejectedWith (error : Failure).

Inductive Event : Type :=
| Post (path : string) (params : list (string * string))
| Logged (level : Level) (line : string).

Inductive Result (A : Type) : Type :=
| Returned (a : A)
| Threw (error : Failure).
Arguments Threw {A} error.

(** [s.includes(search)]. *)
Fixpoint includes (search s : string) : bool :=
  String.prefix search s
  || match s with
     | EmptyString => false
     | String _ s' => includes search s'
     end.

(** [s.endsWith(suffix)]. *)
Fixpoint endsWith (suffix s : string) : bool :=
  (s =? suffix)%string
  || match s with
     | EmptyString => false
     | String _ s' => endsWith suffix s'
     end.

(** A parameter with a default value: the default is taken when the
    argument is [undefined]. *)
Definition orDefault (v d : JsVal) : JsVal :=
  match v with
  | JUndef => d
  | _ => v
  end.

Section Client.
Variable B : Type.

(** The server behind [this.client.post]. *)
Variable post : string -> list (string * string) -> B -> Settled * B.

(** [this.token] and [this.zone]: environment variables, so strings. *)
Variables token zone : string.

(** A method runs on the server's state and the log of what it did so far. *)
Definition Act (A : Type) : Type := B * list Event -> Result A * (B * list Event).

Definition ret {A} (a : A) : Act A := fun st => (Returned a, st).

Definition throw {A} (error : Failure) : Act A := fun st => (Threw error, st).

Definition bind {A C} (m : Act A) (k : A -> Act C) : Act C :=
  fun st =>
    match m st with
    | (Returned a, st') => k a st'
    | (Threw error, st') => (Threw error, st')
    end.

(** [try { m } catch (error) { h }]. *)
Definition catch {A} (m : Act A) (h : Failure -> Act A) : Act A :=
  fun st =>
    match m st with
    | (Returned a, st') => (Returned a, st')
    | (Threw error, st') => h error st'
    end.

Definition log (level : Level) (line : string) : Act unit :=
  fun st => (Returned tt, (fst st, snd st ++ [Logged level line])).

(** [await this.client.post(path, params.toString())], giving
    [response.data]. *)
Definition send (path : string) (params : list (string * string)) : Act Obj :=
  fun st =>
    let (settled, b) := post path params (fst st) in
    let st' := (b, snd st ++ [Post path params]) in
    match settled with
    | Fulfilled data => (Returned data, st')
    | RejectedWith error => (Threw error, st')
    end.

Definition typeError (line : string) : Failure := mkFailure line JUndef.

(** The parameters the [switch] of [createRecord] appends. *)
Definition createFields (T : string) (content : JsVal) (additionalOptions : Obj)
    : list (string * string) :=
  let c := toString content in
  let option k default := toString (or_ (get k additionalOptions) (JStr default)) in
  if ((T =? "A") || (T =? "AAAA"))%string then
    ("ipAddress"%string, c)
      :: (if truthy (get "ptr" additionalOptions) then [("ptr"%string, "true"%string)]
          else [])
  else if (T =? "CNAME")%string then [("cname"%string, c)]
  else if (T =? "MX")%string then
    [("mailExchange"%string, c); ("preference"%string, option "priority"%string "10"%string)]
  else if (T =? "TXT")%string then [("text"%string, c)]
  else if (T =? "SRV")%string then
    [("target"%string, c); ("priority"%string, option "priority"%string "10"%string);
     ("weight"%string, option "weight"%string "10"%string);
     ("port"%string, option "port"%string "80"%string)]
  else if (T =? "CAA")%string then
    [("value"%string, c); ("flags"%string, option "flags"%string "0"%string);
     ("tag"%string, option "tag"%string "issue"%string)]
  else if (T =? "NS")%string then
    ("nameServer"%string, c)
      :: (if truthy (get "glue" additionalOptions)
          then [("glue"%string, toString (get "glue" additionalOptions))]
          else [])
  else if (T =? "PTR")%string then [("ptrName"%string, c)]
  else [("rdata"%string, c)].

(** The parameters of the add request. *)
Definition createParams (hostname : JsVal) (t : string) (content ttl : JsVal)
    (additionalOptions : Obj) : list (string * string) :=
  urlParams [ ("token"%string, JStr token); ("domain"%string, hostname);
              ("zone"%string, JStr zone); ("type"%string, JStr t);
              ("ttl"%string, JStr (toString ttl));
              ("overwrite"%string, JStr "false") ]
  ++ createFields (Legacy.toUpperCase t) content additionalOptions.

(** The end of both [catch] blocks: log the error and throw it again. *)
Definition rethrow {A} (doing : string) (error : Failure) : Act A :=
  bind (log LError ("Error " ++ doing ++ " Technitium record: " ++ message error)%string)
       (fun _ => throw error).

(** The test of both [catch] blocks:
    [error.response?.data?.status === 'error' &&
     error.response?.data?.errorMessage?.includes(phrase)]; a TypeError when
    [errorMessage] is there but has no [includes]. *)
Definition saysSo (phrase : string) (error : Failure) : Result bool :=
  if strictEq (optGet (responseData error) "status") (JStr "error") then
    match optGet (responseData error) "errorMessage" with
    | JStr m => Returned (includes phrase m)
    | JUndef | JNull => Returned false
    | _ => Threw (typeError
                    "error.response?.data?.errorMessage?.includes is not a function")
    end
  else Returned false.

(** [createRecord(hostname, type, content, ttl = 300, additionalOptions = {})];
    an argument left out is [undefined]. *)
Definition createRecord (hostname type content ttl : JsVal) (additionalOptions : Obj)
    : Act bool :=
  catch
    (let ttl := orDefault ttl (JNum 300) in
     match ttl with
     | JNull => throw (typeError "Cannot read properties of null (reading 'toString')")
     | _ =>
         match type with
         | JStr t =>
             bind (send "/api/zones/records/add"
                        (createParams hostname t content ttl additionalOptions))
               (fun data =>
                  if strictNe (get "status" data) (JStr "ok") then
                    throw (mkFailure ("Technitium API error: " ++
                                      toString (get "status" data))%string JUndef)
                  else
                    bind (log LInfo ("Created " ++ t ++ " record: " ++
                                     toString hostname ++ " -> " ++
                                     toString content)%string)
                         (fun _ => ret true))
         | _ => throw (typeError "type.toUpperCase is not a function")
         end
     end)
    (fun error =>
       match saysSo "already exists" error with
       | Returned true =>
           bind (log LDebug ("Record already exists: " ++ toString hostname ++
                             " (" ++ toString type ++ ")")%string)
                (fun _ => ret false)
       | Returned false => rethrow "creating" error
       | Threw e => throw e
       end).

(** The parameter the [switch] of [deleteRecord] appends. *)
Definition deleteFields (T : string) (content : JsVal) : list (string * string) :=
  let c := toString content in
  if ((T =? "A") || (T =? "AAAA"))%string then [("ipAddress"%string, c)]
  else if (T =? "CNAME")%string then [("cname"%string, c)]
  else if (T =? "MX")%string then [("mailExchange"%string, c)]
  else if (T =? "TXT")%string then [("text"%string, c)]
  else if (T =? "NS")%string then [("nameServer"%string, c)]
  else if (T =? "PTR")%string then [("ptrName"%string, c)]
  else [("rdata"%string, c)].

Definition deleteParams (hostname : JsVal) (t : string) (content : JsVal)
    : list (string * string) :=
  urlParams [ ("token"%string, JStr token); ("domain"%string, hostname);
              ("zone"%string, JStr zone); ("type"%string, JStr t) ]
  ++ deleteFields (Legacy.toUpperCase t) content.

(** [deleteRecord(hostname, type, content)]. *)
Definition deleteRecord (hostname type content : JsVal) : Act bool :=
  catch
    (match type with
     | JStr t =>
         bind (send "/api/zones/records/delete" (deleteParams hostname t content))
           (fun data =>
              if strictNe (get "status" data) (JStr "ok") then
                throw (mkFailure ("Technitium API error: " ++
                                  toString (get "status" data))%string JUndef)
              else
                bind (log LInfo ("Deleted " ++ t ++ " record: " ++
                                 toString hostname ++ " -> " ++
                                 toString content)%string)
                     (fun _ => ret true))
     | _ => throw (typeError "type.toUpperCase is not a function")
     end)
    (fun error =>
       match saysSo "not found" error with
       | Returned true =>
           bind (log LDebug ("Record not found for deletion: " ++ toString hostname ++
                             " (" ++ toString type ++ ")")%string)
                (fun _ => ret false)
       | Returned false => rethrow "deleting" error
       | Threw e => throw e
       end).

(** [updateRecord(hostname, type, oldContent, newContent, ttl = 300,
    additionalOptions = {})]. *)
Definition updateRecord (hostname type oldContent newContent ttl : JsVal)
    (additionalOptions : Obj) : Act bool :=
  catch
    (let ttl := orDefault ttl (JNum 300) in
     bind (deleteRecord hostname type oldContent) (fun _ =>
     bind (createRecord hostname type newContent ttl additionalOptions) (fun _ =>
     bind (log LInfo ("Updated " ++ toString type ++ " record: " ++ toString hostname ++
                      " (" ++ toString oldContent ++ " -> " ++
                      toString newContent ++ ")")%string)
          (fun _ => ret true))))
    (fun error => rethrow "updating" error).

(** [getRecordName(name)], for a string. *)
Definition getRecordName (name : string) : string :=
  if ((name =? zone) || (name =? "@"))%string then zone
  else if endsWith ("." ++ zone) name then name
  else if negb (includes "." name) then (name ++ "." ++ zone)%string
  else name.

End Client.

End LegacyClass.

(** The requests in what a method of the older class did. *)
Definition posts (t : list LegacyClass.Event) : list LegacyClass.Event :=
  filter (fun e => match e with LegacyClass.Post _ _ => true | _ => false end) t.

Module Scenario3.

Definition refusal (line : string) : LegacyClass.Failure :=
  LegacyClass.mkFailure "Request failed with status code 400"
    (JObj [ ("status"%string, JStr "error"); ("errorMessage"%string, JStr line) ]).

(** A server that answers with HTTP 400: a delete finds no such record, an
    add finds the record in place. *)
Definition unchanged (path : string) (params : list (string * string)) (b : unit)
    : LegacyClass.Settled * unit :=
  if (path =? "/api/zones/records/delete")%string
  then (LegacyClass.RejectedWith (refusal "Record not found in zone."), b)
  else (LegacyClass.RejectedWith (refusal "Record already exists in zone."), b).

(** A server that delivers every answer with HTTP 200 and reports the
    failure in the body. *)
Definition polite (path : string) (params : list (string * string)) (b : unit)
    : LegacyClass.Settled * unit :=
  (LegacyClass.Fulfilled
     [ ("status"%string, JStr "error");
       ("errorMessage"%string, JStr "Record not found in zone.") ], b).

Definition idle : unit * list LegacyClass.Event := (tt, []).

End Scenario3.

(* ================================================================== *)
(** ** ConfigManager: the rest of the public IP cache *)
(* ================================================================== *)

Module ResolverRest.
Import Resolver.

(** [this.ipCache] and the settings as the constructor leaves them, before
    it calls [updatePublicIPs]: the two environment variables are strings or
    [undefined]. *)
Definition constructed (publicIp publicIpv6 : JsVal) (interval : Z) : State :=
  mkState false (mkIpCache (or_ publicIp JNull) (or_ publicIpv6 JNull) 0)
          publicIp publicIpv6 interval [] [].

(** [getPublicIPSync()]: the call of [updatePublicIPs] it makes runs to its
    first [await], and its promise is dropped. *)
Definition getPublicIPSync (now : Z) (s : State) : State * JsVal :=
  let s' := if negb (truthy (ipv4 (ipCache s)))
            then step (Invoke ViaUpdatePublicIPs now) s
            else s in
  (s', or_ (ipv4 (ipCache s')) JNull).

(** [getPublicIPv6Sync()]. *)
Definition getPublicIPv6Sync (now : Z) (s : State) : State * JsVal :=
  let s' := if negb (truthy (ipv6 (ipCache s)))
            then step (Invoke ViaUpdatePublicIPs now) s
            else s in
  (s', or_ (ipv6 (ipCache s')) JNull).

End ResolverRest.

(** The call stands at one of its requests: it is the one that set the
    flag and has not cleared it yet. *)
Definition holder (p : Resolver.Pc) : bool :=
  match p with
  | Resolver.AwaitPrimary _ | Resolver.AwaitFallback _ | Resolver.AwaitIpv6 _ => true
  | Resolver.Waiting | Resolver.Returned _ => false
  end.

(** How many calls stand at a request. *)
Definition holders (ts : list Resolver.Task) : nat :=
  List.length (filter (fun t => holder (Resolver.pc t)) ts).

(** With the IPv4 address given in the environment as [ip]: the settings
    are as given, the cache holds [ip], and every request sent so far went to
    the IPv6 service, none at all when the IPv6 address is given too. *)
Definition EnvOk (ip ip6 : JsVal) (s : Resolver.State) : Prop :=
  Resolver.PUBLIC_IP s = ip /\ Resolver.PUBLIC_IPV6 s = ip6
  /\ Resolver.ipv4 (Resolver.ipCache s) = ip
  /\ Forall (fun cu => snd cu = "https://api6.ipify.org"%string /\ truthy ip6 = false)
            (Resolver.outbound (Resolver.events s)).

(** With the IPv4 address given in the environment, no call stands at an
    IPv4 lookup, and one that stands at the IPv6 lookup carries [ip]. *)
Definition envPc (ip ip6 : JsVal) (p : Resolver.Pc) : Prop :=
  match p with
  | Resolver.AwaitPrimary _ | Resolver.AwaitFallback _ => False
  | Resolver.AwaitIpv6 l => Resolver.ipv4' l = ip /\ truthy ip6 = false
  | Resolver.Waiting | Resolver.Returned _ => True
  end.

(* ================================================================== *)
(** ** ConfigManager: the provider settings *)
(* ================================================================== *)

Module ConfigManager.

(** The settings [validateProviderConfig] and [getProviderDomain] read.
    [dnsProvider] is a string; the others are what EnvironmentLoader gave,
    a string or [undefined]. *)
Record Settings : Type := mkSettings
  { dnsProvider : string;
    cloudflareToken : JsVal; cloudflareZone : JsVal;
    technitiumUrl : JsVal; technitiumToken : JsVal; technitiumZone : JsVal;
    route53AccessKey : JsVal; route53SecretKey : JsVal;
    route53Zone : JsVal; route53ZoneId : JsVal;
    digitalOceanToken : JsVal; digitalOceanDomain : JsVal }.

Definition downcase (c : ascii) : ascii :=
  if Legacy.between "A" "Z" c then ascii_of_N (N_of_ascii c + 32) else c.

(** [s.toLowerCase()], on ASCII letters. *)
Fixpoint toLowerCase (s : string) : string :=
  match s with
  | EmptyString => EmptyString
  | String c s' => String (downcase c) (toLowerCase s')
  end.

(** [if (!v) throw new Error(message)], then the rest. *)
Definition required (v : JsVal) (message : string) (rest : Outcome unit) : Outcome unit :=
  if negb (truthy v) then Thrown message else rest.

(** [validateProviderConfig()]. *)
Definition validateProviderConfig (c : Settings) : Outcome unit :=
  let provider := toLowerCase (dnsProvider c) in
  if (provider =? "cloudflare")%string then
    required (cloudflareToken c)
      "CLOUDFLARE_TOKEN environment variable is required for Cloudflare provider"
      (required (cloudflareZone c)
         "CLOUDFLARE_ZONE environment variable is required for Cloudflare provider"
         (Ok tt))
  else if (provider =? "technitium")%string then
    required (technitiumUrl c) "TECHNITIUM_URL is required for Technitium"
      (required (technitiumToken c) "TECHNITIUM_TOKEN is required for Technitium"
         (required (technitiumZone c) "TECHNITIUM_ZONE is required for Technitium"
            (Ok tt)))
  else if (provider =? "route53")%string then
    required (route53AccessKey c)
      "ROUTE53_ACCESS_KEY environment variable is required for Route53 provider"
      (required (route53SecretKey c)
         "ROUTE53_SECRET_KEY environment variable is required for Route53 provider"
         (if negb (truthy (route53Zone c)) && negb (truthy (route53ZoneId c)) then
            Thrown "Either ROUTE53_ZONE or ROUTE53_ZONE_ID environment variable is required for Route53 provider"
          else Ok tt))
  else if (provider =? "digitalocean")%string then
    required (digitalOceanToken c)
      "DO_TOKEN environment variable is required for DigitalOcean provider"
      (required (digitalOceanDomain c)
         "DO_DOMAIN environment variable is required for DigitalOcean provider"
         (Ok tt))
  else Thrown ("Unsupported DNS provider: " ++ dnsProvider c)%string.

(** [getProviderDomain()]. *)
Definition getProviderDomain (c : Settings) : JsVal :=
  let provider := toLowerCase (dnsProvider c) in
  if (provider =? "cloudflare")%string then cloudflareZone c
  else if (provider =? "route53")%string then route53Zone c
  else if (provider =? "digitalocean")%string then digitalOceanDomain c
  else if (provider =? "technitium")%string then technitiumZone c
  else JStr "".

End ConfigManager.

Module Scenario4.

(** Settings for Technitium, the provider's name written with capitals. *)
Definition technitium : ConfigManager.Settings :=
  ConfigManager.mkSettings "Technitium" JUndef JUndef
    (JStr "http://dns.example.com:5380") (JStr "secret") (JStr "example.com")
    JUndef JUndef JUndef JUndef JUndef JUndef.

(** A manager without a cached address and without one in the environment,
    on which no call was made. *)
Definition blank : Resolver.State := ResolverRest.constructed JUndef JUndef 3600000.

End Scenario4.

(* ================================================================== *)
(** ** What a refresh writes *)
(* ================================================================== *)

(** The settlements of the requests of the first call among the ticks, in
    order, each with the time it comes at. *)
Definition settlements (ticks : list Resolver.Tick) : list (Z * Resolver.NetResult) :=
  flat_map (fun t => match t with
                     | Resolver.Resume O now net => [(now, net)]
                     | _ => []
                     end) ticks.

(** The IPv4 address a refresh ends with, the time it has it at and the
    settlements left: the address of the environment if there is one, else
    what the primary lookup resolves to, else what the fallback resolves to,
    else the (missing) address of the environment. *)
Definition ipv4Stage (ip : JsVal) (now0 : Z) (setts : list (Z * Resolver.NetResult))
    : option (JsVal * Z * list (Z * Resolver.NetResult)) :=
  if truthy ip then Some (ip, now0, setts)
  else
    match setts with
    | [] => None
    | (t, Resolver.Resolved d) :: rest => Some (d, t, rest)
    | (_, Resolver.Rejected _) :: [] => None
    | (_, Resolver.Rejected _) :: (t, Resolver.Resolved d) :: rest => Some (d, t, rest)
    | (_, Resolver.Rejected _) :: (t, Resolver.Rejected _) :: rest => Some (ip, t, rest)
    end.

(** The cache a refresh writes once it has its IPv4 address [v4], at [t]:
    with the IPv6 address of the environment if there is one, else with what
    the IPv6 lookup resolves to, else with the (missing) address of the
    environment. *)
Definition ipv6Stage (ip6 v4 : JsVal) (t : Z) (setts : list (Z * Resolver.NetResult))
    : option Resolver.IpCache :=
  if truthy ip6 then Some (Resolver.mkIpCache v4 ip6 t)
  else
    match setts with
    | [] => None
    | (t', Resolver.Resolved d) :: _ => Some (Resolver.mkIpCache v4 d t')
    | (t', Resolver.Rejected _) :: _ => Some (Resolver.mkIpCache v4 ip6 t')
    end.

(** The cache a refresh begun at [now0] writes, given how its requests
    settle; [None] as long as one of them has not settled. *)
Definition refreshed (ip ip6 : JsVal) (now0 : Z) (setts : list (Z * Resolver.NetResult))
    : option Resolver.IpCache :=
  match ipv4Stage ip now0 setts with
  | Some (v4, t, rest) => ipv6Stage ip6 v4 t rest
  | None => None
  end.

(** The same for a refresh on its way, from where its call stands and with
    the settlements still to come; [c] is the cache as it is. *)
Definition toCome (p : Resolver.Pc) (c : Resolver.IpCache)
    (setts : list (Z * Resolver.NetResult)) : option Resolver.IpCache :=
  match p with
  | Resolver.AwaitPrimary l =>
      match setts with
      | [] => None
      | (t, Resolver.Resolved d) :: rest => ipv6Stage (Resolver.ipv6' l) d t rest
      | (_, Resolver.Rejected _) :: [] => None
      | (_, Resolver.Rejected _) :: (t, Resolver.Resolved d) :: rest =>
          ipv6Stage (Resolver.ipv6' l) d t rest
      | (_, Resolver.Rejected _) :: (t, Resolver.Rejected _) :: rest =>
          ipv6Stage (Resolver.ipv6' l) (Resolver.ipv4' l) t rest
      end
  | Resolver.AwaitFallback l =>
      match setts with
      | [] => None
      | (t, Resolver.Resolved d) :: rest => ipv6Stage (Resolver.ipv6' l) d t rest
      | (t, Resolver.Rejected _) :: rest =>
          ipv6Stage (Resolver.ipv6' l) (Resolver.ipv4' l) t rest
      end
  | Resolver.AwaitIpv6 l =>
      match setts with
      | [] => None
      | (t, Resolver.Resolved d) :: _ => Some (Resolver.mkIpCache (Resolver.ipv4' l) d t)
      | (t, Resolver.Rejected _) :: _ =>
          Some (Resolver.mkIpCache (Resolver.ipv4' l) (Resolver.ipv6' l) t)
      end
  | Resolver.Returned _ => Some c
  | Resolver.Waiting => None
  end.

(** What the refresh of the first call of a state is to write. *)
Definition firstToCome (s : Resolver.State) (setts : list (Z * Resolver.NetResult))
    : option Resolver.IpCache :=
  match Resolver.tasks s with
  | t0 :: _ => toCome (Resolver.pc t0) (Resolver.ipCache s) setts
  | [] => None
  end.

(* ================================================================== *)
(** * Properties *)
(* ================================================================== *)

(** ** JavaScript values *)

Lemma strictEq_true (a b : JsVal) : strictEq a b = true -> a = b.
Proof.
  destruct a, b; simpl; try discriminate; intros H; try reflexivity.
  - apply Bool.eqb_prop in H. now subst.
  - apply Z.eqb_eq in H. now subst.
  - apply String.eqb_eq in H. now subst.
Qed.

Lemma get_set_other (k k' : string) (v : JsVal) (o : Obj) :
  k <> k' -> get k (set k' v o) = get k o.
Proof.
  intros Hk. induction o as [|[k0 v0] o IH]; simpl.
  - destruct (String.eqb_spec k' k); congruence.
  - destruct (String.eqb_spec k0 k') as [E|E]; simpl.
    + subst k0. destruct (String.eqb_spec k' k); congruence.
    + destruct (String.eqb_spec k0 k); congruence.
Qed.

(** ** The trace of a run *)

Lemma added_app (t u : list Eff.Event) : added t (t ++ u) = u.
Proof.
  unfold added. induction t; simpl; auto.
Qed.

Lemma added_self (t : list Eff.Event) : added t t = [].
Proof.
  rewrite <- (app_nil_r t) at 2. apply added_app.
Qed.

(** ** deleteRecord *)

Section DeleteRecord.
Variable B : Type.
Variable serve : Request -> B -> Reply * B.
Variable config : Config.

Lemma deleteRecord_absent (id : JsVal) (w : World B) :
  find (fun r => strictEq (get "id" r) id) (cached (recordCache w)) = None ->
  deleteRecord serve config id w =
    (Ok false, withTrace (trace w ++ [ECall (DeleteRecord id)]) w).
Proof.
  intros H. unfold deleteRecord, bind, emit, getCache; simpl.
  rewrite H. reflexivity.
Qed.

Lemma deleteRecord_present (id : JsVal) (record : Obj) (w : World B) :
  find (fun r => strictEq (get "id" r) id) (cached (recordCache w)) = Some record ->
  deleteRecord serve config id w =
    let t := trace w ++ [ECall (DeleteRecord id); ELog LTrace (traceLine record);
                         EHttp (deleteRequest config record)] in
    match serve (deleteRequest config record) (backend w) with
    | (NetError e, b) => (Thrown e, mkWorld b (recordCache w) (clock w) t)
    | (Data d, b) =>
        if strictEq (status d) (JStr "ok") then
          (Ok true,
           mkWorld b
             (mkCache (filter (fun r => strictNe (get "id" r) id)
                              (cached (recordCache w)))
                      (lastUpdated (recordCache w)))
             (clock w) t)
        else (Ok false, mkWorld b (recordCache w) (clock w) t)
    end.
Proof.
  intros H. unfold deleteRecord, bind, emit, getCache, log, emit, request; simpl.
  rewrite H. simpl. fold (deleteRequest config record).
  destruct (serve (deleteRequest config record) (backend w)) as [[e|d] b]; simpl.
  - now rewrite <- !app_assoc.
  - destruct (strictEq (status d) (JStr "ok")); simpl; now rewrite <- !app_assoc.
Qed.

End DeleteRecord.


(** ** What a call may add to the trace *)

Section Only.
Variable B : Type.
Variable serve : Request -> B -> Reply * B.
Variable config : Config.

(** Events a call is allowed to add.  Log lines and list requests are
    always among them. *)
Variable P : Eff.Event -> bool.
Hypothesis P_log : forall l msg, P (ELog l msg) = true.
Hypothesis P_get : forall r, verb r = GET -> P (EHttp r) = true.

Lemma only_ret {A} (a : A) : @Only B P _ (ret a).
Proof. intros w. exists []. simpl. now rewrite app_nil_r. Qed.

Lemma only_throw {A} (e : string) : @Only B P _ (@throw B A e).
Proof. intros w. exists []. simpl. now rewrite app_nil_r. Qed.

Lemma only_getCache : @Only B P _ (@getCache B).
Proof. intros w. exists []. simpl. now rewrite app_nil_r. Qed.

Lemma only_dateNow : @Only B P _ (@dateNow B).
Proof. intros w. exists []. simpl. now rewrite app_nil_r. Qed.

Lemma only_setCache c : @Only B P _ (@setCache B c).
Proof. intros w. exists []. simpl. now rewrite app_nil_r. Qed.

Lemma only_emit e : P e = true -> @Only B P _ (@emit B e).
Proof. intros H w. exists [e]. simpl. now rewrite H. Qed.

Lemma only_log l msg : @Only B P _ (@log B l msg).
Proof. apply only_emit, P_log. Qed.

Lemma only_request r : P (EHttp r) = true -> @Only B P _ (request serve r).
Proof.
  intros H w. exists [EHttp r]. unfold request.
  destruct (serve r (backend w)) as [[e|d] b]; simpl; now rewrite H.
Qed.

Lemma only_bind {A C} (m : M B A) (k : A -> M B C) :
  @Only B P _ m -> (forall a, @Only B P _ (k a)) -> @Only B P _ (bind m k).
Proof.
  intros Hm Hk w. unfold bind.
  destruct (Hm w) as [t [Ht Pt]].
  destruct (m w) as [[a|e] w1]; simpl in *.
  - destruct (Hk a w1) as [u [Hu Pu]].
    exists (t ++ u). rewrite Hu, Ht, app_assoc. split; auto.
    rewrite forallb_app, Pt, Pu. reflexivity.
  - exists t. auto.
Qed.

Lemma only_tryCatch {A} (m : M B A) (h : string -> M B A) :
  @Only B P _ m -> (forall e, @Only B P _ (h e)) -> @Only B P _ (tryCatch m h).
Proof.
  intros Hm Hh w. unfold tryCatch.
  destruct (Hm w) as [t [Ht Pt]].
  destruct (m w) as [[a|e] w1]; simpl in *.
  - exists t. auto.
  - destruct (Hh e w1) as [u [Hu Pu]].
    exists (t ++ u). rewrite Hu, Ht, app_assoc. split; auto.
    rewrite forallb_app, Pt, Pu. reflexivity.
Qed.

Lemma only_if {A} (b : bool) (m1 m2 : M B A) :
  @Only B P _ m1 -> @Only B P _ m2 -> @Only B P _ (if b then m1 else m2).
Proof. now destruct b. Qed.

Lemma only_validateRecord record : @Only B P _ (@validateRecord B record).
Proof.
  unfold validateRecord.
  repeat (apply only_if; [apply only_throw|]).
  apply only_bind.
  - apply only_if; [apply only_log | apply only_ret].
  - intros _. apply only_if; [apply only_throw | apply only_ret].
Qed.

Lemma only_refreshRecordCache : @Only B P _ (refreshRecordCache serve config).
Proof.
  unfold refreshRecordCache. apply only_bind.
  - apply only_request, P_get. reflexivity.
  - intros d. apply only_if; [apply only_throw|].
    destruct (response d); [|apply only_throw].
    apply only_bind; [apply only_dateNow|]. intros t.
    apply only_bind; [apply only_setCache|]. intros _. apply only_ret.
Qed.

Lemma only_getRecordsFromCache : @Only B P _ (getRecordsFromCache serve config).
Proof.
  unfold getRecordsFromCache.
  apply only_bind; [apply only_getCache|]. intros c.
  apply only_bind; [apply only_dateNow|]. intros t.
  apply only_if; [apply only_refreshRecordCache | apply only_ret].
Qed.

Lemma only_recordNeedsUpdate existing newRecord :
  @Only B P _ (@recordNeedsUpdate B existing newRecord).
Proof.
  unfold recordNeedsUpdate.
  apply only_bind; [apply only_if; [apply only_log | apply only_ret]|]. intros _.
  apply only_bind; [apply only_if; [apply only_log | apply only_ret]|]. intros _.
  apply only_ret.
Qed.

(** When the call of [createRecord] and the add request are allowed too. *)
Lemma only_createRecord record :
  P (ECall CreateRecord) = true ->
  (forall r, path r = "/api/zones/records/add"%string -> P (EHttp r) = true) ->
  @Only B P _ (createRecord serve config record).
Proof.
  intros Hc Ha. unfold createRecord.
  apply only_bind; [now apply only_emit|]. intros _.
  apply only_bind; [apply only_validateRecord|]. intros _.
  apply only_bind; [apply only_log|]. intros _.
  apply only_bind; [apply only_request, Ha; reflexivity|]. intros d.
  apply only_if; [apply only_throw|].
  apply only_bind; [apply only_refreshRecordCache|]. intros _. apply only_ret.
Qed.

Lemma only_deleteRecord id :
  P (ECall (DeleteRecord id)) = true ->
  (forall r, path r = "/api/zones/records/delete"%string -> P (EHttp r) = true) ->
  @Only B P _ (deleteRecord serve config id).
Proof.
  intros Hc Hd. unfold deleteRecord.
  apply only_bind; [now apply only_emit|]. intros _.
  apply only_bind; [apply only_getCache|]. intros c.
  destruct (find _ _); [|apply only_ret].
  apply only_bind; [apply only_log|]. intros _.
  apply only_bind; [apply only_request, Hd; reflexivity|]. intros d.
  apply only_if; [|apply only_ret].
  apply only_bind; [apply only_getCache|]. intros c'.
  apply only_bind; [apply only_setCache|]. intros _. apply only_ret.
Qed.

End Only.

(** ** The loop of batchEnsureRecords *)

Section Loop.
Variable B : Type.
Variable serve : Request -> B -> Reply * B.
Variable config : Config.

Lemma processConfig_eq (spec : Obj) (results : list Obj) (w : World B) :
  processConfig serve config spec results w =
    match ensureRecord serve config spec w with
    | (Ok (Some r), w1) => (Ok (results ++ [r]), w1)
    | (Ok None, w1) => (Ok results, w1)
    | (Thrown e, w1) => (Ok results, logged (failureLine spec e) w1)
    end.
Proof.
  unfold processConfig, tryCatch, bind, log, emit, ret.
  destruct (ensureRecord serve config spec w) as [[[r|]|e] w1]; reflexivity.
Qed.

(** A turn of the loop never throws. *)
Lemma processConfig_returns (spec : Obj) (results : list Obj) (w : World B) :
  exists results' w', processConfig serve config spec results w = (Ok results', w').
Proof.
  rewrite processConfig_eq.
  destruct (ensureRecord serve config spec w) as [[[r|]|e] w1]; eauto.
Qed.

Lemma processAll_returns (specs : list Obj) :
  forall results (w : World B),
    exists results' w', processAll serve config specs results w = (Ok results', w').
Proof.
  induction specs as [|spec rest IH]; intros results w; simpl.
  - unfold ret. eauto.
  - unfold bind.
    destruct (processConfig_returns spec results w) as [r1 [w1 E]].
    rewrite E. apply IH.
Qed.

Lemma processAll_app (xs ys : list Obj) :
  forall results (w : World B),
    processAll serve config (xs ++ ys) results w =
      match processAll serve config xs results w with
      | (Ok results', w') => processAll serve config ys results' w'
      | (Thrown e, w') => (Thrown e, w')
      end.
Proof.
  induction xs as [|x xs IH]; intros results w; simpl.
  - reflexivity.
  - unfold bind.
    destruct (processConfig serve config x results w) as [[r1|e] w1]; auto.
Qed.

(** The results are accumulated: what a run started with stays in front. *)
Lemma processAll_acc (specs : list Obj) :
  forall results (w : World B),
    processAll serve config specs results w =
      match processAll serve config specs [] w with
      | (Ok rs, w') => (Ok (results ++ rs), w')
      | (Thrown e, w') => (Thrown e, w')
      end.
Proof.
  induction specs as [|spec rest IH]; intros results w; simpl.
  - unfold ret. now rewrite app_nil_r.
  - unfold bind. rewrite !processConfig_eq.
    destruct (ensureRecord serve config spec w) as [[[r|]|e] w1]; simpl.
    + rewrite (IH (results ++ [r])), (IH [r]).
      destruct (processAll serve config rest [] w1) as [[rs|e] w2]; auto.
      now rewrite <- app_assoc.
    + apply IH.
    + apply IH.
Qed.

(** What [createRecord] returns is the record it was given. *)
Lemma createRecord_result (record r : Obj) (w w' : World B) :
  createRecord serve config record w = (Ok r, w') -> r = record.
Proof.
  unfold createRecord, bind, ret.
  destruct (emit _ w) as [[[]|?] w1]; try discriminate.
  destruct (validateRecord record w1) as [[[]|?] w2]; try discriminate.
  destruct (log _ _ w2) as [[[]|?] w3]; try discriminate.
  destruct (request _ _ w3) as [[d|?] w4]; try discriminate.
  destruct (strictNe _ _); try discriminate.
  destruct (refreshRecordCache _ _ w4) as [[?|?] w5]; try discriminate.
  congruence.
Qed.

Lemma updateRecord_result (id : JsVal) (record r : Obj) (w w' : World B) :
  updateRecord serve config id record w = (Ok r, w') -> r = record.
Proof.
  unfold updateRecord, bind.
  destruct (emit _ w) as [[[]|?] w1]; try discriminate.
  destruct (deleteRecord _ _ _ w1) as [[?|?] w2]; try discriminate.
  apply createRecord_result.
Qed.

(** What a turn pushes on [results] is the spec of that turn. *)
Lemma ensureRecord_result (spec r : Obj) (w w' : World B) :
  ensureRecord serve config spec w = (Ok (Some r), w') -> r = spec.
Proof.
  unfold ensureRecord, bind, getCache, ret.
  destruct (findExisting spec (recordCache w)) as [existing|].
  - destruct (recordNeedsUpdate existing spec w) as [[n|?] w1]; try discriminate.
    destruct (truthy n); try discriminate.
    destruct (log _ _ w1) as [[[]|?] w2]; try discriminate.
    destruct (updateRecord _ _ _ _ w2) as [[x|?] w3] eqn:E; try discriminate.
    apply updateRecord_result in E. congruence.
  - destruct (log _ _ w) as [[[]|?] w2]; try discriminate.
    destruct (createRecord _ _ _ w2) as [[x|?] w3] eqn:E; try discriminate.
    apply createRecord_result in E. congruence.
Qed.

Lemma processAll_partial (specs : list Obj) :
  forall (w : World B),
    exists rs w', processAll serve config specs [] w = (Ok rs, w')
                  /\ PartialSuccess serve config specs w rs w'.
Proof.
  induction specs as [|spec rest IH]; intros w; simpl.
  - exists [], w. split; [reflexivity | constructor].
  - unfold bind. rewrite processConfig_eq.
    destruct (ensureRecord serve config spec w) as [[[r|]|e] w1] eqn:E.
    + pose proof (ensureRecord_result _ _ E) as ->.
      destruct (IH w1) as [rs [w2 [R Hp]]].
      exists (spec :: rs), w2. rewrite processAll_acc, R. simpl.
      split; [reflexivity | eapply ps_done; eauto].
    + destruct (IH w1) as [rs [w2 [R Hp]]].
      exists rs, w2. split; [assumption | eapply ps_unchanged; eauto].
    + destruct (IH (logged (failureLine spec e) w1)) as [rs [w2 [R Hp]]].
      exists rs, w2. split; [assumption | eapply ps_failed; eauto].
Qed.

End Loop.

(** C6.  [batchEnsureRecords] returns the empty list for an empty input;
    otherwise, once the cache has been read, the loop over the specs never
    throws: every spec is processed in order, a spec whose create or update
    returns is in the result list, and a spec whose turn throws (validation
    or backend error) is left out of it, its error is logged, and the run goes
    on with the next spec. *)
Theorem batch_partial_success :
  forall (B : Type) (serve : Request -> B -> Reply * B) (config : Config)
         (specs : list Obj) (w : World B),
    (specs = [] /\ batchEnsureRecords serve config specs w = (Ok [], w))
    \/
    (specs <> [] /\
     match getRecordsFromCache serve config w with
     | (Ok _, w0) =>
         exists rs w',
           batchEnsureRecords serve config specs w = (Ok rs, w')
           /\ PartialSuccess serve config specs w0 rs w'
     | (Thrown e, w0) =>
         batchEnsureRecords serve config specs w = (Thrown e, w0)
     end).
Proof.
  intros B serve config specs w.
  destruct specs as [|spec rest].
  - left. split; reflexivity.
  - right. split; [discriminate|].
    unfold batchEnsureRecords, bind.
    destruct (getRecordsFromCache serve config w) as [[l|e] w0]; [|reflexivity].
    apply processAll_partial.
Qed.

(** ** Update if and only if changed *)

Section NeedsUpdate.
Variable B : Type.
Variable serve : Request -> B -> Reply * B.
Variable config : Config.

Lemma recordNeedsUpdate_eq (existing newRecord : Obj) (w : World B) :
  recordNeedsUpdate existing newRecord w =
    (Ok (needsUpdate existing newRecord),
     withTrace (trace w ++ diffLines existing newRecord) w).
Proof.
  unfold recordNeedsUpdate, needsUpdate, diffLines, bind, log, emit, ret, withTrace.
  fold (contentDiff existing newRecord). fold (ttlDiff existing newRecord).
  destruct w as [b c t tr]; simpl.
  destruct (contentDiff existing newRecord); simpl;
    destruct (truthy (ttlDiff existing newRecord)); simpl;
    rewrite <- ?app_assoc, ?app_nil_r; reflexivity.
Qed.

Lemma diffLines_no_update existing newRecord :
  filter isUpdateCall (diffLines existing newRecord) = [].
Proof.
  unfold diffLines.
  destruct (contentDiff existing newRecord);
    destruct (truthy (ttlDiff existing newRecord)); reflexivity.
Qed.

(** Differing content, or a TTL that is set and differs, is what makes
    [recordNeedsUpdate] answer yes. *)
Lemma needsUpdate_truthy existing newRecord :
  truthy (needsUpdate existing newRecord) = true <->
  (strictNe (get "content" existing) (get "content" newRecord) = true
   \/ (truthy (get "ttl" newRecord) = true
       /\ strictNe (get "ttl" existing) (get "ttl" newRecord) = true)).
Proof.
  unfold needsUpdate, ttlDiff, contentDiff, or_, and_.
  destruct (strictNe (get "content" existing) (get "content" newRecord)); simpl.
  - tauto.
  - destruct (truthy (get "ttl" newRecord)) eqn:T; simpl.
    + destruct (strictNe (get "ttl" existing) (get "ttl" newRecord)); simpl;
        intuition discriminate.
    + rewrite T. intuition discriminate.
Qed.

Lemma filter_none (t : list Eff.Event) :
  forallb notUpdateCall t = true -> filter isUpdateCall t = [].
Proof.
  induction t as [|e t IH]; simpl; auto.
  unfold notUpdateCall at 1. destruct (isUpdateCall e); simpl; auto.
  discriminate.
Qed.

Lemma updateRecord_trace (id : JsVal) (record : Obj) (w : World B) :
  exists t,
    trace (snd (updateRecord serve config id record w))
      = trace w ++ ECall (UpdateRecord id) :: t
    /\ filter isUpdateCall t = [].
Proof.
  assert (H : Only notUpdateCall
                (bind (deleteRecord serve config id)
                      (fun _ => createRecord serve config record))).
  { apply only_bind.
    - apply only_deleteRecord; auto.
    - intros _. apply only_createRecord; auto. }
  unfold updateRecord. unfold bind at 1. simpl.
  destruct (H (mkWorld (backend w) (recordCache w) (clock w)
                       (trace w ++ [ECall (UpdateRecord id)]))) as [t [Ht Pt]].
  exists t. rewrite Ht. simpl. rewrite <- app_assoc. split; auto.
  now apply filter_none.
Qed.

(** A turn for a spec that has a cached match. *)
Lemma ensureRecord_existing (spec existing : Obj) (w : World B) :
  findExisting spec (recordCache w) = Some existing ->
  ensureRecord serve config spec w =
    let w1 := withTrace (trace w ++ diffLines existing spec) w in
    if truthy (needsUpdate existing spec) then
      match updateRecord serve config (get "id" existing) spec
              (logged (ELog LInfo ("🔄 Updating Technitium " ++
                                   toString (get "type" spec) ++ " record for " ++
                                   toString (get "name" spec))%string) w1) with
      | (Ok r, w2) => (Ok (Some r), w2)
      | (Thrown e, w2) => (Thrown e, w2)
      end
    else (Ok None, w1).
Proof.
  intros H. unfold ensureRecord. unfold bind at 1. simpl. rewrite H.
  unfold bind at 1. rewrite recordNeedsUpdate_eq. cbv zeta.
  destruct (truthy (needsUpdate existing spec)); [|reflexivity].
  unfold bind, log, emit, ret, logged, withTrace; simpl.
  destruct (updateRecord _ _ _ _ _) as [[r|e] w2]; reflexivity.
Qed.

End NeedsUpdate.


(** ** The manage flag *)

Section Manage.
Variable B : Type.
Variable serve : Request -> B -> Reply * B.
Variable config : Config.
Variable flag : JsVal.

Ltac unmanage := unfold managed; rewrite ?get_set_other by discriminate.

Lemma validateRecord_managed spec :
  @validateRecord B ((managed flag) spec) = validateRecord spec.
Proof. unfold validateRecord. unmanage. reflexivity. Qed.

Lemma convert_managed spec z :
  convertToTechnitiumFormat ((managed flag) spec) z = convertToTechnitiumFormat spec z.
Proof. unfold convertToTechnitiumFormat. unmanage. reflexivity. Qed.

Lemma traceLine_managed spec : traceLine ((managed flag) spec) = traceLine spec.
Proof. unfold traceLine. unmanage. reflexivity. Qed.

Lemma findExisting_managed spec c :
  findExisting ((managed flag) spec) c = findExisting spec c.
Proof. unfold findExisting. unmanage. reflexivity. Qed.

Lemma recordNeedsUpdate_managed existing spec :
  @recordNeedsUpdate B existing ((managed flag) spec) = recordNeedsUpdate existing spec.
Proof. unfold recordNeedsUpdate. unmanage. reflexivity. Qed.

Lemma createRecord_managed spec (w : World B) :
  createRecord serve config ((managed flag) spec) w =
    managedResult (managed flag) (createRecord serve config spec w).
Proof.
  unfold createRecord, bind.
  rewrite validateRecord_managed, traceLine_managed, convert_managed.
  destruct (emit _ w) as [[[]|?] w1]; auto.
  destruct (validateRecord spec w1) as [[[]|?] w2]; auto.
  destruct (log _ _ w2) as [[[]|?] w3]; auto.
  destruct (request _ _ w3) as [[d|?] w4]; auto.
  destruct (strictNe _ _); auto.
  destruct (refreshRecordCache _ _ w4) as [[?|?] w5]; auto.
Qed.

Lemma updateRecord_managed id spec (w : World B) :
  updateRecord serve config id ((managed flag) spec) w =
    managedResult (managed flag) (updateRecord serve config id spec w).
Proof.
  unfold updateRecord, bind.
  destruct (emit _ w) as [[[]|?] w1]; auto.
  destruct (deleteRecord _ _ _ w1) as [[?|?] w2]; auto.
  apply createRecord_managed.
Qed.

Lemma ensureRecord_managed spec (w : World B) :
  ensureRecord serve config ((managed flag) spec) w =
    managedResult (option_map (managed flag)) (ensureRecord serve config spec w).
Proof.
  unfold ensureRecord, bind.
  destruct (getCache w) as [[c|?] w0]; auto.
  rewrite findExisting_managed.
  replace (get "type" ((managed flag) spec)) with (get "type" spec) by now unmanage.
  replace (get "name" ((managed flag) spec)) with (get "name" spec) by now unmanage.
  destruct (findExisting spec c) as [existing|].
  - rewrite recordNeedsUpdate_managed.
    destruct (recordNeedsUpdate existing spec w0) as [[n|?] w1]; auto.
    destruct (truthy n); auto.
    destruct (log _ _ w1) as [[[]|?] w2]; auto.
    rewrite updateRecord_managed.
    destruct (updateRecord _ _ _ _ w2) as [[x|?] w3]; auto.
  - destruct (log _ _ w0) as [[[]|?] w2]; auto.
    rewrite createRecord_managed.
    destruct (createRecord _ _ _ w2) as [[x|?] w3]; auto.
Qed.

Lemma processAll_managed specs :
  forall results (w : World B),
    processAll serve config (map (managed flag) specs) (map (managed flag) results) w =
      managedResult (map (managed flag)) (processAll serve config specs results w).
Proof.
  induction specs as [|spec rest IH]; intros results w; simpl.
  - reflexivity.
  - unfold bind. rewrite !processConfig_eq, ensureRecord_managed.
    unfold failureLine.
    replace (get "name" ((managed flag) spec)) with (get "name" spec) by now unmanage.
    destruct (ensureRecord serve config spec w) as [[[r|]|e] w1]; simpl.
    + rewrite <- IH. f_equal. now rewrite map_app.
    + apply IH.
    + apply IH.
Qed.

End Manage.

(** C7, as the code has it.  [batchEnsureRecords] does not read the
    [manage] property: whatever value the specs carry in it, the run sends the
    same requests, makes the same calls, logs the same lines and leaves the
    same cache and backend, and it returns the same specs.  A spec with
    [manage] set to [false] is looked up, created or updated like any
    other. *)
Theorem manage_flag_is_not_read :
  forall (B : Type) (serve : Request -> B -> Reply * B) (config : Config)
         (flag : JsVal) (specs : list Obj) (w : World B),
    batchEnsureRecords serve config (map (managed flag) specs) w =
      managedResult (map (managed flag)) (batchEnsureRecords serve config specs w).
Proof.
  intros B serve config flag specs w.
  destruct specs as [|spec rest]; [reflexivity|].
  change (map (managed flag) (spec :: rest))
    with (managed flag spec :: map (managed flag) rest).
  unfold batchEnsureRecords, bind.
  destruct (getRecordsFromCache serve config w) as [[l|e] w0]; [|reflexivity].
  apply (processAll_managed serve config flag (spec :: rest) [] w0).
Qed.

(** ** Validation and createRecord *)

Section Validation.
Variable B : Type.
Variable serve : Request -> B -> Reply * B.
Variable config : Config.

Lemma validateRecord_accepted (spec : Obj) (w : World B) :
  accepted spec = true ->
  validateRecord spec w = (Ok tt, withTrace (trace w ++ apexLines spec) w).
Proof.
  unfold accepted. intros H.
  apply andb_prop in H. destruct H as [H Hl].
  apply andb_prop in H. destruct H as [H Hc].
  apply andb_prop in H. destruct H as [Ht Hn].
  unfold validateRecord, apexLines. rewrite Ht, Hn, Hc. simpl.
  unfold bind, log, emit, ret, withTrace.
  apply negb_true_iff in Hl. destruct w as [b c t tr]; simpl.
  destruct (strictEq (get "type" spec) (JStr "CNAME")
            && strictEq (get "name" spec) (get "zone" spec)); simpl;
    rewrite Hl, ?app_nil_r; reflexivity.
Qed.

Lemma validateRecord_rejected (spec : Obj) (w : World B) :
  accepted spec = false -> exists e w', validateRecord spec w = (Thrown e, w').
Proof.
  unfold accepted, validateRecord. intros H.
  destruct (truthy (get "type" spec)); simpl in *; [|unfold throw; eauto].
  destruct (truthy (get "name" spec)); simpl in *; [|unfold throw; eauto].
  destruct (truthy (get "content" spec)); simpl in *; [|unfold throw; eauto].
  apply negb_false_iff in H. rewrite H. unfold bind.
  match goal with
  | |- context [?m w] => destruct (m w) as [[[]|e] w1]
  end; unfold throw; eauto.
Qed.

Lemma createRecord_accepted (spec : Obj) (w : World B) :
  accepted spec = true ->
  createRecord serve config spec w =
    let w1 := withTrace (trace w ++ ECall CreateRecord :: apexLines spec ++
                                   [ELog LTrace (traceLine spec)]) w in
    match request serve (addRequest config spec) w1 with
    | (Ok d, w2) =>
        if strictNe (status d) (JStr "ok") then
          (Thrown ("Create failed: " ++ toString (status d))%string, w2)
        else
          match refreshRecordCache serve config w2 with
          | (Ok _, w3) => (Ok spec, w3)
          | (Thrown e, w3) => (Thrown e, w3)
          end
    | (Thrown e, w2) => (Thrown e, w2)
    end.
Proof.
  intros H. unfold createRecord. unfold bind at 1. simpl.
  unfold bind at 1. rewrite validateRecord_accepted by assumption.
  unfold bind at 1. simpl. fold (addRequest config spec).
  unfold withTrace; simpl. rewrite <- !app_assoc. simpl.
  unfold bind, throw, ret.
  destruct (request serve (addRequest config spec) _) as [[d|e] w2]; auto.
  destruct (strictNe (status d) (JStr "ok")); auto.
Qed.

(** A call of [createRecord] for a spec that passes [validateRecord] sends
    the add request. *)
Lemma createRecord_sends (spec : Obj) (w : World B) :
  accepted spec = true ->
  In (EHttp (addRequest config spec)) (trace (snd (createRecord serve config spec w))).
Proof.
  intros H. rewrite createRecord_accepted by assumption. cbv zeta.
  set (w1 := withTrace _ w).
  assert (Hr : trace (snd (request serve (addRequest config spec) w1))
               = trace w1 ++ [EHttp (addRequest config spec)]).
  { unfold request. destruct (serve _ _) as [[e|d] b]; reflexivity. }
  destruct (request serve (addRequest config spec) w1) as [[d|e] w2]; simpl in Hr.
  - assert (Hin : In (EHttp (addRequest config spec)) (trace w2)).
    { rewrite Hr. apply in_or_app. right. now left. }
    destruct (strictNe (status d) (JStr "ok")); simpl; auto.
    destruct (@only_refreshRecordCache B serve config (fun _ => true)
                (fun _ _ => eq_refl) w2) as [t [Ht _]].
    destruct (refreshRecordCache serve config w2) as [[l|e] w3];
      simpl in *; rewrite Ht; apply in_or_app; now left.
  - simpl. rewrite Hr. apply in_or_app. right. now left.
Qed.

(** A call of [createRecord] for a spec that [validateRecord] rejects
    sends nothing. *)
Lemma createRecord_rejected (spec : Obj) (w : World B) :
  accepted spec = false ->
  requests (added (trace w) (trace (snd (createRecord serve config spec w)))) = [].
Proof.
  intros H. unfold createRecord. unfold bind at 1. simpl.
  unfold bind at 1.
  set (w1 := mkWorld _ _ _ _).
  destruct (@validateRecord_rejected spec w1 H) as [e [w' E]].
  destruct (@only_validateRecord B (fun x => negb (isHttp x))
              (fun _ _ => eq_refl) spec w1) as [t [Ht Pt]].
  rewrite E in *. simpl in *. rewrite Ht, <- app_assoc, added_app.
  simpl. clear - Pt. induction t as [|x t IH]; simpl in *; auto.
  apply andb_prop in Pt. destruct Pt as [Px Pt].
  unfold requests in *. simpl.
  destruct (isHttp x); simpl in *; [discriminate | auto].
Qed.

End Validation.

(** C4.  The provider lacks the rejection.  For a CNAME spec whose name is
    the zone name and which has content and no negative TTL,
    [validateRecord] of validator.js returns normally (writing its warning
    when the spec's own [zone] property equals its name), and [createRecord]
    goes on to send the add request; [validateRecord] of the earlier
    TechnitiumProvider class, given the same name, type and content, throws
    the descriptive error. *)
Theorem apex_cname_is_accepted :
  forall (B : Type) (serve : Request -> B -> Reply * B) (config : Config)
         (spec : Obj) (w : World B),
    get "type" spec = JStr "CNAME" ->
    strictEq (get "name" spec) (technitiumZone config) = true ->
    truthy (get "name" spec) = true ->
    truthy (get "content" spec) = true ->
    truthy (get "ttl" spec) && ltZero (get "ttl" spec) = false ->
    validateRecord spec w = (Ok tt, withTrace (trace w ++ apexLines spec) w)
    /\ In (EHttp (addRequest config spec))
          (trace (snd (createRecord serve config spec w)))
    /\ Legacy.validateRecord (technitiumZone config) (get "name" spec)
         (get "type" spec) (get "content" spec) []
       = Thrown "CNAME records cannot be created at zone apex. Use A or ANAME instead.".
Proof.
  intros B serve config spec w Ht Hz Hn Hc Hl.
  assert (Ha : accepted spec = true).
  { unfold accepted. rewrite Ht, Hn, Hc, Hl. reflexivity. }
  split; [|split].
  - now apply validateRecord_accepted.
  - now apply createRecord_sends.
  - unfold Legacy.validateRecord. rewrite Hn, Hc, Ht, Hz. reflexivity.
Qed.

(** ** Conversion to the wire and back *)

Section RoundTrip.

Lemma roundTrips_cases (type : string) :
  roundTrips type = true ->
  type = "A"%string \/ type = "AAAA"%string \/ type = "CNAME"%string
  \/ type = "ANAME"%string \/ type = "TXT"%string.
Proof.
  unfold roundTrips. intros H.
  repeat (apply orb_prop in H; destruct H as [H|H]);
    apply String.eqb_eq in H; auto 6.
Qed.

Lemma numToString_safe (n : Z) :
  Z.abs n <= maxSafeInteger -> numToString n = decimal n.
Proof.
  intros H. unfold numToString, positiveToString.
  destruct n as [|p|p]; [reflexivity| |].
  - cbn [Z.eqb Z.ltb Z.compare].
    destruct (Z.leb_spec (Z.pos p) maxSafeInteger); [reflexivity | simpl in H; lia].
  - cbn [Z.eqb Z.ltb Z.compare Z.opp].
    destruct (Z.leb_spec (Z.pos p) maxSafeInteger); [reflexivity | simpl in H; lia].
Qed.

Lemma parse_numToString (n : Z) :
  Z.abs n <= maxSafeInteger -> parseInteger (numToString n) = Some n.
Proof.
  intros H. rewrite numToString_safe by assumption.
  unfold parseInteger, decimal.
  rewrite NilZero.isi.
  - simpl. now rewrite DecimalZ.of_to.
  - destruct n; simpl; try discriminate.
    intros [= E]. now apply DecimalPos.Unsigned.to_uint_nonnil in E.
  - destruct n; simpl; try discriminate.
    intros [= E]. now apply DecimalPos.Unsigned.to_uint_nonnil in E.
Qed.

(** The record the zone server stores for the parameters of a spec, with
    or without the token and zone the provider adds. *)
Lemma recordOfParams_convert (spec : Obj) (name type content : string) (ttl : Z)
      (zone token zone' : JsVal) :
  get "name" spec = JStr name ->
  get "type" spec = JStr type ->
  get "content" spec = JStr content ->
  or_ (get "ttl" spec) (JNum 3600) = JNum ttl ->
  Z.abs ttl <= maxSafeInteger ->
  roundTrips type = true ->
  ZoneServer.recordOfParams (urlParams (convertToTechnitiumFormat spec zone))
    = Some (zoneRecord name type content ttl)
  /\ ZoneServer.recordOfParams
       (urlParams (set "zone" zone' (set "token" token
                     (convertToTechnitiumFormat spec zone))))
     = Some (zoneRecord name type content ttl).
Proof.
  intros Hn Ht Hc Hl Hb Hr.
  unfold convertToTechnitiumFormat. rewrite Hn, Ht, Hc, Hl.
  apply roundTrips_cases in Hr.
  destruct Hr as [-> | [-> | [-> | [-> | ->]]]];
    cbn -[numToString parseInteger];
    unfold ZoneServer.recordOfParams; cbn -[numToString parseInteger];
    rewrite parse_numToString by assumption; split; reflexivity.
Qed.

(** What [convertToStandardFormat] reads from such a zone record. *)
Lemma convert_zoneRecord (name type content : string) (ttl : Z) :
  roundTrips type = true -> content <> ""%string ->
  let back := convertToStandardFormat (zoneRecord name type content ttl) in
  get "name" back = JStr name /\ get "type" back = JStr type
  /\ get "content" back = JStr content /\ get "ttl" back = JNum ttl.
Proof.
  intros Hr Hc. apply roundTrips_cases in Hr.
  assert (T : truthy (JStr content) = true).
  { unfold truthy. destruct (String.eqb_spec content ""); [congruence | reflexivity]. }
  destruct Hr as [-> | [-> | [-> | [-> | ->]]]]; cbn -[truthy];
    unfold or_; cbn -[truthy];
    repeat (first [progress change (truthy JUndef) with false | rewrite T];
            cbv iota);
    auto.
Qed.

End RoundTrip.

(** C3, as the code has it.  For a record of type A, AAAA, CNAME, ANAME or
    TXT with a string name, a non-empty string content and a non-zero TTL
    that is a safe integer (up to Number.MAX_SAFE_INTEGER in size, so that it
    is sent with all its digits), [convertToTechnitiumFormat] yields request
    parameters that describe a zone record, and [convertToStandardFormat]
    applied to that zone record gives back the same name, type, content and
    TTL. *)
Theorem roundtrip_through_zone_record :
  forall (spec : Obj) (zone : JsVal) (name type content : string) (ttl : Z),
    get "name" spec = JStr name ->
    get "type" spec = JStr type ->
    get "content" spec = JStr content ->
    get "ttl" spec = JNum ttl ->
    roundTrips type = true ->
    content <> ""%string ->
    ttl <> 0 ->
    Z.abs ttl <= maxSafeInteger ->
    exists stored,
      ZoneServer.recordOfParams (urlParams (convertToTechnitiumFormat spec zone))
        = Some stored
      /\ get "name" (convertToStandardFormat stored) = get "name" spec
      /\ get "type" (convertToStandardFormat stored) = get "type" spec
      /\ get "content" (convertToStandardFormat stored) = get "content" spec
      /\ get "ttl" (convertToStandardFormat stored) = get "ttl" spec.
Proof.
  intros spec zone name type content ttl Hn Ht Hc Hl Hr Hne Hz Hb.
  exists (zoneRecord name type content ttl).
  assert (Hl' : or_ (get "ttl" spec) (JNum 3600) = JNum ttl).
  { rewrite Hl. unfold or_, truthy.
    destruct (Z.eqb_spec ttl 0); [contradiction | reflexivity]. }
  destruct (@recordOfParams_convert spec name type content ttl zone JUndef JUndef
              Hn Ht Hc Hl' Hb Hr) as [E _].
  destruct (@convert_zoneRecord name type content ttl Hr Hne) as [A1 [A2 [A3 A4]]].
  rewrite Hn, Ht, Hc, Hl. auto.
Qed.

(** ** A run that finds nothing to do *)

Section Settled.
Variable B : Type.
Variable serve : Request -> B -> Reply * B.
Variable config : Config.

Lemma withTrace_same (w : World B) : withTrace (trace w ++ []) w = w.
Proof. destruct w. unfold withTrace. simpl. now rewrite app_nil_r. Qed.

Lemma diffLines_nil (existing spec : Obj) :
  truthy (needsUpdate existing spec) = false -> diffLines existing spec = [].
Proof.
  unfold needsUpdate, diffLines, or_.
  destruct (contentDiff existing spec); simpl; [discriminate|].
  now intros ->.
Qed.

Lemma ensureRecord_settled (spec : Obj) (w : World B) :
  settledIn (recordCache w) spec ->
  ensureRecord serve config spec w = (Ok None, w).
Proof.
  intros [existing [Hf Hn]].
  rewrite (ensureRecord_existing serve config spec w Hf). cbv zeta.
  rewrite Hn, (diffLines_nil _ _ Hn), withTrace_same. reflexivity.
Qed.

(** When every spec is settled, the loop changes nothing at all. *)
Lemma processAll_settled (specs : list Obj) :
  forall results (w : World B),
    (forall s, In s specs -> settledIn (recordCache w) s) ->
    processAll serve config specs results w = (Ok results, w).
Proof.
  induction specs as [|spec rest IH]; intros results w H; simpl.
  - reflexivity.
  - unfold bind. rewrite processConfig_eq, ensureRecord_settled.
    + apply IH. intros s Hs. apply H. now right.
    + apply H. now left.
Qed.

End Settled.

(** ** Two runs against the zone server *)

Section OnZoneServer.
Variable config : Config.

Let serve := ZoneServer.serve.

Lemma refresh_zone (w : World ZoneServer.Zone) :
  refreshRecordCache serve config w =
    (Ok (map convertToStandardFormat (backend w)),
     mkWorld (backend w)
             (mkCache (map convertToStandardFormat (backend w)) (clock w))
             (clock w) (trace w ++ [EHttp (listRequest config)])).
Proof. reflexivity. Qed.

Lemma convergible_inv (spec : Obj) :
  convergible spec = true ->
  exists n t c k,
    get "name" spec = JStr n /\ get "type" spec = JStr t
    /\ get "content" spec = JStr c
    /\ roundTrips t = true /\ c <> ""%string
    /\ or_ (get "ttl" spec) (JNum 3600) = JNum k
    /\ (truthy (get "ttl" spec) = true -> get "ttl" spec = JNum k)
    /\ accepted spec = true
    /\ Z.abs k <= maxSafeInteger.
Proof.
  unfold convergible, accepted.
  destruct (get "name" spec) as [| | | |n|]; try discriminate.
  destruct (get "type" spec) as [| | | |t|]; try discriminate.
  destruct (get "content" spec) as [| | | |c|]; try discriminate.
  intros H.
  apply andb_prop in H. destruct H as [H Hl].
  apply andb_prop in H. destruct H as [H Hc].
  apply andb_prop in H. destruct H as [Hn Hr].
  assert (Ht : truthy (JStr t) = true).
  { unfold truthy. destruct (String.eqb_spec t ""); [subst; discriminate | reflexivity]. }
  assert (Hc' : c <> ""%string).
  { intros ->. discriminate. }
  destruct (get "ttl" spec) as [| | |k| |] eqn:El; try discriminate.
  - exists n, t, c, 3600. repeat split; auto; try discriminate.
    rewrite Ht. simpl. now rewrite Hn, Hc.
  - apply andb_prop in Hl. destruct Hl as [Hl Hu].
    apply Z.leb_le in Hl. apply Z.leb_le in Hu.
    exists n, t, c, (if k =? 0 then 3600 else k).
    split; [reflexivity|]. split; [reflexivity|]. split; [reflexivity|].
    split; [exact Hr|]. split; [exact Hc'|].
    split; [unfold or_, truthy; now destruct (k =? 0)|].
    split; [unfold truthy; now destruct (k =? 0)|].
    split.
    + rewrite Ht. simpl truthy. rewrite Hn, Hc. simpl.
      unfold ltZero.
      destruct (Z.ltb_spec k 0); [lia|].
      now rewrite andb_false_r.
    + destruct (k =? 0); [discriminate | lia].
Qed.

Lemma find_app_some {A} (f : A -> bool) (l l' : list A) (x : A) :
  find f l = Some x -> find f (l ++ l') = Some x.
Proof.
  induction l as [|a l IH]; simpl; [discriminate|].
  destruct (f a); auto.
Qed.

Lemma find_app_none {A} (f : A -> bool) (l l' : list A) :
  find f l = None -> find f (l ++ l') = find f l'.
Proof.
  induction l as [|a l IH]; simpl; auto.
  destruct (f a); [discriminate | auto].
Qed.

Lemma settledOn_app (zone more : ZoneServer.Zone) (spec : Obj) :
  settledOn zone spec -> settledOn (zone ++ more) spec.
Proof.
  intros [existing [Hf Hn]]. exists existing. split; auto.
  rewrite map_app. now apply find_app_some.
Qed.

(** What a create for a convergible spec does to the server and the cache:
    one record is added to the zone, and the cache is the zone again. *)
Lemma createRecord_zone (spec : Obj) (w : World ZoneServer.Zone) :
  convergible spec = true ->
  exists n t c k w',
    createRecord serve config spec w = (Ok spec, w')
    /\ get "name" spec = JStr n /\ get "type" spec = JStr t
    /\ backend w' = backend w ++ [zoneRecord n t c k]
    /\ synced w'
    /\ clock w' = clock w
    /\ settledOn [zoneRecord n t c k] spec.
Proof.
  intros Hcv.
  destruct (convergible_inv spec Hcv)
    as [n [t [c [k [Hn [Ht [Hc [Hr [Hne [Hl [Htt [Ha Hb]]]]]]]]]]]].
  destruct (@recordOfParams_convert spec n t c k JUndef (technitiumToken config)
              (technitiumZone config) Hn Ht Hc Hl Hb Hr) as [_ E].
  exists n, t, c, k.
  rewrite createRecord_accepted by assumption. cbv zeta.
  unfold request at 1. simpl backend.
  unfold serve at 1, ZoneServer.serve. simpl verb. simpl path. cbv iota.
  change (("/api/zones/records/add" =? "/api/zones/records/add")%string) with true.
  cbv iota. simpl params. rewrite E. cbv iota beta.
  unfold ZoneServer.ok. simpl status.
  change (strictNe (JStr "ok") (JStr "ok")) with false. cbv iota.
  rewrite refresh_zone. simpl.
  eexists. split; [reflexivity|]. simpl.
  repeat split; auto.
  destruct (@convert_zoneRecord n t c k Hr Hne) as [A1 [A2 [A3 A4]]].
  exists (convertToStandardFormat (zoneRecord n t c k)). split.
  - simpl find. unfold sameKey.
    change (get "name" (convertToStandardFormat (zoneRecord n t c k)))
      with (JStr n).
    change (get "type" (convertToStandardFormat (zoneRecord n t c k)))
      with (JStr t).
    rewrite Hn, Ht. simpl. now rewrite !String.eqb_refl.
  - unfold needsUpdate, contentDiff, ttlDiff, or_, and_, strictNe.
    rewrite A3, A4, Hc. simpl strictEq. rewrite String.eqb_refl. simpl.
    destruct (truthy (get "ttl" spec)) eqn:T.
    + rewrite (Htt eq_refl). simpl. now rewrite Z.eqb_refl.
    + exact T.
Qed.

End OnZoneServer.

Section TwoRuns.
Variable config : Config.

Let serve := ZoneServer.serve.

Lemma settled_in_cache (w : World ZoneServer.Zone) (spec : Obj) :
  synced w -> settledOn (backend w) spec -> settledIn (recordCache w) spec.
Proof.
  intros Hs [existing [Hf Hn]]. exists existing. split; auto.
  unfold findExisting. rewrite Hs. exact Hf.
Qed.

Lemma absent_after_create (spec other : Obj) (zone : ZoneServer.Zone)
      (n t c : string) (k : Z) :
  get "name" spec = JStr n -> get "type" spec = JStr t ->
  sameKey spec other = false ->
  absentFrom zone other -> absentFrom (zone ++ [zoneRecord n t c k]) other.
Proof.
  intros Hn Ht Hk Ha. unfold absentFrom in *.
  rewrite map_app, find_app_none by assumption.
  simpl. unfold sameKey in *.
  change (get "name" (convertToStandardFormat (zoneRecord n t c k))) with (JStr n).
  change (get "type" (convertToStandardFormat (zoneRecord n t c k))) with (JStr t).
  rewrite <- Hn, <- Ht, Hk. reflexivity.
Qed.

(** Reading the cache at the start of a run: when the cache is in sync, a
    refresh changes neither the zone nor the cached records, and what it
    adds to the trace is at most the list request. *)
Lemma getRecordsFromCache_zone (w : World ZoneServer.Zone) :
  synced w ->
  exists l w0,
    getRecordsFromCache serve config w = (Ok l, w0)
    /\ backend w0 = backend w /\ synced w0
    /\ (trace w0 = trace w \/ trace w0 = trace w ++ [EHttp (listRequest config)]).
Proof.
  intros Hs. unfold getRecordsFromCache, bind, getCache, dateNow.
  destruct (_ || _)%bool.
  - rewrite refresh_zone. do 2 eexists. split; [reflexivity|].
    simpl. repeat split; auto.
  - exists (cached (recordCache w)), w. repeat split; auto.
Qed.

End TwoRuns.

Lemma batchEnsureRecords_cons (B : Type) (serve : Request -> B -> Reply * B)
      (config : Config) (spec : Obj) (rest : list Obj) (w : World B) :
  batchEnsureRecords serve config (spec :: rest) w =
    match getRecordsFromCache serve config w with
    | (Ok _, w0) => processAll serve config (spec :: rest) [] w0
    | (Thrown e, w0) => (Thrown e, w0)
    end.
Proof. reflexivity. Qed.

(** ** The public IP refresh *)

Section Refresh.
Import Resolver.

Lemma outbound_app (es fs : list Resolver.Event) :
  outbound (es ++ fs) = outbound es ++ outbound fs.
Proof. unfold outbound. apply flat_map_app. Qed.

(** What [finish] leaves: the flag clear, the calls as they were, nothing
    sent, and the new cache returned. *)
Lemma finish_spec (en : Entry) (now : Z) (l : Locals) (s : State) :
  let s' := fst (finish en now l s) in
  snd (finish en now l s) = Returned (deliver en s')
  /\ ipUpdateInProgress s' = false
  /\ tasks s' = tasks s
  /\ outbound (events s') = outbound (events s).
Proof.
  unfold finish, recordIf. cbv zeta.
  destruct (truthy (ipv4' l) && strictNe (ipv4' l) (oldIpv4 l))%bool;
    destruct (truthy (ipv6' l) && strictNe (ipv6' l) (oldIpv6 l))%bool;
    simpl; rewrite ?outbound_app; simpl; rewrite ?app_nil_r;
    repeat split; destruct en; reflexivity.
Qed.

Lemma Forall_setTask (P : Task -> Prop) (i : nat) (t : Task) (ts : list Task) :
  Forall P ts -> P t -> Forall P (setTask i t ts).
Proof.
  intros H Ht. revert i. induction H as [|x ts Hx H IH]; intros i.
  - destruct i; constructor.
  - destruct i; simpl; constructor; auto.
Qed.

Lemma Forall_nth (P : Task -> Prop) (i : nat) (t : Task) (ts : list Task) :
  Forall P ts -> nth_error ts i = Some t -> P t.
Proof.
  intros H E. rewrite Forall_forall in H. apply H.
  eapply nth_error_In; eauto.
Qed.

Lemma atRest_waiting (s : State) (ts : list Task) :
  Forall (fun t => pc t = Waiting) ts -> Forall (atRest s) ts.
Proof.
  intros H. eapply Forall_impl; [|exact H]. intros t Ht. now left.
Qed.

Lemma inv_flight_tasks (s : State) (t0 : Task) (others : list Task) :
  ipUpdateInProgress s = true ->
  inFlight (pc t0) (outbound (events s)) ->
  Forall (fun t => pc t = Waiting) others ->
  Inv (withTasks (t0 :: others) s).
Proof. intros H1 H2 H3. eapply inv_flight; [reflexivity | exact H1 | exact H2 | exact H3]. Qed.

Lemma inv_done_tasks (s : State) (t0 : Task) (others : list Task) :
  ipUpdateInProgress s = false ->
  pc t0 = Returned (deliver (entry t0) s) ->
  Forall (atRest s) others ->
  In (outbound (events s)) (callSequences 0) ->
  Inv (withTasks (t0 :: others) s).
Proof.
  intros H1 H2 H3 H4.
  eapply inv_done; [reflexivity | exact H1 | | exact H3 | exact H4].
  rewrite H2. now destruct (entry t0).
Qed.

Lemma record_quiet (s : State) (e : Resolver.Event) :
  outbound [e] = [] -> outbound (events (record e s)) = outbound (events s).
Proof. intros H. simpl. rewrite outbound_app, H. apply app_nil_r. Qed.

(** From "Try to get IPv6" on, for the first call: it either sends the
    IPv6 request and stays in flight, or finishes. *)
Lemma tryIpv6_inv (en : Entry) (now : Z) (l : Locals) (s : State)
      (others : list Task) :
  ipUpdateInProgress s = true ->
  Forall (fun t => pc t = Waiting) others ->
  inFlight (AwaitIpv6 l)
           (outbound (events s) ++ [(0%nat, "https://api6.ipify.org"%string)]) ->
  In (outbound (events s)) (callSequences 0) ->
  Inv (withTasks (mkTask en (snd (tryIpv6 0 en now l s)) :: others)
                 (fst (tryIpv6 0 en now l s))).
Proof.
  intros Hfl Hw H6 Hseq. unfold tryIpv6.
  destruct (negb (truthy (ipv6' l))).
  - cbn [fst snd]. apply inv_flight_tasks; auto.
    cbn [pc]. change (events (record ?e s)) with (events s ++ [e]).
    rewrite outbound_app. exact H6.
  - destruct (finish_spec en now l s) as [Hp [Hf [Htk Ho]]].
    cbv zeta in *.
    apply inv_done_tasks; auto.
    + apply atRest_waiting, Hw.
    + rewrite Ho. exact Hseq.
Qed.

Lemma tryIpv6_tasks (me : nat) (en : Entry) (now : Z) (l : Locals) (s : State) :
  tasks (fst (tryIpv6 me en now l s)) = tasks s.
Proof.
  unfold tryIpv6. destruct (negb _); [reflexivity|].
  now destruct (finish_spec en now l s) as [_ [_ [Htk _]]].
Qed.

Lemma step_resume (i : nat) (now : Z) (net : NetResult) (s : State) (t : Task) :
  nth_error (tasks s) i = Some t ->
  step (Resume i now net) s =
    withTasks (setTask i (mkTask (entry t) (snd (resume i (entry t) now net (pc t) s)))
                       (tasks (fst (resume i (entry t) now net (pc t) s))))
              (fst (resume i (entry t) now net (pc t) s)).
Proof.
  intros E. unfold step. rewrite E.
  now destruct (resume i (entry t) now net (pc t) s).
Qed.

Lemma step_resume_none (i : nat) (now : Z) (net : NetResult) (s : State) :
  nth_error (tasks s) i = None -> step (Resume i now net) s = s.
Proof. intros E. unfold step. now rewrite E. Qed.

(** A continuation keeps the invariant. *)
Lemma resume_inv (i : nat) (now : Z) (net : NetResult) (s : State) :
  Inv s -> Inv (step (Resume i now net) s).
Proof.
  intros H.
  destruct (nth_error (tasks s) i) as [t|] eqn:E;
    [|now rewrite step_resume_none].
  rewrite (@step_resume i now net s t E).
  destruct H as [t0 others Ht Hfl Hin Hw | t0 others Ht Hfl Hp Hr Hseq].
  - (* the first call has requests under way *)
    rewrite Ht in E. destruct i as [|j]; simpl in E.
    + injection E as <-.
      destruct (pc t0) as [ |l|l|l|r] eqn:P; simpl in Hin; try contradiction.
      * (* the primary request settles *)
        destruct net as [data|msg]; cbn [resume].
        -- rewrite tryIpv6_tasks, Ht. cbn [setTask].
           apply tryIpv6_inv; auto.
           ++ cbn [inFlight]. rewrite Hin. simpl. auto.
           ++ rewrite Hin. unfold callSequences. simpl. auto 10.
        -- cbn [fst snd]. change (tasks (record ?e s)) with (tasks s).
           rewrite Ht. cbn [setTask].
           apply inv_flight_tasks; auto.
           cbn [pc]. change (events (record ?e s)) with (events s ++ [e]).
           rewrite outbound_app, Hin. reflexivity.
      * (* the fallback request settles *)
        destruct net as [data|msg]; cbn [resume].
        -- rewrite tryIpv6_tasks, Ht. cbn [setTask].
           apply tryIpv6_inv; auto.
           ++ cbn [inFlight]. rewrite Hin. simpl. auto.
           ++ rewrite Hin. unfold callSequences. simpl. auto 10.
        -- set (s1 := record _ s).
           assert (O : outbound (events s1) = outbound (events s)).
           { subst s1. now apply record_quiet. }
           rewrite tryIpv6_tasks. change (tasks s1) with (tasks s).
           rewrite Ht. cbn [setTask].
           apply tryIpv6_inv; auto.
           ++ cbn [inFlight]. rewrite O, Hin. simpl. auto.
           ++ rewrite O, Hin. unfold callSequences. simpl. auto 10.
      * (* the IPv6 request settles *)
        assert (Hseq : In (outbound (events s)) (callSequences 0)).
        { unfold callSequences. simpl.
          destruct Hin as [-> | [-> | ->]]; auto 10. }
        destruct net as [data|msg]; cbn [resume].
        -- set (l' := mkLocals _ _ _ _).
           destruct (finish_spec (entry t0) now l' s) as [Hq [Hf [Htk Ho]]].
           cbv zeta in *.
           rewrite Htk, Ht. cbn [setTask].
           apply inv_done_tasks; auto.
           ++ apply atRest_waiting, Hw.
           ++ rewrite Ho. exact Hseq.
        -- set (s1 := record _ s).
           assert (O : outbound (events s1) = outbound (events s)).
           { subst s1. now apply record_quiet. }
           destruct (finish_spec (entry t0) now l s1) as [Hq [Hf [Htk Ho]]].
           cbv zeta in *.
           rewrite Htk. change (tasks s1) with (tasks s). rewrite Ht.
           cbn [setTask].
           apply inv_done_tasks; auto.
           ++ apply atRest_waiting, Hw.
           ++ rewrite Ho, O. exact Hseq.
    + (* a waiting call polls while the flag is set *)
      pose proof (Forall_nth _ Hw E) as P. rewrite P. cbn [resume].
      rewrite Hfl. cbn [fst snd]. rewrite Ht. cbn [setTask].
      apply inv_flight_tasks; auto.
      apply Forall_setTask; auto.
  - (* the refresh is over *)
    rewrite Ht in E. destruct i as [|j]; simpl in E.
    + injection E as <-. rewrite Hp. cbn [resume fst snd]. rewrite Ht.
      cbn [setTask].
      apply inv_done_tasks; auto.
    + destruct (Forall_nth _ Hr E) as [P|P]; rewrite P; cbn [resume].
      * rewrite Hfl. cbn [fst snd]. rewrite Ht. cbn [setTask].
        apply inv_done_tasks; auto.
        apply Forall_setTask; auto. now right.
      * cbn [fst snd]. rewrite Ht. cbn [setTask].
        apply inv_done_tasks; auto.
        apply Forall_setTask; auto. now right.
Qed.

(** A call of the refresh made while the flag is set goes to wait. *)
Lemma enter_waits (me : nat) (en : Entry) (now : Z) (s : State) :
  ipUpdateInProgress s = true -> reachesUpdate en now s = true ->
  enter me en now s
    = (record (Logged LDebug "IP update already in progress, waiting...") s, Waiting).
Proof.
  intros Hfl Hr. unfold enter, enterUpdate. rewrite Hfl.
  destruct en; [reflexivity|].
  unfold reachesUpdate in Hr. apply negb_true_iff in Hr. now rewrite Hr.
Qed.

Lemma invoke_inv (en : Entry) (now : Z) (s : State) :
  Inv s -> ipUpdateInProgress s = true -> reachesUpdate en now s = true ->
  Inv (step (Invoke en now) s).
Proof.
  intros H Hfl Hr. unfold step. rewrite enter_waits by assumption.
  destruct H as [t0 others Ht _ Hin Hw | t0 others Ht Hfl' _ _ _];
    [|congruence].
  change (tasks (record ?e s)) with (tasks s). rewrite Ht.
  change ((t0 :: others) ++ [mkTask en Waiting])
    with (t0 :: (others ++ [mkTask en Waiting])).
  apply inv_flight_tasks; auto.
  - rewrite record_quiet; auto.
  - apply Forall_app. split; auto.
Qed.

(** The first call, made when nothing is under way. *)
Lemma first_call_inv (en : Entry) (now : Z) (s : State) :
  idle s -> Inv (step (Invoke en now) s).
Proof.
  intros [Hfl [Ht He]].
  assert (U : Inv (withTasks (tasks (fst (enterUpdate 0 en now s))
                              ++ [mkTask en (snd (enterUpdate 0 en now s))])
                             (fst (enterUpdate 0 en now s)))).
  { unfold enterUpdate. rewrite Hfl.
    destruct (negb (truthy (ipv4' _))).
    - cbn [fst snd]. change (tasks (record ?e ?x)) with (tasks s). rewrite Ht.
      apply inv_flight_tasks; auto.
      cbn [pc inFlight]. change (events (record ?e ?x)) with (events s ++ [e]).
      rewrite He. reflexivity.
    - rewrite tryIpv6_tasks. change (tasks (withFlag true s)) with (tasks s).
      rewrite Ht. apply tryIpv6_inv; auto.
      + cbn [inFlight]. change (events (withFlag true s)) with (events s).
        rewrite He. simpl. auto.
      + change (events (withFlag true s)) with (events s). rewrite He.
        unfold callSequences. simpl. auto. }
  unfold step. rewrite Ht. change (List.length (@nil Task)) with 0%nat.
  destruct en; unfold enter.
  - rewrite (surjective_pairing (enterUpdate 0 ViaUpdatePublicIPs now s)).
    exact U.
  - destruct (_ && _)%bool.
    + rewrite Ht. apply inv_done_tasks; auto.
      rewrite He. unfold callSequences. simpl. auto.
    + rewrite (surjective_pairing (enterUpdate 0 ViaGetPublicIP now s)).
      exact U.
Qed.

Lemma run_inv (ticks : list Tick) :
  forall s, Inv s -> duringRefresh ticks s = true -> Inv (run ticks s).
Proof.
  induction ticks as [|t rest IH]; intros s H Hd; simpl in *; auto.
  apply andb_prop in Hd. destruct Hd as [Ht Hd].
  apply IH; auto.
  destruct t as [en now | who now net].
  - apply andb_prop in Ht. destruct Ht. now apply invoke_inv.
  - now apply resume_inv.
Qed.

(** What the invariant says of the requests and of the results. *)
Lemma inv_outbound (s : State) :
  Inv s -> In (outbound (events s)) (callSequences 0).
Proof.
  intros [t0 others Ht Hfl Hin Hw | t0 others Ht Hfl Hp Hr Hseq]; auto.
  unfold callSequences. simpl.
  destruct (pc t0); simpl in Hin; try contradiction;
    try destruct Hin as [-> | [-> | ->]]; subst; rewrite ?Hin; auto 10.
Qed.

Lemma inv_results (s : State) (i : nat) (t : Task) (r : Result) :
  Inv s -> nth_error (tasks s) i = Some t -> pc t = Returned r ->
  r = deliver (entry t) s
  /\ ipUpdateInProgress s = false
  /\ exists t0, nth_error (tasks s) 0 = Some t0
                /\ pc t0 = Returned (deliver (entry t0) s).
Proof.
  intros [t0 others Ht Hfl Hin Hw | t0 others Ht Hfl Hp Hr Hseq] E P;
    rewrite Ht in *.
  - destruct i as [|j]; simpl in E.
    + injection E as <-. rewrite P in Hin. contradiction.
    + pose proof (Forall_nth _ Hw E) as Q. congruence.
  - assert (R : r = deliver (entry t) s).
    { destruct i as [|j]; simpl in E.
      - injection E as <-. congruence.
      - destruct (Forall_nth _ Hr E) as [Q|Q]; congruence. }
    repeat split; auto. exists t0. auto.
Qed.

(** *** Every call comes to its end *)

Lemma resume_tasks (me : nat) (en : Entry) (now : Z) (net : NetResult) (p : Pc)
      (s : State) :
  tasks (fst (resume me en now net p s)) = tasks s.
Proof.
  destruct p as [ |l|l|l|r]; cbn [resume].
  - now destruct (ipUpdateInProgress s).
  - destruct net; [apply tryIpv6_tasks | reflexivity].
  - destruct net; [apply tryIpv6_tasks | now rewrite tryIpv6_tasks].
  - destruct net.
    + now destruct (finish_spec en now (mkLocals (oldIpv4 l) (oldIpv6 l) (ipv4' l) data) s)
        as [_ [_ [H _]]].
    + match goal with
      | |- context [finish en now l ?x] =>
          now destruct (finish_spec en now l x) as [_ [_ [H _]]]
      end.
  - reflexivity.
Qed.

Lemma tryIpv6_rank (me : nat) (en : Entry) (now : Z) (l : Locals) (s : State) :
  (rank (snd (tryIpv6 me en now l s)) <= 1)%nat.
Proof.
  unfold tryIpv6. destruct (negb _); simpl; auto.
Qed.

Lemma resume_rank (me : nat) (en : Entry) (now : Z) (net : NetResult) (p : Pc)
      (s : State) :
  (rank (snd (resume me en now net p s)) <= Nat.pred (rank p))%nat.
Proof.
  destruct p as [ |l|l|l|r]; cbn [resume].
  - now destruct (ipUpdateInProgress s).
  - destruct net; simpl; auto.
    etransitivity; [apply tryIpv6_rank | auto].
  - destruct net; simpl; apply tryIpv6_rank.
  - destruct net; simpl; auto.
  - simpl. auto.
Qed.

Lemma headRank_resume (now : Z) (net : NetResult) (s : State) :
  (headRank (step (Resume 0 now net) s) <= Nat.pred (headRank s))%nat.
Proof.
  unfold headRank at 2.
  destruct (tasks s) as [|t0 others] eqn:Ht.
  - rewrite step_resume_none by now rewrite Ht. unfold headRank. now rewrite Ht.
  - rewrite (@step_resume 0 now net s t0) by now rewrite Ht.
    unfold headRank. cbn [tasks withTasks]. rewrite resume_tasks, Ht.
    cbn [setTask pc]. apply resume_rank.
Qed.

Lemma inv_quiet (s : State) : Inv s -> headRank s = 0%nat -> Quiet s.
Proof.
  intros [t0 others Ht Hfl Hin Hw | t0 others Ht Hfl Hp Hr Hseq] Hk.
  - unfold headRank in Hk. rewrite Ht in Hk.
    destruct (pc t0); simpl in *; try contradiction; discriminate.
  - split; auto. rewrite Ht. constructor; eauto.
    eapply Forall_impl; [|exact Hr].
    intros t [Q|Q]; eauto.
Qed.

Lemma nth_error_setTask_same (i : nat) (t : Task) (ts : list Task) :
  (i < List.length ts)%nat -> nth_error (setTask i t ts) i = Some t.
Proof.
  revert i. induction ts as [|x ts IH]; intros i H; simpl in H; [lia|].
  destruct i; simpl; auto. apply IH. lia.
Qed.

Lemma nth_error_setTask_other (i j : nat) (t : Task) (ts : list Task) :
  i <> j -> nth_error (setTask i t ts) j = nth_error ts j.
Proof.
  revert i j. induction ts as [|x ts IH]; intros i j H.
  - now destruct i.
  - destruct i, j; simpl; auto; try congruence.
Qed.

Lemma setTask_length (i : nat) (t : Task) (ts : list Task) :
  List.length (setTask i t ts) = List.length ts.
Proof.
  revert i. induction ts as [|x ts IH]; intros i.
  - now destruct i.
  - destruct i; simpl; auto.
Qed.

(** A poll tick when nothing is under way: the call returns, and nothing
    else changes. *)
Lemma quiet_resume (i : nat) (now : Z) (net : NetResult) (s : State) (t : Task) :
  Quiet s -> nth_error (tasks s) i = Some t ->
  exists r,
    step (Resume i now net) s
      = withTasks (setTask i (mkTask (entry t) (Returned r)) (tasks s)) s.
Proof.
  intros [Hfl Hall] E. rewrite (@step_resume i now net s t E).
  destruct (Forall_nth _ Hall E) as [P|[r P]]; rewrite P; cbn [resume].
  - rewrite Hfl. cbn [fst snd]. eauto.
  - cbn [fst snd]. eauto.
Qed.

Lemma quiet_polls (now : Z) (net : NetResult) (l : list nat) :
  forall s,
    Quiet s ->
    let s' := run (map (fun i => Resume i now net) l) s in
    Quiet s'
    /\ List.length (tasks s') = List.length (tasks s)
    /\ forall i t, nth_error (tasks s) i = Some t ->
          exists t', nth_error (tasks s') i = Some t'
                     /\ (returned t = true \/ In i l -> returned t' = true).
Proof.
  induction l as [|a l IH]; intros s Hq; cbn [map run]; cbv zeta.
  - split; [exact Hq|]. split; [reflexivity|].
    intros i t E. exists t. split; auto.
    intros [H|[]]. exact H.
  - destruct (nth_error (tasks s) a) as [ta|] eqn:Ea.
    + destruct (@quiet_resume a now net s ta Hq Ea) as [r Hstep].
      rewrite Hstep.
      set (s1 := withTasks _ s).
      assert (Hq1 : Quiet s1).
      { destruct Hq as [Hfl Hall]. split; [exact Hfl|].
        apply Forall_setTask; [exact Hall|]. right. eexists. reflexivity. }
      destruct (IH s1 Hq1) as [Hq' [Hlen Hres]]. cbv zeta in *.
      split; [exact Hq'|]. split.
      { rewrite Hlen. apply setTask_length. }
      intros i t E.
      destruct (Nat.eq_dec a i) as [->|Hne].
      * destruct (Hres i (mkTask (entry ta) (Returned r))) as [t' [E' R']].
        { apply nth_error_setTask_same. apply nth_error_Some. congruence. }
        exists t'. split; auto.
      * destruct (Hres i t) as [t' [E' R']].
        { subst s1. cbn [tasks withTasks].
          now rewrite nth_error_setTask_other. }
        exists t'. split; auto.
        intros [H|[H|H]]; auto; congruence.
    + rewrite step_resume_none by assumption.
      destruct (IH s Hq) as [Hq' [Hlen Hres]]. cbv zeta in *.
      split; [exact Hq'|]. split; [exact Hlen|].
      intros i t E. destruct (Hres i t E) as [t' [E' R']].
      exists t'. split; auto.
      intros [H|[H|H]]; auto; congruence.
Qed.

Lemma resume_length (i : nat) (now : Z) (net : NetResult) (s : State) :
  List.length (tasks (step (Resume i now net) s)) = List.length (tasks s).
Proof.
  destruct (nth_error (tasks s) i) as [t|] eqn:E.
  - rewrite (@step_resume i now net s t E). cbn [tasks withTasks].
    now rewrite setTask_length, resume_tasks.
  - now rewrite step_resume_none.
Qed.

(** From any state of the invariant, the ticks of [drain] bring every
    call to its end. *)
Lemma drain_returns (now : Z) (net : NetResult) (s : State) :
  Inv s -> forallb returned (tasks (run (drain now net s) s)) = true.
Proof.
  intros H. unfold drain.
  set (n := List.length (tasks s)).
  cbn [app run].
  set (s3 := step (Resume 0 now net) (step (Resume 0 now net) (step (Resume 0 now net) s))).
  assert (H3 : Inv s3) by (subst s3; repeat apply resume_inv; exact H).
  assert (K : headRank s3 = 0%nat).
  { subst s3.
    pose proof (headRank_resume now net s) as K1.
    pose proof (headRank_resume now net (step (Resume 0 now net) s)) as K2.
    pose proof (headRank_resume now net
                  (step (Resume 0 now net) (step (Resume 0 now net) s))) as K3.
    assert (headRank s <= 3)%nat.
    { unfold headRank. destruct (tasks s) as [|t0 ?]; auto.
      destruct (pc t0); simpl; auto. }
    lia. }
  assert (L : List.length (tasks s3) = n).
  { subst s3 n. now rewrite !resume_length. }
  destruct (@quiet_polls now net (seq 0 n) s3 (@inv_quiet s3 H3 K)) as [_ [Hlen Hres]].
  cbv zeta in *.
  apply forallb_forall. intros t' Hin.
  apply In_nth_error in Hin. destruct Hin as [i Ei].
  assert (Hi : (i < n)%nat).
  { rewrite <- L, <- Hlen. apply nth_error_Some. congruence. }
  destruct (nth_error (tasks s3) i) as [t|] eqn:E3.
  - destruct (Hres i t E3) as [t'' [E'' R]].
    rewrite Ei in E''. injection E'' as <-.
    apply R. right. apply in_seq. lia.
  - apply nth_error_None in E3. lia.
Qed.
End Refresh.

(** ** The statements at concrete inputs *)

Section Closed.
Import Scenario.

(** C1, as stated, fails: with two TXT records of one name in the desired
    set, each run replaces the record the other spec left, so the second run
    updates again. *)
Lemma shared_key_never_settles :
  let first := batchEnsureRecords ZoneServer.serve config [note; noteMore] fresh in
  let second := batchEnsureRecords ZoneServer.serve config [note; noteMore] (snd first) in
  fst first = Ok [note; noteMore]
  /\ exists rest,
       mutations (added (trace (snd first)) (trace (snd second)))
         = ECall (UpdateRecord (JStr "example.com-TXT-data")) :: rest.
Proof. vm_compute. split; [reflexivity | eexists; reflexivity]. Qed.


(** C3, as stated, fails: the parameters [convertToTechnitiumFormat] builds
  carry the name as [domain] and the content as [ipAddress], which
  [convertToStandardFormat] does not read. *)
Lemma direct_roundtrip_loses_name_and_content :
let back := convertToStandardFormat
              (convertToTechnitiumFormat app (JStr "example.com")) in
get "name" app = JStr "app.example.com" /\ get "name" back = JUndef
/\ get "content" app = JStr "1.2.3.4" /\ get "content" back = JUndef.
Proof. vm_compute. auto. Qed.

Lemma roundtrip_through_zone_record_witness :
exists stored,
  ZoneServer.recordOfParams
    (urlParams (convertToTechnitiumFormat app (JStr "example.com"))) = Some stored
  /\ get "name" (convertToStandardFormat stored) = get "name" app
  /\ get "type" (convertToStandardFormat stored) = get "type" app
  /\ get "content" (convertToStandardFormat stored) = get "content" app
  /\ get "ttl" (convertToStandardFormat stored) = get "ttl" app.
Proof.
apply (@roundtrip_through_zone_record app (JStr "example.com")
         "app.example.com" "A" "1.2.3.4" 300);
  try reflexivity; discriminate.
Defined.

(** The content of an MX record is sent as [exchange], which
    [convertToStandardFormat] does not read: the cached content is the whole
    [rData] object, never equal to the spec's string, and every run updates
    the record. *)
Example mx_is_updated_on_every_run :
  let first := batchEnsureRecords ZoneServer.serve config [mail] fresh in
  let second := batchEnsureRecords ZoneServer.serve config [mail] (snd first) in
  map (get "content") (cached (recordCache (snd first)))
    = [JObj [("preference"%string, JNum 10); ("exchange"%string, JStr "mail.example.com")]]
  /\ filter isUpdateCall (added (trace (snd first)) (trace (snd second)))
     = [ECall (UpdateRecord (JStr "example.com-MX-data"))].
Proof. vm_compute. split; reflexivity. Qed.

(** The apex CNAME before the zone server: it passes [validateRecord] with
  a warning, and [createRecord] sends it to the server, which stores it. *)
Lemma apex_cname_reaches_backend :
fst (validateRecord apex fresh) = Ok tt
/\ trace (snd (validateRecord apex fresh)) = [ELog LWarn apexWarning]
/\ fst (createRecord ZoneServer.serve config apex fresh) = Ok apex
/\ In (EHttp (addRequest config apex))
      (trace (snd (createRecord ZoneServer.serve config apex fresh)))
/\ List.length (backend (snd (createRecord ZoneServer.serve config apex fresh))) = 1%nat.
Proof. vm_compute. repeat split; auto 10. Qed.

Lemma apex_cname_is_accepted_witness :
validateRecord apex fresh = (Ok tt, withTrace (trace fresh ++ apexLines apex) fresh)
/\ In (EHttp (addRequest config apex))
      (trace (snd (createRecord ZoneServer.serve config apex fresh)))
/\ Legacy.validateRecord (technitiumZone config) (get "name" apex)
     (get "type" apex) (get "content" apex) []
   = Thrown "CNAME records cannot be created at zone apex. Use A or ANAME instead.".
Proof.
apply (@apex_cname_is_accepted _ ZoneServer.serve config apex fresh);
  reflexivity.
Defined.

(** C6 at three specs of which the second has no content: the first and
  the third are created and returned. *)
Example second_of_three_fails :
fst (batchEnsureRecords ZoneServer.serve config [app; broken; note] fresh)
  = Ok [app; note]
/\ In (ELog LError "Failed to process record db.example.com: Record content is required")
      (trace (snd (batchEnsureRecords ZoneServer.serve config [app; broken; note] fresh))).
Proof. vm_compute. split; auto 20. Qed.

(** C7, as stated, fails: a spec with [manage] set to [false] is created. *)
Lemma unmanaged_spec_is_created :
fst (batchEnsureRecords ZoneServer.serve config [unmanaged] fresh) = Ok [unmanaged]
/\ mutations (trace (snd (batchEnsureRecords ZoneServer.serve config [unmanaged] fresh)))
   = [ECall CreateRecord; EHttp (addRequest config unmanaged)]
/\ List.length (backend (snd (batchEnsureRecords ZoneServer.serve config [unmanaged] fresh)))
   = 1%nat.
Proof. vm_compute. auto. Qed.


End Closed.

(** C5 at the address 999.1.1.1: [validateRecord] accepts the spec and
    [createRecord] sends it to the backend, whatever the backend is.  Only
    [validateRecord] of the earlier class, through [isValidIPv4], rejects
    it. *)
Theorem invalid_ipv4_reaches_backend :
  forall (B : Type) (serve : Request -> B -> Reply * B) (config : Config)
         (w : World B),
    fst (validateRecord Scenario.badAddress w) = Ok tt
    /\ In (EHttp (addRequest config Scenario.badAddress))
          (trace (snd (createRecord serve config Scenario.badAddress w)))
    /\ ZoneServer.param "ipAddress" (params (addRequest config Scenario.badAddress))
       = Some "999.1.1.1"%string
    /\ Legacy.isValidIPv4 (JStr "999.1.1.1") = false
    /\ Legacy.validateRecord (technitiumZone config)
         (get "name" Scenario.badAddress) (get "type" Scenario.badAddress)
         (get "content" Scenario.badAddress) []
       = Thrown "Invalid IPv4 address: 999.1.1.1".
Proof.
  intros B serve config w.
  assert (A : accepted Scenario.badAddress = true) by reflexivity.
  split; [now rewrite validateRecord_accepted|].
  split; [now apply createRecord_sends|].
  repeat split; reflexivity.
Qed.

(** C9 at a cache that holds 203.0.113.7: the primary lookup fails, the
    fallback is tried and fails too, the IPv6 lookup fails; the call returns
    without throwing, but with [undefined], and the address that was cached
    is gone. *)
Theorem failed_refresh_drops_cached_ipv4 :
  let s := Resolver.run
             [ Resolver.Invoke Resolver.ViaGetPublicIP 4000000;
               Resolver.Resume 0 4005000 Scenario.timeout;
               Resolver.Resume 0 4010000 Scenario.timeout;
               Resolver.Resume 0 4015000 Scenario.timeout ]
             Scenario.stale in
  Resolver.ipv4 (Resolver.ipCache Scenario.stale) = JStr "203.0.113.7"
  /\ Resolver.outbound (Resolver.events s)
     = [ (0%nat, "https://api.ipify.org"%string);
         (0%nat, "https://ifconfig.me/ip"%string);
         (0%nat, "https://api6.ipify.org"%string) ]
  /\ map Resolver.pc (Resolver.tasks s) = [Resolver.Returned (Resolver.GotIp JUndef)]
  /\ Resolver.ipv4 (Resolver.ipCache s) = JUndef.
Proof. vm_compute. auto. Qed.

(* ================================================================== *)
(** * Further properties of the provider *)
(* ================================================================== *)


Section ProviderFacts.
Variable B : Type.
Variable serve : Request -> B -> Reply * B.
Variable config : Config.

Lemma refreshRecordCache_eq (w : World B) :
  refreshRecordCache serve config w =
    let t := trace w ++ [EHttp (listRequest config)] in
    match serve (listRequest config) (backend w) with
    | (NetError e, b) => (Thrown e, mkWorld b (recordCache w) (clock w) t)
    | (Data d, b) =>
        if strictNe (status d) (JStr "ok") then
          (Thrown ("Technitium API Error: " ++ toString (status d))%string,
           mkWorld b (recordCache w) (clock w) t)
        else
          match response d with
          | None =>
              (Thrown "Cannot read properties of undefined (reading 'records')",
               mkWorld b (recordCache w) (clock w) t)
          | Some p =>
              let l := map convertToStandardFormat
                         (match records p with Some x => x | None => [] end) in
              (Ok l, mkWorld b (mkCache l (clock w)) (clock w) t)
          end
    end.
Proof.
  unfold refreshRecordCache, bind, request. fold (listRequest config).
  destruct (serve (listRequest config) (backend w)) as [[e|d] b]; simpl; auto.
  destruct (strictNe (status d) (JStr "ok")); simpl; auto.
  destruct (response d); reflexivity.
Qed.

(** What a rejected spec makes [validateRecord] do. *)
Lemma validateRecord_rejected_eq (spec : Obj) (w : World B) :
  accepted spec = false ->
  exists e t,
    validateRecord spec w = (Thrown e, withTrace (trace w ++ t) w)
    /\ requests t = []
    /\ In e [ "Record type is required"%string; "Record name is required"%string;
              "Record content is required"%string;
              "TTL must be a positive integer"%string ].
Proof.
  unfold accepted, validateRecord. intros H.
  destruct (truthy (get "type" spec)); simpl in *.
  2:{ exists "Record type is required"%string, []. rewrite withTrace_same.
      simpl. auto. }
  destruct (truthy (get "name" spec)); simpl in *.
  2:{ exists "Record name is required"%string, []. rewrite withTrace_same.
      simpl. auto. }
  destruct (truthy (get "content" spec)); simpl in *.
  2:{ exists "Record content is required"%string, []. rewrite withTrace_same.
      simpl. auto 10. }
  apply negb_false_iff in H. rewrite H.
  exists "TTL must be a positive integer"%string.
  unfold bind, log, emit, ret, throw, withTrace.
  destruct (strictEq (get "type" spec) (JStr "CNAME")
            && strictEq (get "name" spec) (get "zone" spec)); simpl.
  - exists [ELog LWarn apexWarning]. simpl. auto 10.
  - exists []. rewrite app_nil_r. destruct w. simpl. auto 10.
Qed.

Lemma createRecord_rejected_eq (spec : Obj) (w : World B) :
  accepted spec = false ->
  exists e t,
    createRecord serve config spec w
      = (Thrown e, withTrace (trace w ++ ECall CreateRecord :: t) w)
    /\ requests t = []
    /\ In e [ "Record type is required"%string; "Record name is required"%string;
              "Record content is required"%string;
              "TTL must be a positive integer"%string ].
Proof.
  intros H. unfold createRecord. unfold bind at 1. simpl. unfold bind at 1.
  destruct (@validateRecord_rejected_eq spec
              (mkWorld (backend w) (recordCache w) (clock w)
                       (trace w ++ [ECall CreateRecord])) H)
    as [e [t [E [Rt He]]]].
  rewrite E. exists e, t. unfold withTrace. simpl.
  rewrite <- app_assoc. auto.
Qed.

Lemma updateRecord_eq (id : JsVal) (spec : Obj) (w : World B) :
  updateRecord serve config id spec w =
    match deleteRecord serve config id (logged (ECall (UpdateRecord id)) w) with
    | (Ok _, w1) => createRecord serve config spec w1
    | (Thrown e, w1) => (Thrown e, w1)
    end.
Proof. reflexivity. Qed.

Lemma request_trace (r : Request) (w : World B) :
  trace (snd (request serve r w)) = trace w ++ [EHttp r]
  /\ recordCache (snd (request serve r w)) = recordCache w
  /\ backend (snd (request serve r w)) = snd (serve r (backend w)).
Proof.
  unfold request. destruct (serve r (backend w)) as [[e|d] b]; auto.
Qed.

Lemma requests_app (t u : list Eff.Event) : requests (t ++ u) = requests t ++ requests u.
Proof. unfold requests. apply filter_app. Qed.

End ProviderFacts.

(** X1.  [refreshRecordCache] sends the one list request and is all or
    nothing: when it returns, the cache is exactly the converted records of
    the reply, stamped with the current time; when it throws (rejected
    request, status other than "ok", reply without [response]) the cache is
    what it was. *)
Theorem refresh_all_or_nothing :
  forall (B : Type) (serve : Request -> B -> Reply * B) (config : Config)
         (w : World B),
    let r := refreshRecordCache serve config w in
    added (trace w) (trace (snd r)) = [EHttp (listRequest config)]
    /\ backend (snd r) = snd (serve (listRequest config) (backend w))
    /\ match fst r with
       | Ok l =>
           recordCache (snd r) = mkCache l (clock w)
           /\ exists d p,
                fst (serve (listRequest config) (backend w)) = Data d
                /\ status d = JStr "ok" /\ response d = Some p
                /\ l = map convertToStandardFormat
                         (match records p with Some x => x | None => [] end)
       | Thrown _ => recordCache (snd r) = recordCache w
       end.
Proof.
  intros B serve config w r. subst r. rewrite refreshRecordCache_eq. cbv zeta.
  destruct (serve (listRequest config) (backend w)) as [[e|d] b]; simpl.
  - rewrite added_app. auto.
  - destruct (strictNe (status d) (JStr "ok")) eqn:S; simpl.
    + rewrite added_app. auto.
    + destruct (response d) as [p|] eqn:R; simpl; rewrite added_app;
        repeat split; auto.
      exists d, p. repeat split; auto.
      apply strictEq_true. unfold strictNe in S. now destruct (strictEq _ _).
Qed.

(** X2.  Validation gates [createRecord]: for a spec that [validateRecord]
    rejects (no type, no name, no content, or a negative TTL) the call throws
    one of the four validation errors, sends no request, and leaves backend
    and cache as they were. *)
Theorem rejected_spec_sends_nothing :
  forall (B : Type) (serve : Request -> B -> Reply * B) (config : Config)
         (spec : Obj) (w : World B),
    accepted spec = false ->
    let r := createRecord serve config spec w in
    (exists e,
       fst r = Thrown e
       /\ In e [ "Record type is required"%string; "Record name is required"%string;
                 "Record content is required"%string;
                 "TTL must be a positive integer"%string ])
    /\ requests (added (trace w) (trace (snd r))) = []
    /\ backend (snd r) = backend w
    /\ recordCache (snd r) = recordCache w.
Proof.
  intros B serve config spec w H r. subst r.
  destruct (@createRecord_rejected_eq B serve config spec w H) as [e [t [E [Rt He]]]].
  rewrite E. simpl. split; [eauto|].
  rewrite added_app. simpl. auto.
Qed.

(** X3.  A create the backend refuses: when the reply to the add request has
    a status other than "ok", [createRecord] throws "Create failed: <status>",
    has sent that one request and no list request, and the cache is not
    touched. *)
Theorem refused_create_keeps_cache :
  forall (B : Type) (serve : Request -> B -> Reply * B) (config : Config)
         (spec : Obj) (w : World B) (d : Envelope) (b : B),
    accepted spec = true ->
    serve (addRequest config spec) (backend w) = (Data d, b) ->
    strictEq (status d) (JStr "ok") = false ->
    let r := createRecord serve config spec w in
    fst r = Thrown ("Create failed: " ++ toString (status d))%string
    /\ requests (added (trace w) (trace (snd r))) = [EHttp (addRequest config spec)]
    /\ backend (snd r) = b
    /\ recordCache (snd r) = recordCache w.
Proof.
  intros B serve config spec w d b Ha Hs Hn r. subst r.
  rewrite createRecord_accepted by assumption. cbv zeta.
  unfold request. simpl backend. rewrite Hs. unfold strictNe. rewrite Hn. simpl.
  rewrite <- app_assoc, added_app. rewrite !requests_app. simpl.
  repeat split; auto.
  unfold apexLines. destruct (_ && _); reflexivity.
Qed.


Section UpdateFacts.
Variable B : Type.
Variable serve : Request -> B -> Reply * B.
Variable config : Config.

(** What an accepted spec makes [createRecord] add to the trace: the add
    request is the first request of it. *)
Lemma createRecord_accepted_trace (spec : Obj) (w : World B) :
  accepted spec = true ->
  exists t rest,
    trace (snd (createRecord serve config spec w)) = trace w ++ t
    /\ requests t = EHttp (addRequest config spec) :: rest.
Proof.
  intros H. rewrite createRecord_accepted by assumption. cbv zeta.
  set (w1 := withTrace _ w).
  assert (T1 : trace w1 = trace w ++ ECall CreateRecord :: apexLines spec ++
                            [ELog LTrace (traceLine spec)]) by reflexivity.
  assert (Q : requests (ECall CreateRecord :: apexLines spec ++
                        [ELog LTrace (traceLine spec)]) = []).
  { unfold apexLines. destruct (_ && _); reflexivity. }
  destruct (request_trace serve (addRequest config spec) w1) as [T2 _].
  destruct (request serve (addRequest config spec) w1) as [[d|e] w2];
    cbn [snd] in T2.
  - destruct (strictNe (status d) (JStr "ok")); cbn [snd].
    + eexists. exists []. rewrite T2, T1, <- app_assoc. split; [reflexivity|].
      rewrite requests_app, Q. reflexivity.
    + destruct (@only_refreshRecordCache B serve config (fun _ => true)
                  (fun _ _ => eq_refl) w2) as [t [Ht _]].
      destruct (refreshRecordCache serve config w2) as [[l|e] w3];
        cbn [snd] in *; eexists; exists (requests t);
        rewrite Ht, T2, T1, <- !app_assoc; (split; [reflexivity|]);
        rewrite !requests_app, Q; reflexivity.
  - cbn [snd]. eexists. exists []. rewrite T2, T1, <- app_assoc.
    split; [reflexivity|]. rewrite requests_app, Q. reflexivity.
Qed.

End UpdateFacts.

(** X4.  [updateRecord] does not look at what [deleteRecord] returns: when
    the record is cached and the backend refuses the delete (a status other
    than "ok"), the add request for the new spec is sent all the same, right
    after the delete request. *)
Theorem update_goes_on_after_refused_delete :
  forall (B : Type) (serve : Request -> B -> Reply * B) (config : Config)
         (id : JsVal) (spec existing : Obj) (w : World B) (d : Envelope) (b : B),
    cachedById id w = Some existing ->
    serve (deleteRequest config existing) (backend w) = (Data d, b) ->
    strictEq (status d) (JStr "ok") = false ->
    accepted spec = true ->
    exists rest,
      requests (added (trace w) (trace (snd (updateRecord serve config id spec w))))
        = EHttp (deleteRequest config existing)
          :: EHttp (addRequest config spec) :: rest.
Proof.
  intros B serve config id spec existing w d b Hf Hs Hn Ha.
  rewrite updateRecord_eq.
  rewrite (@deleteRecord_present B serve config id existing
             (logged (ECall (UpdateRecord id)) w) Hf).
  cbv zeta. simpl backend. rewrite Hs, Hn.
  set (w1 := mkWorld _ _ _ _).
  destruct (@createRecord_accepted_trace B serve config spec w1 Ha)
    as [t [rest [Ht Rt]]].
  exists rest. rewrite Ht. subst w1. simpl trace.
  rewrite <- !app_assoc, added_app. simpl. rewrite Rt. reflexivity.
Qed.

(** X5.  [updateRecord] deletes before it validates: for a cached record
    whose delete the backend accepts and a new spec that [validateRecord]
    rejects, the call throws after the delete request, sends no add request,
    and the record is gone from the cache. *)
Theorem update_with_rejected_spec_loses_record :
  forall (B : Type) (serve : Request -> B -> Reply * B) (config : Config)
         (id : JsVal) (spec existing : Obj) (w : World B) (d : Envelope) (b : B),
    cachedById id w = Some existing ->
    serve (deleteRequest config existing) (backend w) = (Data d, b) ->
    strictEq (status d) (JStr "ok") = true ->
    accepted spec = false ->
    let r := updateRecord serve config id spec w in
    (exists e, fst r = Thrown e)
    /\ requests (added (trace w) (trace (snd r)))
       = [EHttp (deleteRequest config existing)]
    /\ backend (snd r) = b
    /\ recordCache (snd r) = without id (recordCache w)
    /\ cachedById id (snd r) = None.
Proof.
  intros B serve config id spec existing w d b Hf Hs Hn Ha r. subst r.
  rewrite updateRecord_eq.
  rewrite (@deleteRecord_present B serve config id existing
             (logged (ECall (UpdateRecord id)) w) Hf).
  cbv zeta. simpl backend. rewrite Hs, Hn.
  set (w1 := mkWorld _ _ _ _).
  destruct (@createRecord_rejected_eq B serve config spec w1 Ha)
    as [e [t [E [Rt He]]]].
  rewrite E. simpl. split; [eauto|].
  rewrite <- !app_assoc, added_app. simpl. unfold requests in *. simpl.
  rewrite Rt. repeat split; auto.
  unfold cachedById. simpl.
  destruct (find _ _) as [x|] eqn:F; auto.
  apply find_some in F. destruct F as [Hin Hx].
  apply filter_In in Hin. destruct Hin as [_ Hne].
  unfold strictNe in Hne. rewrite Hx in Hne. discriminate.
Qed.

(** X6.  A delete the backend accepts: [deleteRecord] returns [true], has
    sent the one delete request, and the cache keeps, in their order, exactly
    the records whose id is not the given one; its time stamp is not
    touched. *)
Theorem accepted_delete_filters_cache :
  forall (B : Type) (serve : Request -> B -> Reply * B) (config : Config)
         (id : JsVal) (existing : Obj) (w : World B) (d : Envelope) (b : B),
    cachedById id w = Some existing ->
    serve (deleteRequest config existing) (backend w) = (Data d, b) ->
    strictEq (status d) (JStr "ok") = true ->
    let r := deleteRecord serve config id w in
    fst r = Ok true
    /\ requests (added (trace w) (trace (snd r)))
       = [EHttp (deleteRequest config existing)]
    /\ lastUpdated (recordCache (snd r)) = lastUpdated (recordCache w)
    /\ (forall x, In x (cached (recordCache (snd r))) <->
                  In x (cached (recordCache w)) /\ strictEq (get "id" x) id = false)
    /\ cachedById id (snd r) = None.
Proof.
  intros B serve config id existing w d b Hf Hs Hn r. subst r.
  rewrite (@deleteRecord_present B serve config id existing w Hf).
  cbv zeta. rewrite Hs, Hn. simpl. rewrite added_app.
  split; [reflexivity|]. split; [reflexivity|]. split; [reflexivity|].
  split.
  - intros x. rewrite filter_In. unfold strictNe.
    destruct (strictEq (get "id" x) id); simpl; intuition discriminate.
  - unfold cachedById. simpl.
    destruct (find _ _) as [x|] eqn:F; auto.
    apply find_some in F. destruct F as [Hin Hx].
    apply filter_In in Hin. destruct Hin as [_ Hne].
    unfold strictNe in Hne. rewrite Hx in Hne. discriminate.
Qed.

(** X7.  Records without an address or CNAME target all get the id
    "<name>-<type>-data": two such records of one name and type (two TXT
    records, say) have the same id, and an accepted delete of that id drops
    both from the cache. *)
Theorem delete_drops_records_sharing_the_id :
  forall (B : Type) (serve : Request -> B -> Reply * B) (config : Config)
         (t1 t2 existing : Obj) (w : World B) (d : Envelope) (b : B),
    plainData t1 = true -> plainData t2 = true ->
    get "name" t1 = get "name" t2 -> get "type" t1 = get "type" t2 ->
    let id := get "id" (convertToStandardFormat t1) in
    cachedById id w = Some existing ->
    serve (deleteRequest config existing) (backend w) = (Data d, b) ->
    strictEq (status d) (JStr "ok") = true ->
    id = JStr (toString (get "name" t1) ++ "-" ++ toString (get "type" t1) ++ "-data")
    /\ get "id" (convertToStandardFormat t2) = id
    /\ ~ In (convertToStandardFormat t1)
            (cached (recordCache (snd (deleteRecord serve config id w))))
    /\ ~ In (convertToStandardFormat t2)
            (cached (recordCache (snd (deleteRecord serve config id w)))).
Proof.
  intros B serve config t1 t2 existing w d b P1 P2 Hn Ht id Hf Hs Hok.
  assert (I : forall t, plainData t = true ->
                get "id" (convertToStandardFormat t)
                = JStr (toString (get "name" t) ++ "-" ++
                        toString (get "type" t) ++ "-data")).
  { intros t P. unfold plainData in P. apply andb_prop in P. destruct P as [Pa Pc].
    apply negb_true_iff in Pa. apply negb_true_iff in Pc.
    unfold convertToStandardFormat. cbn [get String.eqb Ascii.eqb Bool.eqb].
    unfold or_. rewrite Pa, Pc. reflexivity. }
  assert (I1 := I t1 P1). assert (I2 := I t2 P2).
  assert (E2 : get "id" (convertToStandardFormat t2) = id).
  { subst id. rewrite I1, I2, Hn, Ht. reflexivity. }
  split; [exact I1|]. split; [exact E2|].
  rewrite (@deleteRecord_present B serve config id existing w Hf).
  cbv zeta. rewrite Hs, Hok. simpl.
  assert (R : strictEq id id = true).
  { subst id. rewrite I1. simpl. apply String.eqb_refl. }
  split; intros Hin; apply filter_In in Hin; destruct Hin as [_ Hne];
    unfold strictNe in Hne.
  - fold id in Hne. rewrite R in Hne. discriminate.
  - rewrite E2, R in Hne. discriminate.
Qed.

(** X8.  [listRecords] returns, in cache order, exactly the cached records
    that pass the filter: a record is listed when it is cached, has the type
    asked for if one is given, and the name asked for if one is given; with
    the empty filter the whole cache is returned. *)
Theorem listRecords_filters_the_cache :
  forall (B : Type) (serve : Request -> B -> Reply * B) (config : Config)
         (params : Obj) (w w' : World B) (l : list Obj),
    getRecordsFromCache serve config w = (Ok l, w') ->
    exists listed,
      listRecords serve config params w = (Ok listed, w')
      /\ Subsequence listed l
      /\ (forall r, In r listed <->
                    In r l
                    /\ (truthy (get "type" params) = true ->
                        strictEq (get "type" r) (get "type" params) = true)
                    /\ (truthy (get "name" params) = true ->
                        strictEq (get "name" r) (get "name" params) = true))
      /\ (params = [] -> listed = l).
Proof.
  intros B serve config params w w' l H.
  exists (filter (keeps params) l).
  split; [unfold listRecords, bind; now rewrite H|].
  split; [|split].
  - clear H. induction l as [|x l IH]; simpl; [constructor|].
    destruct (keeps params x); now constructor.
  - intros r. rewrite filter_In. unfold keeps, strictNe.
    destruct (truthy (get "type" params));
      destruct (truthy (get "name" params));
      destruct (strictEq (get "type" r) (get "type" params));
      destruct (strictEq (get "name" r) (get "name" params));
      simpl; intuition discriminate.
  - intros ->. clear H. induction l as [|x l IH]; simpl; [reflexivity|].
    now rewrite IH.
Qed.

Lemma partial_subsequence (B : Type) (serve : Request -> B -> Reply * B)
      (config : Config) (specs rs : list Obj) (w w' : World B) :
  PartialSuccess serve config specs w rs w' -> Subsequence rs specs.
Proof.
  induction 1; constructor; assumption.
Qed.

(** X9.  Whatever the backend does, what [batchEnsureRecords] returns is the
    input with some specs left out, in the input's order: no spec is returned
    twice, none that was not asked for, and never more than were given. *)
Theorem batch_returns_subsequence_of_input :
  forall (B : Type) (serve : Request -> B -> Reply * B) (config : Config)
         (specs : list Obj) (w : World B),
    match fst (batchEnsureRecords serve config specs w) with
    | Ok rs => Subsequence rs specs /\ (List.length rs <= List.length specs)%nat
    | Thrown _ => specs <> []
    end.
Proof.
  intros B serve config specs w.
  assert (L : forall (xs ys : list Obj), Subsequence xs ys ->
                (List.length xs <= List.length ys)%nat).
  { induction 1; simpl; lia. }
  destruct specs as [|spec rest].
  - simpl. split; [constructor | lia].
  - rewrite batchEnsureRecords_cons.
    destruct (getRecordsFromCache serve config w) as [[l|e] w0]; [|discriminate].
    destruct (processAll_partial serve config (spec :: rest) w0) as [rs [w' [E P]]].
    rewrite E. cbn [fst].
    pose proof (partial_subsequence P) as S. auto.
Qed.

(** X11.  For a record that passes validation and whose type is none of A,
    AAAA, CNAME, ANAME, TXT, MX (an NS, SRV, CAA or PTR record, say),
    [createRecord] sends an add request that carries zone, domain, type, ttl
    and token only: the record's content is not sent. *)
Theorem unhandled_type_sends_no_content :
  forall (B : Type) (serve : Request -> B -> Reply * B) (config : Config)
         (spec : Obj) (w : World B),
    accepted spec = true ->
    handled (get "type" spec) = false ->
    In (EHttp (mkRequest POST "/api/zones/records/add"
                 [ ("zone"%string, toString (technitiumZone config));
                   ("domain"%string, toString (get "name" spec));
                   ("type"%string, toString (get "type" spec));
                   ("ttl"%string, toString (or_ (get "ttl" spec) (JNum 3600)));
                   ("token"%string, toString (technitiumToken config)) ]))
       (trace (snd (createRecord serve config spec w))).
Proof.
  intros B serve config spec w Ha Hh.
  pose proof (@createRecord_sends B serve config spec w Ha) as S.
  unfold addRequest, convertToTechnitiumFormat in S.
  unfold handled in Hh.
  repeat (apply orb_false_elim in Hh; destruct Hh as [Hh ?]).
  repeat match goal with
         | H : strictEq _ _ = false |- _ => rewrite H in S; clear H
         end.
  exact S.
Qed.

(** X12.  For a spec whose type, name and content are strings and whose TTL
    is a number, [validateRecord] returns normally exactly when none of the
    three strings is empty and the TTL is not negative; a TTL of 0 passes. *)
Theorem validateRecord_accepts_iff :
  forall (B : Type) (spec : Obj) (w : World B) (type name content : string)
         (ttl : Z),
    get "type" spec = JStr type ->
    get "name" spec = JStr name ->
    get "content" spec = JStr content ->
    get "ttl" spec = JNum ttl ->
    (fst (validateRecord spec w) = Ok tt
     <-> type <> ""%string /\ name <> ""%string /\ content <> ""%string /\ 0 <= ttl).
Proof.
  intros B spec w type name content ttl Ht Hn Hc Hl.
  assert (A : accepted spec = true
              <-> type <> ""%string /\ name <> ""%string
                  /\ content <> ""%string /\ 0 <= ttl).
  { unfold accepted. rewrite Ht, Hn, Hc, Hl. unfold truthy, ltZero.
    destruct (String.eqb_spec type ""); destruct (String.eqb_spec name "");
      destruct (String.eqb_spec content ""); simpl;
      try (split; [discriminate | intros [? [? [? ?]]]; congruence]).
    destruct (Z.eqb_spec ttl 0); simpl.
    - subst. split; auto. intros _. repeat split; auto. lia.
    - destruct (Z.ltb_spec ttl 0); simpl.
      + split; [discriminate | intros [? [? [? ?]]]; lia].
      + split; auto. }
  rewrite <- A. split.
  - intros H. destruct (accepted spec) eqn:E; auto.
    destruct (@validateRecord_rejected B spec w E) as [e [w' R]].
    rewrite R in H. discriminate.
  - intros H. now rewrite validateRecord_accepted.
Qed.

Section FirstRun.
Variable config : Config.

Lemma mutations_app (t u : list Eff.Event) :
  mutations (t ++ u) = mutations t ++ mutations u.
Proof. apply filter_app. Qed.

Lemma storedOf_eq (spec : Obj) (n t c : string) (k : Z) :
  get "name" spec = JStr n -> get "type" spec = JStr t ->
  get "content" spec = JStr c -> or_ (get "ttl" spec) (JNum 3600) = JNum k ->
  storedOf spec = zoneRecord n t c k.
Proof.
  intros Hn Ht Hc Hk. unfold storedOf. now rewrite Hn, Ht, Hc, Hk.
Qed.

Lemma createRecord_zone_world (spec : Obj) (w : World ZoneServer.Zone) :
  convergible spec = true ->
  exists w',
    createRecord ZoneServer.serve config spec w = (Ok spec, w')
    /\ backend w' = backend w ++ [storedOf spec]
    /\ synced w'
    /\ clock w' = clock w
    /\ exists t, trace w' = trace w ++ t /\ mutations t = createMutations config spec.
Proof.
  intros Hcv.
  destruct (convergible_inv spec Hcv)
    as [n [t [c [k [Hn [Ht [Hc [Hr [Hne [Hl [Htt [Ha Hb]]]]]]]]]]]].
  destruct (@recordOfParams_convert spec n t c k JUndef (technitiumToken config)
              (technitiumZone config) Hn Ht Hc Hl Hb Hr) as [_ E].
  rewrite (storedOf_eq spec Hn Ht Hc Hl).
  rewrite createRecord_accepted by assumption. cbv zeta.
  unfold request at 1. simpl backend.
  unfold ZoneServer.serve at 1. simpl verb. simpl path. cbv iota.
  change (("/api/zones/records/add" =? "/api/zones/records/add")%string) with true.
  cbv iota. simpl params. rewrite E. cbv iota beta.
  unfold ZoneServer.ok. simpl status.
  change (strictNe (JStr "ok") (JStr "ok")) with false. cbv iota.
  rewrite refresh_zone. cbn [backend recordCache clock trace withTrace].
  eexists. split; [reflexivity|].
  cbn [backend recordCache clock trace].
  split; [reflexivity|]. split; [reflexivity|]. split; [reflexivity|].
  eexists. rewrite <- !app_assoc. split; [reflexivity|].
  cbn [app]. unfold mutations. cbn [filter isMutation].
  rewrite !filter_app. unfold apexLines.
  destruct (_ && _); reflexivity.
Qed.

Lemma ensureRecord_absent_world (spec : Obj) (w : World ZoneServer.Zone) :
  synced w -> absentFrom (backend w) spec -> convergible spec = true ->
  exists w',
    ensureRecord ZoneServer.serve config spec w = (Ok (Some spec), w')
    /\ backend w' = backend w ++ [storedOf spec]
    /\ synced w'
    /\ exists t, trace w' = trace w ++ t /\ mutations t = createMutations config spec.
Proof.
  intros Hs Ha Hc.
  unfold ensureRecord. unfold bind at 1. simpl.
  unfold findExisting. rewrite Hs. unfold absentFrom, sameKey in Ha. rewrite Ha.
  unfold bind at 1. simpl.
  set (w0 := mkWorld _ _ _ _).
  destruct (createRecord_zone_world spec w0 Hc)
    as [w' [E [Hb [Hs' [_ [t [Ht Hm]]]]]]].
  exists w'. unfold bind, ret. rewrite E.
  split; [reflexivity|]. split; [exact Hb|]. split; [exact Hs'|].
  eexists. split.
  - rewrite Ht. subst w0. cbn [trace]. rewrite <- app_assoc. reflexivity.
  - rewrite mutations_app. exact Hm.
Qed.

Lemma absent_after_stored (spec other : Obj) (zone : ZoneServer.Zone) :
  convergible spec = true ->
  sameKey spec other = false ->
  absentFrom zone other -> absentFrom (zone ++ [storedOf spec]) other.
Proof.
  intros Hcv Hk Ha.
  destruct (convergible_inv spec Hcv)
    as [n [t [c [k [Hn [Ht [Hc [Hr [Hne [Hl [Htt [Hacc Hb]]]]]]]]]]]].
  rewrite (storedOf_eq spec Hn Ht Hc Hl).
  now apply absent_after_create with (spec := spec).
Qed.

Lemma processAll_absent (specs : list Obj) :
  forall results (w : World ZoneServer.Zone),
    synced w ->
    forallb convergible specs = true ->
    distinctKeys specs = true ->
    (forall s, In s specs -> absentFrom (backend w) s) ->
    exists w',
      processAll ZoneServer.serve config specs results w = (Ok (results ++ specs), w')
      /\ backend w' = backend w ++ map storedOf specs
      /\ synced w'
      /\ exists t, trace w' = trace w ++ t
                   /\ mutations t = flat_map (createMutations config) specs.
Proof.
  induction specs as [|spec rest IH]; intros results w Hs Hc Hd Hz.
  - exists w. simpl. rewrite !app_nil_r.
    split; [reflexivity|]. split; [reflexivity|]. split; [exact Hs|].
    exists []. now rewrite app_nil_r.
  - simpl in Hc, Hd.
    apply andb_prop in Hc. destruct Hc as [Hc Hcr].
    apply andb_prop in Hd. destruct Hd as [Hd Hdr].
    cbn [processAll]. unfold bind. rewrite processConfig_eq.
    destruct (@ensureRecord_absent_world spec w Hs (Hz spec (or_introl eq_refl)) Hc)
      as [w1 [E [Hb [Hs1 [t1 [Ht1 Hm1]]]]]].
    rewrite E.
    destruct (IH (results ++ [spec]) w1 Hs1 Hcr Hdr) as [w' [R [Hb' [Hs' [t2 [Ht2 Hm2]]]]]].
    { intros s Hin. rewrite Hb. apply absent_after_stored.
      - exact Hc.
      - rewrite forallb_forall in Hd. specialize (Hd s Hin).
        now apply negb_true_iff in Hd.
      - apply Hz. now right. }
    exists w'. rewrite R, <- app_assoc. split; [reflexivity|].
    split; [rewrite Hb', Hb, <- app_assoc; reflexivity|].
    split; [exact Hs'|].
    exists (t1 ++ t2). split.
    + rewrite Ht2, Ht1, <- app_assoc. reflexivity.
    + rewrite mutations_app, Hm1, Hm2. reflexivity.
Qed.

End FirstRun.

(** X10.  On a zone server that stores what it is sent, with the cache in
    sync: a run over convergible specs, no two of the same name and type and
    none of them in the zone yet, returns all the specs in order, adds to
    the zone one record per spec, in order, and nothing else, and makes one
    [createRecord] call with one add request per spec and no update or
    delete. *)
Theorem first_run_creates_each_spec_once :
  forall (config : Config) (specs : list Obj) (w : World ZoneServer.Zone),
    synced w ->
    forallb convergible specs = true ->
    distinctKeys specs = true ->
    (forall s, In s specs -> absentFrom (backend w) s) ->
    let run := batchEnsureRecords ZoneServer.serve config specs w in
    fst run = Ok specs
    /\ backend (snd run) = backend w ++ map storedOf specs
    /\ synced (snd run)
    /\ mutations (added (trace w) (trace (snd run)))
       = flat_map (createMutations config) specs.
Proof.
  intros config specs w Hs Hc Hd Hz. cbv zeta.
  destruct specs as [|spec rest].
  - simpl. rewrite app_nil_r. repeat split; auto.
    now rewrite added_self.
  - rewrite batchEnsureRecords_cons.
    destruct (@getRecordsFromCache_zone config w Hs) as [l [w0 [G [Hb0 [Hs0 Ht0]]]]].
    rewrite G.
    destruct (@processAll_absent config (spec :: rest) [] w0 Hs0 Hc Hd)
      as [w' [R [Hb [Hs' [t [Ht Hm]]]]]].
    { intros s Hin. rewrite Hb0. now apply Hz. }
    rewrite R. cbn [fst snd]. split; [reflexivity|].
    split; [now rewrite Hb, Hb0|]. split; [exact Hs'|].
    rewrite Ht. destruct Ht0 as [T|T]; rewrite T.
    + now rewrite added_app.
    + rewrite <- app_assoc, added_app, mutations_app. exact Hm.
Qed.

Lemma init_eq (B : Type) (serve : Request -> B -> Reply * B) (config : Config)
      (w : World B) :
  init serve config w =
    match refreshRecordCache serve config w with
    | (Ok _, w1) =>
        (Ok true,
         logged (ELog LInfo ("Technitium provider initialized for zone: " ++
                             toString (technitiumZone config))%string) w1)
    | (Thrown m, w1) =>
        (Thrown ("Technitium initialization failed: " ++ m)%string, w1)
    end.
Proof.
  unfold init, tryCatch, bind.
  destruct (refreshRecordCache serve config w) as [[l|m] w1]; reflexivity.
Qed.

(** X13.  [init] never returns [false]: it returns [true] with the cache
    filled from the reply when the refresh succeeds, and otherwise throws the
    refresh's error with the prefix "Technitium initialization failed: ",
    the cache untouched.  Either way the list request is the only request. *)
Theorem init_true_or_wrapped_error :
  forall (B : Type) (serve : Request -> B -> Reply * B) (config : Config)
         (w : World B),
    let r := init serve config w in
    requests (added (trace w) (trace (snd r))) = [EHttp (listRequest config)]
    /\ match fst (refreshRecordCache serve config w) with
       | Ok l => fst r = Ok true /\ recordCache (snd r) = mkCache l (clock w)
       | Thrown m =>
           fst r = Thrown ("Technitium initialization failed: " ++ m)%string
           /\ recordCache (snd r) = recordCache w
       end.
Proof.
  intros B serve config w r. subst r.
  rewrite init_eq, refreshRecordCache_eq. cbv zeta.
  destruct (serve (listRequest config) (backend w)) as [[e|d] b]; simpl.
  - rewrite added_app. auto.
  - destruct (strictNe (status d) (JStr "ok")); simpl.
    + rewrite added_app. auto.
    + destruct (response d) as [p|]; simpl.
      * unfold logged. cbn [trace withTrace]. rewrite <- app_assoc, added_app. auto.
      * rewrite added_app. auto.
Qed.

Section ClosedProvider.
Import Scenario Scenario2.

Lemma rejected_spec_sends_nothing_witness :
accepted broken = false
/\ let r := createRecord ZoneServer.serve config broken fresh in
   (exists e,
      fst r = Thrown e
      /\ In e [ "Record type is required"%string; "Record name is required"%string;
                "Record content is required"%string;
                "TTL must be a positive integer"%string ])
   /\ requests (added (trace fresh) (trace (snd r))) = []
   /\ backend (snd r) = backend fresh
   /\ recordCache (snd r) = recordCache fresh.
Proof.
split; [reflexivity|].
apply (@rejected_spec_sends_nothing _ ZoneServer.serve config broken fresh).
reflexivity.
Defined.

Lemma refused_create_keeps_cache_witness :
accepted app = true
/\ refusing (addRequest config app) (backend cold)
   = (Data (mkEnvelope (JStr "error") None), tt)
/\ strictEq (status (mkEnvelope (JStr "error") None)) (JStr "ok") = false
/\ let r := createRecord refusing config app cold in
   fst r = Thrown "Create failed: error"
   /\ requests (added (trace cold) (trace (snd r))) = [EHttp (addRequest config app)]
   /\ backend (snd r) = tt
   /\ recordCache (snd r) = recordCache cold.
Proof.
split; [reflexivity|]. split; [reflexivity|]. split; [reflexivity|].
apply (@refused_create_keeps_cache _ refusing config app cold
         (mkEnvelope (JStr "error") None) tt); reflexivity.
Defined.

Lemma update_goes_on_after_refused_delete_witness :
cachedById (get "id" appCached) stuck = Some appCached
/\ refusing (deleteRequest config appCached) (backend stuck)
   = (Data (mkEnvelope (JStr "error") None), tt)
/\ strictEq (status (mkEnvelope (JStr "error") None)) (JStr "ok") = false
/\ accepted appMoved = true
/\ exists rest,
     requests (added (trace stuck)
                 (trace (snd (updateRecord refusing config (get "id" appCached)
                                appMoved stuck))))
       = EHttp (deleteRequest config appCached)
         :: EHttp (addRequest config appMoved) :: rest.
Proof.
split; [reflexivity|]. split; [reflexivity|]. split; [reflexivity|].
split; [reflexivity|].
apply (@update_goes_on_after_refused_delete _ refusing config (get "id" appCached)
         appMoved appCached stuck (mkEnvelope (JStr "error") None) tt);
  reflexivity.
Defined.

Lemma update_with_rejected_spec_loses_record_witness :
cachedById (get "id" appCached) warm = Some appCached
/\ ZoneServer.serve (deleteRequest config appCached) (backend warm)
   = (Data (mkEnvelope (JStr "ok") (Some (mkPayload None))), [])
/\ strictEq (status (mkEnvelope (JStr "ok") (Some (mkPayload None)))) (JStr "ok") = true
/\ accepted broken = false
/\ let r := updateRecord ZoneServer.serve config (get "id" appCached) broken warm in
   (exists e, fst r = Thrown e)
   /\ requests (added (trace warm) (trace (snd r)))
      = [EHttp (deleteRequest config appCached)]
   /\ backend (snd r) = []
   /\ recordCache (snd r) = without (get "id" appCached) (recordCache warm)
   /\ cachedById (get "id" appCached) (snd r) = None.
Proof.
split; [reflexivity|]. split; [reflexivity|]. split; [reflexivity|].
split; [reflexivity|].
apply (@update_with_rejected_spec_loses_record _ ZoneServer.serve config
         (get "id" appCached) broken appCached warm
         (mkEnvelope (JStr "ok") (Some (mkPayload None))) []);
  reflexivity.
Defined.

Lemma accepted_delete_filters_cache_witness :
cachedById (get "id" appCached) warm = Some appCached
/\ ZoneServer.serve (deleteRequest config appCached) (backend warm)
   = (Data (mkEnvelope (JStr "ok") (Some (mkPayload None))), [])
/\ strictEq (status (mkEnvelope (JStr "ok") (Some (mkPayload None)))) (JStr "ok") = true
/\ let r := deleteRecord ZoneServer.serve config (get "id" appCached) warm in
   fst r = Ok true
   /\ requests (added (trace warm) (trace (snd r)))
      = [EHttp (deleteRequest config appCached)]
   /\ lastUpdated (recordCache (snd r)) = lastUpdated (recordCache warm)
   /\ (forall x, In x (cached (recordCache (snd r))) <->
                 In x (cached (recordCache warm))
                 /\ strictEq (get "id" x) (get "id" appCached) = false)
   /\ cachedById (get "id" appCached) (snd r) = None.
Proof.
split; [reflexivity|]. split; [reflexivity|]. split; [reflexivity|].
apply (@accepted_delete_filters_cache _ ZoneServer.serve config
         (get "id" appCached) appCached warm
         (mkEnvelope (JStr "ok") (Some (mkPayload None))) []);
  reflexivity.
Defined.

Lemma delete_drops_records_sharing_the_id_witness :
plainData noteStored = true /\ plainData noteMoreStored = true
/\ get "name" noteStored = get "name" noteMoreStored
/\ get "type" noteStored = get "type" noteMoreStored
/\ let id := get "id" (convertToStandardFormat noteStored) in
   cachedById id notes = Some (convertToStandardFormat noteStored)
   /\ ZoneServer.serve (deleteRequest config (convertToStandardFormat noteStored))
        (backend notes)
      = (Data (mkEnvelope (JStr "ok") (Some (mkPayload None))), [noteMoreStored])
   /\ strictEq (status (mkEnvelope (JStr "ok") (Some (mkPayload None)))) (JStr "ok") = true
   /\ id = JStr "example.com-TXT-data"
   /\ get "id" (convertToStandardFormat noteMoreStored) = id
   /\ ~ In (convertToStandardFormat noteStored)
           (cached (recordCache (snd (deleteRecord ZoneServer.serve config id notes))))
   /\ ~ In (convertToStandardFormat noteMoreStored)
           (cached (recordCache (snd (deleteRecord ZoneServer.serve config id notes)))).
Proof.
split; [reflexivity|]. split; [reflexivity|]. split; [reflexivity|].
split; [reflexivity|]. cbv zeta.
split; [reflexivity|]. split; [reflexivity|]. split; [reflexivity|].
apply (@delete_drops_records_sharing_the_id _ ZoneServer.serve config
         noteStored noteMoreStored (convertToStandardFormat noteStored) notes
         (mkEnvelope (JStr "ok") (Some (mkPayload None))) [noteMoreStored]);
  reflexivity.
Defined.

Lemma listRecords_filters_the_cache_witness :
getRecordsFromCache ZoneServer.serve config warm = (Ok [appCached], warm)
/\ exists listed,
     listRecords ZoneServer.serve config [("type"%string, JStr "A")] warm
       = (Ok listed, warm)
     /\ Subsequence listed [appCached]
     /\ (forall r, In r listed <->
                   In r [appCached]
                   /\ (truthy (get "type" [("type"%string, JStr "A")]) = true ->
                       strictEq (get "type" r) (get "type" [("type"%string, JStr "A")]) = true)
                   /\ (truthy (get "name" [("type"%string, JStr "A")]) = true ->
                       strictEq (get "name" r) (get "name" [("type"%string, JStr "A")]) = true))
     /\ ([("type"%string, JStr "A")] = [] -> listed = [appCached]).
Proof.
split; [reflexivity|].
apply (@listRecords_filters_the_cache _ ZoneServer.serve config
         [("type"%string, JStr "A")] warm warm [appCached]).
reflexivity.
Defined.

Lemma first_run_creates_each_spec_once_witness :
synced fresh
/\ forallb convergible [app; note] = true
/\ distinctKeys [app; note] = true
/\ (forall s, In s [app; note] -> absentFrom (backend fresh) s)
/\ let run := batchEnsureRecords ZoneServer.serve config [app; note] fresh in
   fst run = Ok [app; note]
   /\ backend (snd run) = backend fresh ++ map storedOf [app; note]
   /\ synced (snd run)
   /\ mutations (added (trace fresh) (trace (snd run)))
      = flat_map (createMutations config) [app; note].
Proof.
assert (H1 : synced fresh) by reflexivity.
assert (H2 : forallb convergible [app; note] = true) by reflexivity.
assert (H3 : distinctKeys [app; note] = true) by reflexivity.
assert (H4 : forall s, In s [app; note] -> absentFrom (backend fresh) s)
  by (intros s [<-|[<-|[]]]; reflexivity).
split; [exact H1|]. split; [exact H2|]. split; [exact H3|]. split; [exact H4|].
exact (@first_run_creates_each_spec_once config [app; note] fresh H1 H2 H3 H4).
Defined.

Lemma unhandled_type_sends_no_content_witness :
accepted nameServer = true
/\ handled (get "type" nameServer) = false
/\ In (EHttp (mkRequest POST "/api/zones/records/add"
                [ ("zone"%string, toString (technitiumZone config));
                  ("domain"%string, toString (get "name" nameServer));
                  ("type"%string, toString (get "type" nameServer));
                  ("ttl"%string, toString (or_ (get "ttl" nameServer) (JNum 3600)));
                  ("token"%string, toString (technitiumToken config)) ]))
      (trace (snd (createRecord ZoneServer.serve config nameServer fresh))).
Proof.
split; [reflexivity|]. split; [reflexivity|].
apply (@unhandled_type_sends_no_content _ ZoneServer.serve config nameServer fresh);
  reflexivity.
Defined.

Lemma validateRecord_accepts_iff_witness :
get "type" app = JStr "A" /\ get "name" app = JStr "app.example.com"
/\ get "content" app = JStr "1.2.3.4" /\ get "ttl" app = JNum 300
/\ (fst (validateRecord app fresh) = Ok tt
    <-> "A"%string <> ""%string /\ "app.example.com"%string <> ""%string
        /\ "1.2.3.4"%string <> ""%string /\ 0 <= 300).
Proof.
split; [reflexivity|]. split; [reflexivity|]. split; [reflexivity|].
split; [reflexivity|].
apply (@validateRecord_accepts_iff _ app fresh "A" "app.example.com" "1.2.3.4" 300);
  reflexivity.
Defined.
End ClosedProvider.

(* ================================================================== *)
(** * Properties of the older class *)
(* ================================================================== *)

Section RegexFacts.
Import Legacy.

Lemma append_nil_r (s : string) : (s ++ "")%string = s.
Proof. induction s; simpl; congruence. Qed.

Lemma append_assoc (a b c : string) : ((a ++ b) ++ c)%string = (a ++ (b ++ c))%string.
Proof. induction a; simpl; congruence. Qed.

Lemma append_length (a b : string) :
  String.length (a ++ b) = (String.length a + String.length b)%nat.
Proof. induction a; simpl; congruence. Qed.

Lemma seq_inv (r1 r2 : Regex) (s : string) :
  Matches (Seq r1 r2) s ->
  exists s1 s2, s = (s1 ++ s2)%string /\ Matches r1 s1 /\ Matches r2 s2.
Proof. inversion 1; subst; eauto. Qed.

Lemma alt_inv (r1 r2 : Regex) (s : string) :
  Matches (Alt r1 r2) s -> Matches r1 s \/ Matches r2 s.
Proof. inversion 1; subst; auto. Qed.

Lemma eps_inv (s : string) : Matches Eps s -> s = ""%string.
Proof. inversion 1; reflexivity. Qed.

Lemma class_inv (p : ascii -> bool) (s : string) :
  Matches (Class p) s -> exists c, s = String c "" /\ p c = true.
Proof. inversion 1; subst; eauto. Qed.

Lemma nullable_spec (r : Regex) : nullable r = true <-> Matches r "".
Proof.
  induction r; simpl.
  - split; [discriminate | inversion 1].
  - split; [constructor | reflexivity].
  - split; [discriminate | inversion 1].
  - rewrite andb_true_iff, IHr1, IHr2. split.
    + intros [H1 H2]. change ""%string with ("" ++ "")%string. now constructor.
    + intros H. apply seq_inv in H. destruct H as [s1 [s2 [E [H1 H2]]]].
      destruct s1; [|discriminate]. destruct s2; [|discriminate]. auto.
  - rewrite orb_true_iff, IHr1, IHr2. split.
    + intros [H|H]; [now apply MAltL | now apply MAltR].
    + inversion 1; subst; auto.
  - split; [constructor | reflexivity].
Qed.

Lemma star_cons_inv (r : Regex) (c : ascii) (s : string) :
  Matches (Star r) (String c s) ->
  exists s1 s2, s = (s1 ++ s2)%string /\ Matches r (String c s1) /\ Matches (Star r) s2.
Proof.
  intros H. remember (Star r) as r' eqn:Er. remember (String c s) as t eqn:Et.
  revert Er Et. induction H; intros Er Et; try discriminate.
  injection Er as ->.
  destruct s1 as [|c1 s1].
  - simpl in Et. now apply IHMatches2.
  - simpl in Et. injection Et as Ec Es. subst. exists s1, s2. auto.
Qed.

Lemma deriv_spec (r : Regex) :
  forall c s, Matches (deriv c r) s <-> Matches r (String c s).
Proof.
  induction r; intros c s; simpl.
  - split; inversion 1.
  - split; inversion 1.
  - destruct (p c) eqn:E.
    + split.
      * inversion 1; subst. now constructor.
      * inversion 1; subst. constructor.
    + split; [inversion 1|]. inversion 1; subst. congruence.
  - assert (S1 : forall s, Matches (Seq (deriv c r1) r2) s ->
                           Matches (Seq r1 r2) (String c s)).
    { intros s0 H. apply seq_inv in H. destruct H as [s1 [s2 [-> [H1 H2]]]].
      apply IHr1 in H1.
      change (String c (s1 ++ s2)) with (String c s1 ++ s2)%string.
      now constructor. }
    assert (S2 : forall s, Matches (Seq r1 r2) (String c s) ->
                           (exists s1 s2, s = (s1 ++ s2)%string
                                          /\ Matches r1 (String c s1) /\ Matches r2 s2)
                           \/ (Matches r1 "" /\ Matches r2 (String c s))).
    { intros s0 H. apply seq_inv in H. destruct H as [s1 [s2 [E [H1 H2]]]].
      destruct s1 as [|c1 s1]; simpl in E.
      - subst. right. auto.
      - injection E as Ec Es. subst. left. exists s1, s2. auto. }
    destruct (nullable r1) eqn:N.
    + split.
      * inversion 1; subst; [now apply S1|].
        apply nullable_spec in N.
        change (String c s) with ("" ++ String c s)%string.
        constructor; [assumption | now apply IHr2].
      * intros H. destruct (S2 s H) as [[s1 [s2 [-> [H1 H2]]]]|[H1 H2]].
        -- apply MAltL. constructor; [now apply IHr1 | assumption].
        -- apply MAltR. now apply IHr2.
    + split; [apply S1|].
      intros H. destruct (S2 s H) as [[s1 [s2 [-> [H1 H2]]]]|[H1 H2]].
      * constructor; [now apply IHr1 | assumption].
      * apply nullable_spec in H1. congruence.
  - split.
    + inversion 1; subst; [apply MAltL; now apply IHr1 | apply MAltR; now apply IHr2].
    + inversion 1; subst; [apply MAltL; now apply IHr1 | apply MAltR; now apply IHr2].
  - split.
    + intros H. apply seq_inv in H. destruct H as [s1 [s2 [-> [H1 H2]]]].
      apply IHr in H1.
      change (String c (s1 ++ s2)) with (String c s1 ++ s2)%string.
      now constructor.
    + intros H. destruct (star_cons_inv H) as [s1 [s2 [-> [H1 H2]]]].
      constructor; [now apply IHr | assumption].
Qed.

(** The matcher decides the denotation. *)
Lemma test_spec (s : string) : forall r, test r s = true <-> Matches r s.
Proof.
  induction s as [|c s IH]; intros r; simpl.
  - apply nullable_spec.
  - rewrite IH. apply deriv_spec.
Qed.

End RegexFacts.

Section PatternFacts.
Import Legacy.

Lemma allOf_app (p : ascii -> bool) (a b : string) :
  allOf p (a ++ b) = allOf p a && allOf p b.
Proof.
  induction a as [|c a IH]; simpl; [reflexivity|].
  now rewrite IH, andb_assoc.
Qed.

Lemma matches_chr (c : ascii) (s : string) :
  Matches (chr c) s <-> s = String c "".
Proof.
  unfold chr. split.
  - intros H. apply class_inv in H. destruct H as [c' [-> E]].
    apply Ascii.eqb_eq in E. now subst.
  - intros ->. constructor. apply Ascii.eqb_refl.
Qed.

Lemma matches_times_class (p : ascii -> bool) (n : nat) :
  forall s, Matches (times n (Class p)) s
            <-> allOf p s = true /\ String.length s = n.
Proof.
  induction n as [|n IH]; intros s; simpl.
  - split.
    + intros H. apply eps_inv in H. subst. auto.
    + intros [_ H]. destruct s; [constructor | discriminate].
  - split.
    + intros H. apply seq_inv in H. destruct H as [s1 [s2 [-> [H1 H2]]]].
      apply class_inv in H1. destruct H1 as [c [-> Hc]].
      apply IH in H2. destruct H2 as [H2 H3]. simpl. rewrite Hc, H2, H3. auto.
    + intros [H1 H2]. destruct s as [|c s]; [discriminate|].
      simpl in H1, H2. apply andb_prop in H1. destruct H1 as [Hc Hs].
      change (String c s) with (String c "" ++ s)%string.
      constructor; [now constructor|]. apply IH. split; [assumption | lia].
Qed.

Lemma matches_upTo_class (p : ascii -> bool) (n : nat) :
  forall s, Matches (upTo n (Class p)) s
            <-> allOf p s = true /\ (String.length s <= n)%nat.
Proof.
  induction n as [|n IH]; intros s; simpl.
  - split.
    + intros H. apply eps_inv in H. subst. auto.
    + intros [_ H]. destruct s; [constructor | simpl in H; lia].
  - split.
    + intros H. apply alt_inv in H. destruct H as [H|H].
      * apply eps_inv in H. subst. simpl. split; [reflexivity | lia].
      * apply seq_inv in H. destruct H as [s1 [s2 [-> [H1 H2]]]].
        apply class_inv in H1. destruct H1 as [c [-> Hc]].
        apply IH in H2. destruct H2 as [H2 H3]. simpl. rewrite Hc, H2.
        split; [reflexivity | lia].
    + intros [H1 H2]. destruct s as [|c s]; [apply MAltL; constructor|].
      simpl in H1, H2. apply andb_prop in H1. destruct H1 as [Hc Hs].
      apply MAltR. change (String c s) with (String c "" ++ s)%string.
      constructor; [now constructor|]. apply IH. split; [assumption | lia].
Qed.

Lemma matches_range_class (p : ascii -> bool) (m n : nat) (s : string) :
  (m <= n)%nat ->
  (Matches (range m n (Class p)) s
   <-> allOf p s = true /\ (m <= String.length s <= n)%nat).
Proof.
  intros Hmn. unfold range. split.
  - intros H. apply seq_inv in H. destruct H as [s1 [s2 [-> [H1 H2]]]].
    apply matches_times_class in H1. apply matches_upTo_class in H2.
    destruct H1 as [A1 L1]. destruct H2 as [A2 L2].
    rewrite allOf_app, A1, A2, append_length. split; [reflexivity | lia].
  - intros [A [L1 L2]].
    assert (S : exists s1 s2, s = (s1 ++ s2)%string /\ String.length s1 = m
                              /\ (String.length s2 <= n - m)%nat).
    { clear A. revert s L1 L2 Hmn. revert n.
      induction m as [|m IH]; intros n s L1 L2 Hmn.
      - exists ""%string, s. simpl. split; [reflexivity|]. split; [reflexivity | lia].
      - destruct s as [|c s]; [simpl in L1; lia|]. simpl in L1, L2.
        destruct n as [|n]; [lia|].
        destruct (IH n s) as [s1 [s2 [-> [E1 E2]]]]; try lia.
        exists (String c s1), s2. simpl. split; [reflexivity|].
        split; [congruence | lia]. }
    destruct S as [s1 [s2 [-> [E1 E2]]]].
    rewrite allOf_app in A. apply andb_prop in A. destruct A as [A1 A2].
    constructor.
    + apply matches_times_class. auto.
    + apply matches_upTo_class. auto.
Qed.

Lemma digit_cases (c : ascii) :
  isDigit c = true ->
  In c ["0"; "1"; "2"; "3"; "4"; "5"; "6"; "7"; "8"; "9"]%char.
Proof.
  destruct c as [[] [] [] [] [] [] [] []]; vm_compute; intros H;
    try discriminate; auto 12.
Qed.

End PatternFacts.

Section IPv4Facts.
Import Legacy.

Lemma matches_digit_group (g : string) :
  Matches (range 1 3 (Class isDigit)) g
  <-> allOf isDigit g = true /\ (1 <= String.length g <= 3)%nat.
Proof. apply matches_range_class. lia. Qed.

Lemma matches_group_dot (s : string) :
  Matches (Seq (range 1 3 (Class isDigit)) (chr ".")) s
  <-> exists g, s = (g ++ ".")%string
                /\ allOf isDigit g = true /\ (1 <= String.length g <= 3)%nat.
Proof.
  split.
  - intros H. apply seq_inv in H. destruct H as [s1 [s2 [-> [H1 H2]]]].
    apply matches_digit_group in H1. apply matches_chr in H2. subst. eauto.
  - intros [g [-> H]]. constructor.
    + now apply matches_digit_group.
    + now apply matches_chr.
Qed.

Lemma matches_ipv4 (s : string) :
  Matches ipv4Regex s
  <-> exists a b c d,
        s = (a ++ "." ++ b ++ "." ++ c ++ "." ++ d)%string
        /\ (allOf isDigit a = true /\ (1 <= String.length a <= 3)%nat)
        /\ (allOf isDigit b = true /\ (1 <= String.length b <= 3)%nat)
        /\ (allOf isDigit c = true /\ (1 <= String.length c <= 3)%nat)
        /\ (allOf isDigit d = true /\ (1 <= String.length d <= 3)%nat).
Proof.
  unfold ipv4Regex. cbn [times]. split.
  - intros H. apply seq_inv in H. destruct H as [s1 [d [-> [H1 Hd]]]].
    apply seq_inv in H1. destruct H1 as [pa [s2 [-> [Ha H2]]]].
    apply seq_inv in H2. destruct H2 as [pb [s3 [-> [Hb H3]]]].
    apply seq_inv in H3. destruct H3 as [pc [s4 [-> [Hc H4]]]].
    apply eps_inv in H4. subst s4.
    apply matches_group_dot in Ha. destruct Ha as [a [-> Ha]].
    apply matches_group_dot in Hb. destruct Hb as [b [-> Hb]].
    apply matches_group_dot in Hc. destruct Hc as [c [-> Hc]].
    apply matches_digit_group in Hd.
    exists a, b, c, d. split; [|auto].
    rewrite append_nil_r, !append_assoc. reflexivity.
  - intros [a [b [c [d [-> [Ha [Hb [Hc Hd]]]]]]]].
    replace (a ++ "." ++ b ++ "." ++ c ++ "." ++ d)%string
      with (((a ++ ".") ++ (b ++ ".") ++ (c ++ ".") ++ "") ++ d)%string
      by (rewrite append_nil_r, !append_assoc; reflexivity).
    constructor; [|now apply matches_digit_group].
    repeat (constructor; [apply matches_group_dot; eauto|]).
    constructor.
Qed.

Lemma digit_not_dot (c : ascii) : isDigit c = true -> Ascii.eqb c "." = false.
Proof.
  intros H. apply digit_cases in H.
  repeat (destruct H as [<-|H]; [reflexivity|]). destruct H.
Qed.

Lemma split_digits (g : string) :
  allOf isDigit g = true -> split "." g = [g].
Proof.
  induction g as [|c g IH]; simpl; [reflexivity|].
  intros H. apply andb_prop in H. destruct H as [Hc Hg].
  rewrite (digit_not_dot c Hc), (IH Hg). reflexivity.
Qed.

Lemma split_digits_dot (g rest : string) :
  allOf isDigit g = true ->
  split "." (g ++ String "." rest) = g :: split "." rest.
Proof.
  induction g as [|c g IH]; simpl; [reflexivity|].
  intros H. apply andb_prop in H. destruct H as [Hc Hg].
  rewrite (digit_not_dot c Hc), (IH Hg). reflexivity.
Qed.

Lemma digitValue_range (c : ascii) : isDigit c = true -> 0 <= digitValue c <= 9.
Proof.
  intros H. apply digit_cases in H.
  repeat (destruct H as [<-|H]; [vm_compute; split; discriminate|]). destruct H.
Qed.

Lemma numeral_nonneg (g : string) : allOf isDigit g = true -> 0 <= numeral g.
Proof.
  induction g as [|c g IH]; cbn [allOf numeral]; [lia|].
  intros H. apply andb_prop in H. destruct H as [Hc Hg].
  pose proof (digitValue_range c Hc). specialize (IH Hg).
  pose proof (Z.pow_nonneg 10 (Z.of_nat (String.length g))). nia.
Qed.

Lemma leadingDigits_digits (g : string) :
  forall a, allOf isDigit g = true ->
            leadingDigits (Some a) g
            = Some (a * 10 ^ Z.of_nat (String.length g) + numeral g).
Proof.
  induction g as [|c g IH]; intros a;
    cbn [leadingDigits allOf numeral String.length].
  - intros _. f_equal. cbn. lia.
  - intros H. apply andb_prop in H. destruct H as [Hc Hg].
    rewrite Hc. rewrite IH by exact Hg. f_equal. fold (digitValue c).
    rewrite Nat2Z.inj_succ, Z.pow_succ_r by lia. ring.
Qed.

Lemma parseInt_digits (g : string) :
  allOf isDigit g = true -> g <> ""%string -> parseInt g = Some (numeral g).
Proof.
  destruct g as [|c g]; [congruence|]. intros H _.
  simpl in H. apply andb_prop in H. destruct H as [Hc Hg].
  assert (E : parseInt (String c g) = leadingDigits None (String c g)).
  { pose proof (digit_cases c Hc) as D.
    repeat (destruct D as [<-|D]; [reflexivity|]). destruct D. }
  rewrite E. cbn [leadingDigits numeral]. rewrite Hc.
  rewrite leadingDigits_digits by exact Hg.
  f_equal; try (fold (digitValue c); ring).
Qed.

Lemma octet_spec (g : string) :
  octet g = true
  <-> (allOf isDigit g = true /\ (1 <= String.length g <= 3)%nat)
      /\ numeral g <= 255.
Proof.
  unfold octet. rewrite !andb_true_iff, !Nat.leb_le, Z.leb_le. tauto.
Qed.

Lemma part_ok (g : string) :
  allOf isDigit g = true -> (1 <= String.length g <= 3)%nat ->
  match parseInt g with
  | Some num => (0 <=? num) && (num <=? 255)
  | None => false
  end = (numeral g <=? 255).
Proof.
  intros Hd Hl. rewrite parseInt_digits; auto.
  - pose proof (numeral_nonneg g Hd).
    destruct (Z.leb_spec 0 (numeral g)); [reflexivity | lia].
  - intros ->. simpl in Hl. lia.
Qed.

Lemma isValidIPv4_spec :
  forall s : string,
    Legacy.isValidIPv4 (JStr s) = true
    <-> exists a b c d,
          s = (a ++ "." ++ b ++ "." ++ c ++ "." ++ d)%string
          /\ octet a = true /\ octet b = true /\ octet c = true /\ octet d = true.
Proof.
  intros s. unfold isValidIPv4. cbn [toString].
  destruct (test ipv4Regex s) eqn:T; cbn [negb].
  - apply test_spec in T. apply matches_ipv4 in T.
    destruct T as [a [b [c [d [-> [[Da La] [[Db Lb] [[Dc Lc] [Dd Ld]]]]]]]]].
    change (a ++ "." ++ b ++ "." ++ c ++ "." ++ d)%string
      with (a ++ String "." (b ++ String "." (c ++ String "." d)))%string.
    rewrite !split_digits_dot, split_digits by assumption.
    cbn [forallb]. rewrite !part_ok by assumption. rewrite andb_true_r.
    split.
    + intros H. exists a, b, c, d. split; [reflexivity|].
      apply andb_prop in H. destruct H as [Ha H].
      apply andb_prop in H. destruct H as [Hb H].
      apply andb_prop in H. destruct H as [Hc Hd].
      apply Z.leb_le in Ha, Hb, Hc, Hd.
      repeat split; apply octet_spec; auto.
    + intros [a' [b' [c' [d' [E [Ha [Hb [Hc Hd]]]]]]]].
      apply octet_spec in Ha, Hb, Hc, Hd.
      destruct Ha as [[Da' La'] Na]. destruct Hb as [[Db' Lb'] Nb].
      destruct Hc as [[Dc' Lc'] Nc]. destruct Hd as [[Dd' Ld'] Nd].
      assert (S : split "." (a ++ String "." (b ++ String "." (c ++ String "." d)))
                  = split "." (a' ++ String "." (b' ++ String "." (c' ++ String "." d'))))
        by (f_equal; exact E).
      rewrite !split_digits_dot, !split_digits in S by assumption.
      injection S as -> -> -> ->.
      apply Z.leb_le in Na, Nb, Nc, Nd. now rewrite Na, Nb, Nc, Nd.
  - split; [discriminate|].
    intros [a [b [c [d [E [Ha [Hb [Hc Hd]]]]]]]].
    apply octet_spec in Ha, Hb, Hc, Hd.
    assert (M : Matches ipv4Regex s).
    { apply matches_ipv4. exists a, b, c, d. tauto. }
    apply test_spec in M. congruence.
Qed.

End IPv4Facts.

(** X14.  [isValidIPv4] accepts exactly the strings of four groups of one to
    three decimal digits, separated by dots, each group writing a number up
    to 255.  Leading zeros are accepted. *)
Theorem isValidIPv4_iff_dotted_quad :
  forall s : string,
    Legacy.isValidIPv4 (JStr s) = true
    <-> exists a b c d,
          s = (a ++ "." ++ b ++ "." ++ c ++ "." ++ d)%string
          /\ octet a = true /\ octet b = true /\ octet c = true /\ octet d = true.
Proof. exact isValidIPv4_spec. Qed.

(** X21.  The older [validateRecord], for a record whose type is A in any
    letter case and whose content is a string: it returns normally, with the
    options as they were given, exactly when the hostname is not empty and the
    content is a dotted quad of octets up to 255. *)
Theorem legacy_validateRecord_checks_ipv4 :
  forall (zone hostname : JsVal) (t content : string) (additionalOptions : Obj),
    Legacy.toUpperCase t = "A"%string ->
    (Legacy.validateRecord zone hostname (JStr t) (JStr content) additionalOptions
       = Ok additionalOptions
     <-> truthy hostname = true
         /\ exists a b c d,
              content = (a ++ "." ++ b ++ "." ++ c ++ "." ++ d)%string
              /\ octet a = true /\ octet b = true /\ octet c = true /\ octet d = true)
    /\ (forall result,
          Legacy.validateRecord zone hostname (JStr t) (JStr content) additionalOptions
            = Ok result -> result = additionalOptions).
Proof.
  intros zone hostname t content opts HT.
  assert (Tt : truthy (JStr t) = true).
  { destruct t; [discriminate | reflexivity]. }
  unfold Legacy.validateRecord. rewrite HT, Tt. cbn [negb orb String.eqb Ascii.eqb Bool.eqb].
  destruct (truthy hostname); cbn [negb orb].
  - destruct (truthy (JStr content)) eqn:Tc; cbn [negb].
    + destruct (Legacy.isValidIPv4 (JStr content)) eqn:V; cbn [negb].
      * split; [|intros result H; now injection H].
        split; [|reflexivity]. intros _. split; [reflexivity|].
        now apply isValidIPv4_spec.
      * split; [|discriminate].
        split; [discriminate|]. intros [_ H].
        apply isValidIPv4_spec in H. congruence.
    + split; [|discriminate].
      split; [discriminate|]. intros [_ H].
      apply isValidIPv4_spec in H.
      assert (content = ""%string) as ->.
      { unfold truthy in Tc. destruct (String.eqb_spec content ""); [assumption | discriminate]. }
      discriminate.
  - split; [|discriminate]. split; [discriminate | intros [H _]; discriminate].
Qed.

Section IPv6Facts.
Import Legacy.

Lemma concat_cons (x : string) (l : list string) :
  String.concat "" (x :: l) = (x ++ String.concat "" l)%string.
Proof.
  destruct l; simpl; [now rewrite append_nil_r | reflexivity].
Qed.

Lemma matches_times (r : Regex) (n : nat) :
  forall s, Matches (times n r) s
            <-> exists parts, List.length parts = n /\ Forall (Matches r) parts
                              /\ s = String.concat "" parts.
Proof.
  induction n as [|n IH]; intros s; cbn [times].
  - split.
    + intros H. apply eps_inv in H. subst. exists []. auto.
    + intros [parts [L [_ ->]]]. destruct parts; [constructor | discriminate].
  - split.
    + intros H. apply seq_inv in H. destruct H as [s1 [s2 [-> [H1 H2]]]].
      apply IH in H2. destruct H2 as [parts [L [F ->]]].
      exists (s1 :: parts). rewrite concat_cons. simpl. auto.
    + intros [parts [L [F ->]]]. destruct parts as [|p parts]; [discriminate|].
      rewrite concat_cons. inversion F; subst.
      constructor; [assumption|]. apply IH. exists parts. simpl in L. auto.
Qed.

Lemma matches_upTo (r : Regex) (n : nat) :
  forall s, Matches (upTo n r) s
            <-> exists parts, (List.length parts <= n)%nat /\ Forall (Matches r) parts
                              /\ s = String.concat "" parts.
Proof.
  induction n as [|n IH]; intros s; cbn [upTo].
  - split.
    + intros H. apply eps_inv in H. subst. exists []. auto.
    + intros [parts [L [_ ->]]]. destruct parts; [constructor | simpl in L; lia].
  - split.
    + intros H. apply alt_inv in H. destruct H as [H|H].
      * apply eps_inv in H. subst. exists []. simpl. split; [lia | auto].
      * apply seq_inv in H. destruct H as [s1 [s2 [-> [H1 H2]]]].
        apply IH in H2. destruct H2 as [parts [L [F ->]]].
        exists (s1 :: parts). rewrite concat_cons. simpl.
        split; [lia | auto].
    + intros [parts [L [F ->]]]. destruct parts as [|p parts].
      * apply MAltL. constructor.
      * apply MAltR. rewrite concat_cons. inversion F; subst.
        constructor; [assumption|]. apply IH. exists parts. simpl in L.
        split; [lia | auto].
Qed.

Lemma concat_app (l1 l2 : list string) :
  String.concat "" (l1 ++ l2)
  = (String.concat "" l1 ++ String.concat "" l2)%string.
Proof.
  induction l1 as [|x l1 IH]; [reflexivity|].
  change ((x :: l1) ++ l2) with (x :: (l1 ++ l2)).
  now rewrite !concat_cons, IH, append_assoc.
Qed.

Lemma matches_range (r : Regex) (m n : nat) (s : string) :
  (m <= n)%nat ->
  (Matches (range m n r) s
   <-> exists parts, (m <= List.length parts <= n)%nat /\ Forall (Matches r) parts
                     /\ s = String.concat "" parts).
Proof.
  intros Hmn. unfold range. split.
  - intros H. apply seq_inv in H. destruct H as [s1 [s2 [-> [H1 H2]]]].
    apply matches_times in H1. apply matches_upTo in H2.
    destruct H1 as [p1 [L1 [F1 ->]]]. destruct H2 as [p2 [L2 [F2 ->]]].
    exists (p1 ++ p2). rewrite length_app, concat_app.
    split; [lia|]. split; [|reflexivity]. apply Forall_app. auto.
  - intros [parts [[L1 L2] [F ->]]].
    rewrite <- (firstn_skipn m parts), concat_app.
    rewrite <- (firstn_skipn m parts) in F. apply Forall_app in F.
    destruct F as [F1 F2].
    constructor.
    + apply matches_times. exists (firstn m parts).
      rewrite length_firstn. split; [lia | auto].
    + apply matches_upTo. exists (skipn m parts).
      rewrite length_skipn. split; [lia | auto].
Qed.

Lemma matches_hex_group (g : string) :
  Matches (range 1 4 (Class isHex)) g <-> hexGroup g = true.
Proof.
  rewrite matches_range_class by lia. unfold hexGroup.
  rewrite !andb_true_iff, !Nat.leb_le. tauto.
Qed.

Lemma matches_group_colon (p : string) :
  Matches (Seq (range 1 4 (Class isHex)) (chr ":")) p
  <-> exists g, hexGroup g = true /\ p = (g ++ ":")%string.
Proof.
  split.
  - intros H. apply seq_inv in H. destruct H as [s1 [s2 [-> [H1 H2]]]].
    apply matches_hex_group in H1. apply matches_chr in H2. subst. eauto.
  - intros [g [H ->]]. constructor.
    + now apply matches_hex_group.
    + now apply matches_chr.
Qed.

Lemma matches_colon_group (p : string) :
  Matches (Seq (chr ":") (range 1 4 (Class isHex))) p
  <-> exists g, hexGroup g = true /\ p = (":" ++ g)%string.
Proof.
  split.
  - intros H. apply seq_inv in H. destruct H as [s1 [s2 [-> [H1 H2]]]].
    apply matches_hex_group in H2. apply matches_chr in H1. subst. eauto.
  - intros [g [H ->]]. constructor.
    + now apply matches_chr.
    + now apply matches_hex_group.
Qed.

(** Parts that each are the image of a group under [f]. *)
Lemma parts_of_groups (r : Regex) (f : string -> string) :
  (forall p, Matches r p <-> exists g, hexGroup g = true /\ p = f g) ->
  forall parts, Forall (Matches r) parts
                <-> exists gs, forallb hexGroup gs = true /\ parts = map f gs.
Proof.
  intros Hr parts. split.
  - induction 1 as [|p parts Hp _ IH].
    + exists []. auto.
    + apply Hr in Hp. destruct Hp as [g [Hg ->]].
      destruct IH as [gs [Hgs ->]]. exists (g :: gs). simpl. rewrite Hg, Hgs. auto.
  - intros [gs [Hgs ->]]. induction gs as [|g gs IH]; simpl; constructor.
    + apply Hr. simpl in Hgs. apply andb_prop in Hgs. exists g. tauto.
    + apply IH. simpl in Hgs. apply andb_prop in Hgs. tauto.
Qed.

Lemma join_trailing (gs : list string) (rest : string) :
  gs <> [] ->
  (String.concat "" (map (fun g => g ++ ":") gs) ++ rest)%string
  = (String.concat ":" gs ++ ":" ++ rest)%string.
Proof.
  induction gs as [|g gs IH]; [congruence|]. intros _.
  cbn [map]. rewrite concat_cons.
  destruct gs as [|g' gs].
  - simpl. now rewrite append_nil_r, !append_assoc.
  - rewrite append_assoc, IH by discriminate.
    change (String.concat ":" (g :: g' :: gs))
      with (g ++ ":" ++ String.concat ":" (g' :: gs))%string.
    now rewrite !append_assoc.
Qed.

Lemma join_leading (gs : list string) :
  String.concat "" (map (fun g => ":" ++ g) gs)%string
  = match gs with
    | [] => ""%string
    | _ => (":" ++ String.concat ":" gs)%string
    end.
Proof.
  induction gs as [|g gs IH]; [reflexivity|].
  cbn [map]. rewrite concat_cons, IH.
  destruct gs as [|g' gs].
  - simpl. now rewrite append_nil_r.
  - reflexivity.
Qed.

Lemma join_last (gs : list string) (g : string) :
  (String.concat "" (map (fun g => g ++ ":") gs) ++ g)%string
  = String.concat ":" (gs ++ [g]).
Proof.
  induction gs as [|g0 gs IH]; [reflexivity|].
  cbn [map]. rewrite concat_cons, append_assoc, IH.
  change ((g0 :: gs) ++ [g]) with (g0 :: (gs ++ [g])).
  destruct (gs ++ [g]) as [|x l] eqn:E.
  - destruct gs; discriminate.
  - simpl. now rewrite append_assoc.
Qed.

Lemma matches_ipv6 (s : string) :
  Matches ipv6Regex s
  <-> (exists gs, List.length gs = 8%nat /\ forallb hexGroup gs = true
                  /\ s = String.concat ":" gs)
      \/ s = "::"%string
      \/ (exists gs, (1 <= List.length gs <= 6)%nat /\ forallb hexGroup gs = true
                     /\ s = (String.concat ":" gs ++ "::")%string)
      \/ (exists gs, (1 <= List.length gs <= 6)%nat /\ forallb hexGroup gs = true
                     /\ s = ("::" ++ String.concat ":" gs)%string).
Proof.
  unfold ipv6Regex. cbv zeta.
  pose proof (parts_of_groups (fun g => g ++ ":")%string matches_group_colon) as PC.
  pose proof (parts_of_groups (fun g => ":" ++ g)%string matches_colon_group) as CP.
  split.
  - intros H. apply alt_inv in H. destruct H as [H|H].
    { left. apply seq_inv in H. destruct H as [s1 [g [-> [H1 Hg]]]].
      apply matches_times in H1. destruct H1 as [parts [L [F ->]]].
      apply PC in F. destruct F as [gs [Hgs ->]].
      apply matches_hex_group in Hg.
      exists (gs ++ [g]). rewrite length_map in L.
      rewrite length_app, forallb_app, Hgs. simpl. rewrite Hg.
      split; [lia|]. split; [reflexivity|]. apply join_last. }
    apply alt_inv in H. destruct H as [H|H].
    { right. left. apply seq_inv in H. destruct H as [s1 [s2 [-> [H1 H2]]]].
      apply matches_chr in H1. apply matches_chr in H2. now subst. }
    apply alt_inv in H. destruct H as [H|H].
    { right. right. left. apply seq_inv in H. destruct H as [s1 [s2 [-> [H1 H2]]]].
      apply matches_chr in H2. subst s2.
      apply matches_range in H1; [|lia]. destruct H1 as [parts [L [F ->]]].
      apply PC in F. destruct F as [gs [Hgs ->]]. rewrite length_map in L.
      exists gs. split; [assumption|]. split; [assumption|].
      rewrite join_trailing; [reflexivity|].
      intros ->. simpl in L. lia. }
    { right. right. right. apply seq_inv in H. destruct H as [s1 [s2 [-> [H1 H2]]]].
      apply matches_chr in H1. subst s1.
      apply matches_range in H2; [|lia]. destruct H2 as [parts [L [F ->]]].
      apply CP in F. destruct F as [gs [Hgs ->]]. rewrite length_map in L.
      exists gs. split; [assumption|]. split; [assumption|].
      rewrite join_leading. destruct gs; [simpl in L; lia | reflexivity]. }
  - intros [H|[H|[H|H]]].
    + destruct H as [gs [L [Hgs ->]]]. apply MAltL.
      destruct (exists_last (l := gs)) as [front [g E]].
      { intros ->. discriminate. }
      subst gs. rewrite length_app in L. simpl in L.
      rewrite forallb_app in Hgs. apply andb_prop in Hgs. destruct Hgs as [Hf Hg].
      simpl in Hg. rewrite andb_true_r in Hg.
      rewrite <- join_last. constructor.
      * apply matches_times. exists (map (fun g => g ++ ":")%string front).
        rewrite length_map. split; [lia|]. split; [|reflexivity].
        apply PC. eauto.
      * now apply matches_hex_group.
    + subst. apply MAltR, MAltL.
      change "::"%string with (":" ++ ":")%string.
      constructor; now apply matches_chr.
    + destruct H as [gs [L [Hgs ->]]]. apply MAltR, MAltR, MAltL.
      change "::"%string with (":" ++ ":")%string.
      rewrite <- join_trailing by (intros ->; simpl in L; lia).
      constructor; [|now apply matches_chr].
      apply matches_range; [lia|].
      exists (map (fun g => g ++ ":")%string gs). rewrite length_map.
      split; [assumption|]. split; [|reflexivity]. apply PC. eauto.
    + destruct H as [gs [L [Hgs ->]]]. apply MAltR, MAltR, MAltR.
      change ("::" ++ String.concat ":" gs)%string
        with (":" ++ (":" ++ String.concat ":" gs))%string.
      constructor; [now apply matches_chr|].
      apply matches_range; [lia|].
      exists (map (fun g => ":" ++ g)%string gs). rewrite length_map.
      split; [assumption|]. split; [apply CP; eauto|].
      rewrite join_leading. destruct gs; [simpl in L; lia | reflexivity].
Qed.

End IPv6Facts.

(** X15.  [isValidIPv6] accepts exactly four shapes, where a group is one to
    four hexadecimal digits: eight groups joined by colons; "::" alone; one
    to six groups joined by colons and followed by "::"; "::" followed by one
    to six groups joined by colons. *)
Theorem isValidIPv6_iff_four_shapes :
  forall s : string,
    Legacy.isValidIPv6 (JStr s) = true
    <-> (exists gs, List.length gs = 8%nat /\ forallb hexGroup gs = true
                    /\ s = String.concat ":" gs)
        \/ s = "::"%string
        \/ (exists gs, (1 <= List.length gs <= 6)%nat /\ forallb hexGroup gs = true
                       /\ s = (String.concat ":" gs ++ "::")%string)
        \/ (exists gs, (1 <= List.length gs <= 6)%nat /\ forallb hexGroup gs = true
                       /\ s = ("::" ++ String.concat ":" gs)%string).
Proof.
  intros s. unfold Legacy.isValidIPv6. cbn [toString].
  rewrite test_spec. apply matches_ipv6.
Qed.

Section SplitFacts.
Import Legacy.

Lemma split_not_nil (sep : ascii) (s : string) : split sep s <> [].
Proof.
  destruct s as [|c s]; simpl; [discriminate|].
  destruct (Ascii.eqb c sep); [discriminate|].
  destruct (split sep s); discriminate.
Qed.

Lemma split_app_sep (sep : ascii) (a b : string) :
  split sep (a ++ String sep b) = split sep a ++ split sep b.
Proof.
  induction a as [|c a IH]; simpl.
  - now rewrite Ascii.eqb_refl.
  - destruct (Ascii.eqb c sep); [now rewrite IH|].
    rewrite IH. pose proof (split_not_nil sep a) as N.
    destruct (split sep a); [congruence | reflexivity].
Qed.

Lemma hex_not_colon (c : ascii) : isHex c = true -> Ascii.eqb c ":" = false.
Proof.
  destruct c as [[] [] [] [] [] [] [] []]; vm_compute; intros H;
    try discriminate; reflexivity.
Qed.

Lemma split_hex (g : string) : allOf isHex g = true -> split ":" g = [g].
Proof.
  induction g as [|c g IH]; simpl; [reflexivity|].
  intros H. apply andb_prop in H. destruct H as [Hc Hg].
  rewrite (hex_not_colon c Hc), (IH Hg). reflexivity.
Qed.

Lemma hexGroup_hex (g : string) : hexGroup g = true -> allOf isHex g = true.
Proof.
  unfold hexGroup. intros H.
  apply andb_prop in H. destruct H as [H _].
  apply andb_prop in H. tauto.
Qed.

Lemma split_join (gs : list string) :
  gs <> [] -> forallb hexGroup gs = true ->
  split ":" (String.concat ":" gs) = gs.
Proof.
  induction gs as [|g gs IH]; [congruence|]. intros _ H.
  simpl in H. apply andb_prop in H. destruct H as [Hg Hgs].
  destruct gs as [|g' gs].
  - simpl. now apply split_hex, hexGroup_hex.
  - change (String.concat ":" (g :: g' :: gs))
      with (g ++ String ":" (String.concat ":" (g' :: gs)))%string.
    rewrite split_app_sep, IH by (discriminate || assumption).
    now rewrite split_hex by now apply hexGroup_hex.
Qed.

Lemma hexGroup_not_empty : hexGroup "" = false.
Proof. reflexivity. Qed.

End SplitFacts.

(** X16.  [isValidIPv6] rejects every address that has "::" between two
    groups, as 2001:db8::1 has: the pattern allows "::" only at the start or
    at the end. *)
Theorem isValidIPv6_rejects_inner_compression :
  forall front back : list string,
    front <> [] -> back <> [] ->
    forallb hexGroup front = true -> forallb hexGroup back = true ->
    Legacy.isValidIPv6
      (JStr (String.concat ":" front ++ "::" ++ String.concat ":" back)) = false.
Proof.
  intros front back Nf Nb Hf Hb.
  destruct (Legacy.isValidIPv6 _) eqn:E; [|reflexivity]. exfalso.
  unfold Legacy.isValidIPv6 in E. cbn [toString] in E.
  apply test_spec, matches_ipv6 in E.
  assert (S : Legacy.split ":" (String.concat ":" front ++ "::" ++ String.concat ":" back)
              = front ++ ""%string :: back).
  { change (String.concat ":" front ++ "::" ++ String.concat ":" back)%string
      with (String.concat ":" front
              ++ String ":" ("" ++ String ":" (String.concat ":" back)))%string.
    now rewrite !split_app_sep, !split_join. }
  assert (Hin : forall gs, forallb hexGroup gs = true -> ~ In ""%string gs).
  { intros gs H Hi. rewrite forallb_forall in H. specialize (H _ Hi). discriminate. }
  destruct E as [[gs [L [Hgs E]]]|[E|[[gs [L [Hgs E]]]|[gs [L [Hgs E]]]]]];
    rewrite E in S.
  - rewrite split_join in S by (assumption || (intros ->; discriminate)).
    apply (Hin gs Hgs). rewrite S. apply in_or_app. right. now left.
  - destruct front as [|g front]; [congruence|].
    injection S as <- _. discriminate.
  - change (String.concat ":" gs ++ "::")%string
      with (String.concat ":" gs ++ String ":" ("" ++ String ":" ""))%string in S.
    rewrite !split_app_sep, split_join in S
      by (assumption || (intros ->; simpl in L; lia)).
    destruct (exists_last Nb) as [back' [g Eb]]. subst back.
    change (gs ++ Legacy.split ":" "" ++ Legacy.split ":" "")
      with (gs ++ [""%string] ++ [""%string]) in S.
    replace (front ++ ""%string :: back' ++ [g])
      with ((front ++ ""%string :: back') ++ [g]) in S
      by (rewrite <- app_assoc; reflexivity).
    rewrite app_assoc in S. apply app_inj_tail in S. destruct S as [_ <-].
    rewrite forallb_app in Hb. apply andb_prop in Hb. destruct Hb as [_ Hb].
    discriminate.
  - change ("::" ++ String.concat ":" gs)%string
      with ("" ++ String ":" ("" ++ String ":" (String.concat ":" gs)))%string in S.
    rewrite !split_app_sep in S.
    destruct front as [|g front]; [congruence|].
    injection S as <- _. discriminate.
Qed.

Section LegacyClient.
Import LegacyClass.
Variable B : Type.
Variable post : string -> list (string * string) -> B -> Settled * B.
Variables token zone : string.

Lemma posts_app (t u : list Event) : posts (t ++ u) = posts t ++ posts u.
Proof. apply filter_app. Qed.

Lemma saysSo_true (phrase : string) (error : Failure) :
  saysSo phrase error = Returned true
  <-> exists m, optGet (responseData error) "status" = JStr "error"
                /\ optGet (responseData error) "errorMessage" = JStr m
                /\ includes phrase m = true.
Proof.
  unfold saysSo. split.
  - destruct (strictEq _ _) eqn:S; [|discriminate].
    apply strictEq_true in S.
    destruct (optGet (responseData error) "errorMessage"); try discriminate.
    intros H. injection H as H. eauto.
  - intros [m [S [E I]]]. rewrite S, E, I. reflexivity.
Qed.

Lemma legacy_createRecord_fulfilled (hostname content ttl : JsVal) (t : string)
      (additionalOptions : Obj) (st : B * list Event) (data : Obj) (b : B) :
  ttl <> JNull ->
  post "/api/zones/records/add"
       (createParams token zone hostname t content (orDefault ttl (JNum 300))
                     additionalOptions) (fst st)
    = (Fulfilled data, b) ->
  createRecord post token zone hostname (JStr t) content ttl additionalOptions st
  = let sent := Post "/api/zones/records/add"
                  (createParams token zone hostname t content
                                (orDefault ttl (JNum 300)) additionalOptions) in
    if strictNe (get "status" data) (JStr "ok") then
      let error := mkFailure ("Technitium API error: " ++
                              toString (get "status" data))%string JUndef in
      (Threw error,
       (b, snd st ++ [sent; Logged LError ("Error creating Technitium record: " ++
                                           message error)%string]))
    else
      (Returned true,
       (b, snd st ++ [sent; Logged LInfo ("Created " ++ t ++ " record: " ++
                                          toString hostname ++ " -> " ++
                                          toString content)%string])).
Proof.
  intros Hn Hp. unfold createRecord, catch, bind, send. cbv zeta.
  assert (E : forall (A : Type) (x y : A),
             match orDefault ttl (JNum 300) with JNull => x | _ => y end = y).
  { intros A x y. destruct ttl; try reflexivity. congruence. }
  rewrite E, Hp.
  destruct (strictNe (get "status" data) (JStr "ok")).
  - unfold throw, saysSo, rethrow, bind, log, typeError. cbn.
    rewrite <- app_assoc. reflexivity.
  - unfold log, ret. cbn. rewrite <- app_assoc. reflexivity.
Qed.

Lemma legacy_createRecord_rejected (hostname content ttl : JsVal) (t : string)
      (additionalOptions : Obj) (st : B * list Event) (error : Failure) (b : B) :
  ttl <> JNull ->
  post "/api/zones/records/add"
       (createParams token zone hostname t content (orDefault ttl (JNum 300))
                     additionalOptions) (fst st)
    = (RejectedWith error, b) ->
  createRecord post token zone hostname (JStr t) content ttl additionalOptions st
  = let sent := Post "/api/zones/records/add"
                  (createParams token zone hostname t content
                                (orDefault ttl (JNum 300)) additionalOptions) in
    match saysSo "already exists" error with
    | Returned true =>
        (Returned false,
         (b, snd st ++ [sent; Logged LDebug ("Record already exists: " ++
                                             toString hostname ++ " (" ++ t ++ ")")%string]))
    | Returned false =>
        (Threw error,
         (b, snd st ++ [sent; Logged LError ("Error creating Technitium record: " ++
                                             message error)%string]))
    | Threw e => (Threw e, (b, snd st ++ [sent]))
    end.
Proof.
  intros Hn Hp. unfold createRecord, catch, bind, send. cbv zeta.
  assert (E : forall (A : Type) (x y : A),
             match orDefault ttl (JNum 300) with JNull => x | _ => y end = y).
  { intros A x y. destruct ttl; try reflexivity. congruence. }
  rewrite E, Hp.
  destruct (saysSo "already exists" error) as [[|]|e].
  - unfold log, ret. cbn. rewrite <- app_assoc. reflexivity.
  - unfold rethrow, bind, log, throw. cbn. rewrite <- app_assoc. reflexivity.
  - reflexivity.
Qed.

Lemma legacy_createRecord_no_request (hostname type content ttl : JsVal)
      (additionalOptions : Obj) (st : B * list Event) :
  ttl = JNull \/ (forall t, type <> JStr t) ->
  exists error line,
    createRecord post token zone hostname type content ttl additionalOptions st
    = (Threw error, (fst st, snd st ++ [Logged LError line])).
Proof.
  intros H. unfold createRecord, catch. cbv zeta.
  assert (T : exists line,
             (match orDefault ttl (JNum 300) with
              | JNull => throw (typeError "Cannot read properties of null (reading 'toString')")
              | _ =>
                  match type with
                  | JStr t =>
                      bind (send post "/api/zones/records/add"
                              (createParams token zone hostname t content
                                 (orDefault ttl (JNum 300)) additionalOptions))
                        (fun data =>
                           if strictNe (get "status" data) (JStr "ok") then
                             throw (mkFailure ("Technitium API error: " ++
                                               toString (get "status" data))%string JUndef)
                           else
                             bind (log LInfo ("Created " ++ t ++ " record: " ++
                                              toString hostname ++ " -> " ++
                                              toString content)%string)
                                  (fun _ => ret true))
                  | _ => throw (typeError "type.toUpperCase is not a function")
                  end
              end) st = (Threw (typeError line), st)).
  { destruct H as [->|H].
    - eexists. reflexivity.
    - destruct type; try (destruct (orDefault ttl (JNum 300)); eexists; reflexivity).
      exfalso. now apply (H s). }
  destruct T as [line T]. rewrite T.
  exists (typeError line). eexists. destruct st. reflexivity.
Qed.

Lemma legacy_deleteRecord_fulfilled (hostname content : JsVal) (t : string)
      (st : B * list Event) (data : Obj) (b : B) :
  post "/api/zones/records/delete" (deleteParams token zone hostname t content) (fst st)
    = (Fulfilled data, b) ->
  deleteRecord post token zone hostname (JStr t) content st
  = let sent := Post "/api/zones/records/delete"
                  (deleteParams token zone hostname t content) in
    if strictNe (get "status" data) (JStr "ok") then
      let error := mkFailure ("Technitium API error: " ++
                              toString (get "status" data))%string JUndef in
      (Threw error,
       (b, snd st ++ [sent; Logged LError ("Error deleting Technitium record: " ++
                                           message error)%string]))
    else
      (Returned true,
       (b, snd st ++ [sent; Logged LInfo ("Deleted " ++ t ++ " record: " ++
                                          toString hostname ++ " -> " ++
                                          toString content)%string])).
Proof.
  intros Hp. unfold deleteRecord, catch, bind, send. rewrite Hp.
  destruct (strictNe (get "status" data) (JStr "ok")).
  - unfold throw, saysSo, rethrow, bind, log, typeError. cbn.
    rewrite <- app_assoc. reflexivity.
  - unfold log, ret. cbn. rewrite <- app_assoc. reflexivity.
Qed.

Lemma legacy_deleteRecord_rejected (hostname content : JsVal) (t : string)
      (st : B * list Event) (error : Failure) (b : B) :
  post "/api/zones/records/delete" (deleteParams token zone hostname t content) (fst st)
    = (RejectedWith error, b) ->
  deleteRecord post token zone hostname (JStr t) content st
  = let sent := Post "/api/zones/records/delete"
                  (deleteParams token zone hostname t content) in
    match saysSo "not found" error with
    | Returned true =>
        (Returned false,
         (b, snd st ++ [sent; Logged LDebug ("Record not found for deletion: " ++
                                             toString hostname ++ " (" ++ t ++ ")")%string]))
    | Returned false =>
        (Threw error,
         (b, snd st ++ [sent; Logged LError ("Error deleting Technitium record: " ++
                                             message error)%string]))
    | Threw e => (Threw e, (b, snd st ++ [sent]))
    end.
Proof.
  intros Hp. unfold deleteRecord, catch, bind, send. rewrite Hp.
  destruct (saysSo "not found" error) as [[|]|e].
  - unfold log, ret. cbn. rewrite <- app_assoc. reflexivity.
  - unfold rethrow, bind, log, throw. cbn. rewrite <- app_assoc. reflexivity.
  - reflexivity.
Qed.

Lemma legacy_updateRecord_eq (hostname type oldContent newContent ttl : JsVal)
      (additionalOptions : Obj) (st : B * list Event) :
  updateRecord post token zone hostname type oldContent newContent ttl
               additionalOptions st
  = let failed (error : Failure) (st' : B * list Event) :=
        (Threw error,
         (fst st', snd st' ++ [Logged LError ("Error updating Technitium record: " ++
                                              message error)%string])) in
    match deleteRecord post token zone hostname type oldContent st with
    | (Returned _, st1) =>
        match createRecord post token zone hostname type newContent
                (orDefault ttl (JNum 300)) additionalOptions st1 with
        | (Returned _, st2) =>
            (Returned true,
             (fst st2,
              snd st2 ++ [Logged LInfo ("Updated " ++ toString type ++ " record: " ++
                                        toString hostname ++ " (" ++
                                        toString oldContent ++ " -> " ++
                                        toString newContent ++ ")")%string]))
        | (Threw error, st2) => failed error st2
        end
    | (Threw error, st1) => failed error st1
    end.
Proof.
  unfold updateRecord, catch, bind. cbv zeta.
  destruct (deleteRecord post token zone hostname type oldContent st) as [[d|e] st1].
  - destruct (createRecord post token zone hostname type newContent
                (orDefault ttl (JNum 300)) additionalOptions st1) as [[c|e] st2];
      reflexivity.
  - reflexivity.
Qed.

End LegacyClient.




Section RecordName.
Import LegacyClass.

Lemma prefix_refl (s : string) : String.prefix s s = true.
Proof.
  induction s as [|c s IH]; simpl; [reflexivity|].
  destruct (ascii_dec c c); [assumption | congruence].
Qed.

Lemma endsWith_app (suffix a : string) : endsWith suffix (a ++ suffix) = true.
Proof.
  induction a as [|c a IH].
  - destruct suffix; simpl; [reflexivity|].
    now rewrite Ascii.eqb_refl, String.eqb_refl.
  - change ((String c a) ++ suffix)%string with (String c (a ++ suffix)).
    cbn [endsWith]. rewrite IH. apply orb_true_r.
Qed.

Lemma prefix_nil (s : string) : String.prefix "" s = true.
Proof. now destruct s. Qed.

Lemma prefix_one (c : ascii) (s : string) : String.prefix (String c "") (String c s) = true.
Proof.
  cbn [String.prefix]. destruct (ascii_dec c c); [apply prefix_nil | congruence].
Qed.

Lemma includes_dot_app (a b : string) : includes "." (a ++ String "." b) = true.
Proof.
  induction a as [|c a IH].
  { change ("" ++ String "." b)%string with (String "." b).
    cbn [includes]. now rewrite prefix_one. }
  change ((String c a) ++ String "." b)%string with (String c (a ++ String "." b)).
  cbn [includes]. rewrite IH. apply orb_true_r.
Qed.

Lemma endsWith_includes (c : ascii) (suffix s : string) :
  endsWith (String c suffix) s = true -> includes (String c "") s = true.
Proof.
  induction s as [|d s IH]; [discriminate|].
  cbn [endsWith includes]. intros H. apply orb_prop in H. destruct H as [H|H].
  - apply String.eqb_eq in H. injection H as -> _.
    now rewrite prefix_one.
  - rewrite (IH H). apply orb_true_r.
Qed.

Lemma qualified_not_zone (name zone : string) :
  ((name ++ String "." zone)%string =? zone)%string = false.
Proof.
  apply String.eqb_neq. intros E.
  assert (L : String.length (name ++ String "." zone) = String.length zone)
    by now rewrite E.
  rewrite append_length in L. simpl in L. lia.
Qed.

Lemma qualified_not_at (name zone : string) :
  ((name ++ String "." zone)%string =? "@")%string = false.
Proof.
  apply String.eqb_neq. destruct name as [|c [|d name]]; simpl; congruence.
Qed.

End RecordName.

(** X17.  [getRecordName] is idempotent, and what it returns is the zone
    itself or a name with a dot in it: a bare label is always qualified with
    the zone, "@" becomes the zone, and a name that has a dot is returned as
    it is. *)
Theorem getRecordName_is_idempotent_and_qualified :
  forall zone name : string,
    let full := LegacyClass.getRecordName zone name in
    LegacyClass.getRecordName zone full = full
    /\ (full = zone \/ LegacyClass.includes "." full = true)
    /\ (LegacyClass.includes "." name = false -> name <> zone -> name <> "@"%string ->
        full = (name ++ "." ++ zone)%string)
    /\ (LegacyClass.includes "." name = true -> name <> zone -> full = name).
Proof.
  intros zone name full. subst full. unfold LegacyClass.getRecordName.
  destruct (String.eqb_spec name zone) as [->|Nz]; cbn [orb].
  { rewrite String.eqb_refl. cbn [orb]. repeat split; auto; congruence. }
  destruct (String.eqb_spec name "@") as [->|Na].
  { rewrite String.eqb_refl. cbn [orb]. repeat split; auto; try congruence.
    intros H. discriminate. }
  destruct (LegacyClass.endsWith ("." ++ zone) name) eqn:E.
  { destruct (String.eqb_spec name zone); [contradiction|].
    destruct (String.eqb_spec name "@"); [contradiction|]. cbn [orb]. rewrite E.
    pose proof (endsWith_includes _ _ _ E) as I.
    split; [reflexivity|]. split; [now right|]. split; [congruence | reflexivity]. }
  destruct (LegacyClass.includes "." name) eqn:I; cbn [negb].
  - destruct (String.eqb_spec name zone); [contradiction|].
    destruct (String.eqb_spec name "@"); [contradiction|]. cbn [orb].
    rewrite E, I. cbn [negb].
    split; [reflexivity|]. split; [now right|]. split; [discriminate | reflexivity].
  - change (name ++ "." ++ zone)%string with (name ++ String "." zone)%string.
    rewrite qualified_not_zone, qualified_not_at. cbn [orb].
    change (name ++ String "." zone)%string with (name ++ ("." ++ zone))%string.
    rewrite endsWith_app.
    split; [reflexivity|]. split; [right; apply includes_dot_app|].
    split; [reflexivity | discriminate].
Qed.

Section ClosedLegacy.
Import Scenario3.

Lemma isValidIPv6_rejects_inner_compression_witness :
["2001"; "db8"]%string <> [] /\ ["1"%string] <> []
/\ forallb hexGroup ["2001"; "db8"]%string = true
/\ forallb hexGroup ["1"%string] = true
/\ Legacy.isValidIPv6 (JStr "2001:db8::1") = false.
Proof.
assert (H1 : ["2001"; "db8"]%string <> []) by discriminate.
assert (H2 : ["1"%string] <> []) by discriminate.
split; [exact H1|]. split; [exact H2|]. split; [reflexivity|]. split; [reflexivity|].
exact (@isValidIPv6_rejects_inner_compression ["2001"; "db8"]%string ["1"%string]
         H1 H2 eq_refl eq_refl).
Defined.

Lemma getRecordName_is_idempotent_and_qualified_witness :
let full := LegacyClass.getRecordName "example.com" "app" in
LegacyClass.getRecordName "example.com" full = full
/\ (full = "example.com"%string \/ LegacyClass.includes "." full = true)
/\ (LegacyClass.includes "." "app" = false -> "app"%string <> "example.com"%string ->
    "app"%string <> "@"%string -> full = "app.example.com"%string)
/\ (LegacyClass.includes "." "app" = true -> "app"%string <> "example.com"%string ->
    full = "app"%string).
Proof.
exact (@getRecordName_is_idempotent_and_qualified "example.com" "app").
Defined.



Lemma legacy_validateRecord_checks_ipv4_witness :
Legacy.toUpperCase "a" = "A"%string
/\ (Legacy.validateRecord (JStr "example.com") (JStr "app.example.com") (JStr "a")
      (JStr "10.0.0.1") [] = Ok []
    <-> truthy (JStr "app.example.com") = true
        /\ exists a b c d,
             "10.0.0.1"%string = (a ++ "." ++ b ++ "." ++ c ++ "." ++ d)%string
             /\ octet a = true /\ octet b = true /\ octet c = true /\ octet d = true)
/\ (forall result,
      Legacy.validateRecord (JStr "example.com") (JStr "app.example.com") (JStr "a")
        (JStr "10.0.0.1") [] = Ok result -> result = []).
Proof.
split; [reflexivity|].
exact (@legacy_validateRecord_checks_ipv4 (JStr "example.com") (JStr "app.example.com")
         "a" "10.0.0.1" [] eq_refl).
Defined.

End ClosedLegacy.

(* ================================================================== *)
(** * Further properties of the public IP cache *)
(* ================================================================== *)

Section Exclusion.
Import Resolver.

Lemma finish_shape (en : Entry) (now : Z) (l : Locals) (s : State) :
  tasks (fst (finish en now l s)) = tasks s
  /\ ipUpdateInProgress (fst (finish en now l s)) = false
  /\ holder (snd (finish en now l s)) = false.
Proof.
  destruct (finish_spec en now l s) as [Hp [Hf [Ht _]]].
  rewrite Hp. auto.
Qed.

Lemma tryIpv6_shape (me : nat) (en : Entry) (now : Z) (l : Locals) (s : State) :
  tasks (fst (tryIpv6 me en now l s)) = tasks s
  /\ ((ipUpdateInProgress (fst (tryIpv6 me en now l s)) = ipUpdateInProgress s
       /\ holder (snd (tryIpv6 me en now l s)) = true)
      \/ (ipUpdateInProgress (fst (tryIpv6 me en now l s)) = false
          /\ holder (snd (tryIpv6 me en now l s)) = false)).
Proof.
  unfold tryIpv6. destruct (negb (truthy (ipv6' l))).
  - split; [reflexivity|]. left. split; reflexivity.
  - destruct (finish_shape en now l s) as [Ht [Hf Hh]]. auto.
Qed.

Lemma enterUpdate_shape (me : nat) (en : Entry) (now : Z) (s : State) :
  tasks (fst (enterUpdate me en now s)) = tasks s
  /\ if ipUpdateInProgress s
     then ipUpdateInProgress (fst (enterUpdate me en now s)) = true
          /\ holder (snd (enterUpdate me en now s)) = false
     else (ipUpdateInProgress (fst (enterUpdate me en now s)) = true
           /\ holder (snd (enterUpdate me en now s)) = true)
          \/ (ipUpdateInProgress (fst (enterUpdate me en now s)) = false
              /\ holder (snd (enterUpdate me en now s)) = false).
Proof.
  unfold enterUpdate. destruct (ipUpdateInProgress s) eqn:F.
  - cbn [fst snd]. split; [reflexivity|]. split; [exact F | reflexivity].
  - destruct (negb (truthy (ipv4' _))).
    + split; [reflexivity|]. left. split; reflexivity.
    + match goal with
      | |- context [tryIpv6 me en now ?l ?x] =>
          destruct (tryIpv6_shape me en now l x) as [Ht [[Hf Hh]|[Hf Hh]]]
      end.
      * split; [exact Ht|]. left. split; [rewrite Hf; reflexivity | exact Hh].
      * split; [exact Ht|]. right. auto.
Qed.

Lemma enter_shape (me : nat) (en : Entry) (now : Z) (s : State) :
  tasks (fst (enter me en now s)) = tasks s
  /\ if ipUpdateInProgress s
     then ipUpdateInProgress (fst (enter me en now s)) = true
          /\ holder (snd (enter me en now s)) = false
     else (ipUpdateInProgress (fst (enter me en now s)) = true
           /\ holder (snd (enter me en now s)) = true)
          \/ (ipUpdateInProgress (fst (enter me en now s)) = false
              /\ holder (snd (enter me en now s)) = false).
Proof.
  unfold enter. destruct en; [apply enterUpdate_shape|].
  destruct (_ && _)%bool; [|apply enterUpdate_shape].
  cbn [fst snd]. split; [reflexivity|].
  destruct (ipUpdateInProgress s) eqn:F; auto.
Qed.

Lemma resume_shape (me : nat) (en : Entry) (now : Z) (net : NetResult) (p : Pc)
      (s : State) :
  tasks (fst (resume me en now net p s)) = tasks s
  /\ if holder p
     then (ipUpdateInProgress (fst (resume me en now net p s)) = ipUpdateInProgress s
           /\ holder (snd (resume me en now net p s)) = true)
          \/ (ipUpdateInProgress (fst (resume me en now net p s)) = false
              /\ holder (snd (resume me en now net p s)) = false)
     else ipUpdateInProgress (fst (resume me en now net p s)) = ipUpdateInProgress s
          /\ holder (snd (resume me en now net p s)) = false.
Proof.
  destruct p as [ |l|l|l|r]; cbn [resume holder].
  - destruct (ipUpdateInProgress s) eqn:F; cbn [fst snd]; rewrite ?F; auto.
  - destruct net as [data|message].
    + apply tryIpv6_shape.
    + cbn [fst snd]. split; [reflexivity|]. left. split; reflexivity.
  - destruct net as [data|message].
    + apply tryIpv6_shape.
    + match goal with
      | |- context [tryIpv6 me en now l ?x] =>
          destruct (tryIpv6_shape me en now l x) as [Ht [[Hf Hh]|[Hf Hh]]]
      end; (split; [exact Ht|]); [left | right]; auto.
  - destruct net as [data|message].
    + match goal with
      | |- context [finish en now ?k s] =>
          destruct (finish_shape en now k s) as [Ht [Hf Hh]]
      end. auto.
    + match goal with
      | |- context [finish en now l ?x] =>
          destruct (finish_shape en now l x) as [Ht [Hf Hh]]
      end. split; [exact Ht|]. right. auto.
  - cbn [fst snd]. auto.
Qed.

Lemma holders_app (ts us : list Task) : holders (ts ++ us) = (holders ts + holders us)%nat.
Proof. unfold holders. now rewrite filter_app, length_app. Qed.

Lemma holders_setTask (i : nat) (t t' : Task) (ts : list Task) :
  nth_error ts i = Some t ->
  (holders (setTask i t' ts) + (if holder (pc t) then 1 else 0)
   = holders ts + (if holder (pc t') then 1 else 0))%nat.
Proof.
  revert i. induction ts as [|x ts IH]; intros i E.
  - destruct i; discriminate.
  - destruct i as [|i]; simpl in E.
    + injection E as ->. unfold holders. cbn [setTask filter].
      destruct (holder (pc t)); destruct (holder (pc t')); simpl; lia.
    + specialize (IH i E). unfold holders in *. cbn [setTask filter].
      destruct (holder (pc x)); simpl; lia.
Qed.

Lemma holders_pos (i : nat) (t : Task) (ts : list Task) :
  nth_error ts i = Some t -> holder (pc t) = true -> (1 <= holders ts)%nat.
Proof.
  revert i. induction ts as [|x ts IH]; intros i E H.
  - destruct i; discriminate.
  - unfold holders in *. destruct i as [|i]; simpl in E.
    + injection E as ->. cbn [filter]. rewrite H. simpl. lia.
    + cbn [filter]. specialize (IH i E H).
      destruct (holder (pc x)); simpl; lia.
Qed.

Lemma step_exclusive (t : Tick) (s : State) :
  holders (tasks s) = (if ipUpdateInProgress s then 1 else 0)%nat ->
  holders (tasks (step t s))
  = (if ipUpdateInProgress (step t s) then 1 else 0)%nat.
Proof.
  intros H. destruct t as [en now | who now net].
  - unfold step.
    pose proof (enter_shape (List.length (tasks s)) en now s) as [Ht Hs].
    destruct (enter (List.length (tasks s)) en now s) as [s' p]. cbn [fst snd] in *.
    change (tasks (withTasks ?ts s')) with ts.
    change (ipUpdateInProgress (withTasks ?ts s')) with (ipUpdateInProgress s').
    rewrite holders_app, Ht, H. unfold holders. cbn [filter pc].
    destruct (ipUpdateInProgress s).
    + destruct Hs as [-> ->]. reflexivity.
    + destruct Hs as [[-> ->]|[-> ->]]; reflexivity.
  - destruct (nth_error (tasks s) who) as [t0|] eqn:E;
      [|now rewrite step_resume_none].
    rewrite (@step_resume who now net s t0 E).
    pose proof (resume_shape who (entry t0) now net (pc t0) s) as [Ht Hs].
    destruct (resume who (entry t0) now net (pc t0) s) as [s' p]. cbn [fst snd] in *.
    change (tasks (withTasks ?ts s')) with ts.
    change (ipUpdateInProgress (withTasks ?ts s')) with (ipUpdateInProgress s').
    rewrite Ht.
    pose proof (@holders_setTask who t0 (mkTask (entry t0) p) (tasks s) E) as K.
    cbn [pc] in K.
    destruct (holder (pc t0)) eqn:H0.
    + pose proof (holders_pos _ _ E H0) as P.
      destruct (ipUpdateInProgress s); [|lia].
      destruct Hs as [[-> Hp]|[-> Hp]]; rewrite Hp in K; lia.
    + destruct Hs as [-> Hp]. rewrite Hp in K. lia.
Qed.

End Exclusion.

(** X22.  The flag is a lock, whatever the callers do: from a manager on
    which no call was made yet, after any sequence of calls of
    [updatePublicIPs] and [getPublicIP] and of continuations, in any order
    and with any outcome of the requests, the flag is set exactly when one
    call stands at a request, and no two calls ever do. *)
Theorem refresh_flag_is_a_lock :
  forall (ticks : list Resolver.Tick) (s0 : Resolver.State),
    Resolver.ipUpdateInProgress s0 = false ->
    Resolver.tasks s0 = [] ->
    let s := Resolver.run ticks s0 in
    holders (Resolver.tasks s)
    = (if Resolver.ipUpdateInProgress s then 1 else 0)%nat.
Proof.
  intros ticks s0 Hf Ht. cbv zeta.
  assert (H : holders (Resolver.tasks s0)
              = (if Resolver.ipUpdateInProgress s0 then 1 else 0)%nat)
    by now rewrite Hf, Ht.
  clear Hf Ht. revert s0 H.
  induction ticks as [|t rest IH]; intros s0 H; [exact H|].
  cbn [Resolver.run]. apply IH. now apply step_exclusive.
Qed.

Section Environment.
Import Resolver.
Variables ip ip6 : JsVal.

Lemma envOk_record_log (s : State) (l : Level) (msg : string) :
  EnvOk ip ip6 s -> EnvOk ip ip6 (record (Logged l msg) s).
Proof.
  intros [H1 [H2 [H3 H4]]]. unfold EnvOk.
  change (events (record ?e s)) with (events s ++ [e]).
  rewrite outbound_app. cbn [outbound flat_map]. rewrite app_nil_r. auto.
Qed.

Lemma envOk_withFlag (b : bool) (s : State) :
  EnvOk ip ip6 s -> EnvOk ip ip6 (withFlag b s).
Proof. intros H. exact H. Qed.

Lemma finish_env (en : Entry) (now : Z) (l : Locals) (s : State) :
  EnvOk ip ip6 s -> ipv4' l = ip ->
  EnvOk ip ip6 (fst (finish en now l s))
  /\ envPc ip ip6 (snd (finish en now l s))
  /\ tasks (fst (finish en now l s)) = tasks s.
Proof.
  intros [H1 [H2 [H3 H4]]] Hl.
  destruct (finish_spec en now l s) as [Hp [_ [Ht Ho]]]. cbv zeta in *.
  rewrite Hp. split; [|split; [exact I | exact Ht]].
  unfold EnvOk. rewrite Ho. clear Hp Ht Ho.
  unfold finish, recordIf. cbv zeta.
  destruct (truthy (ipv4' l) && strictNe (ipv4' l) (oldIpv4 l))%bool;
    destruct (truthy (ipv6' l) && strictNe (ipv6' l) (oldIpv6 l))%bool;
    cbn; auto.
Qed.

Lemma tryIpv6_env (me : nat) (en : Entry) (now : Z) (l : Locals) (s : State) :
  EnvOk ip ip6 s -> ipv4' l = ip -> ipv6' l = ip6 ->
  EnvOk ip ip6 (fst (tryIpv6 me en now l s))
  /\ envPc ip ip6 (snd (tryIpv6 me en now l s))
  /\ tasks (fst (tryIpv6 me en now l s)) = tasks s.
Proof.
  intros H Hl Hl6. unfold tryIpv6.
  destruct (negb (truthy (ipv6' l))) eqn:T; [|now apply finish_env].
  apply negb_true_iff in T. rewrite Hl6 in T.
  cbn [fst snd envPc]. split; [|auto].
  destruct H as [H1 [H2 [H3 H4]]]. unfold EnvOk.
  change (events (record ?e s)) with (events s ++ [e]).
  rewrite outbound_app. cbn [outbound flat_map app].
  repeat split; auto. apply Forall_app. split; auto.
Qed.

Lemma enterUpdate_env (me : nat) (en : Entry) (now : Z) (s : State) :
  truthy ip = true -> EnvOk ip ip6 s ->
  EnvOk ip ip6 (fst (enterUpdate me en now s))
  /\ envPc ip ip6 (snd (enterUpdate me en now s))
  /\ tasks (fst (enterUpdate me en now s)) = tasks s.
Proof.
  intros T H. unfold enterUpdate.
  destruct (ipUpdateInProgress s).
  - cbn [fst snd envPc]. split; [now apply envOk_record_log | auto].
  - destruct H as [H1 [H2 [H3 H4]]].
    cbn [ipv4']. rewrite H1, T. cbn [negb].
    match goal with
    | |- context [tryIpv6 me en now ?l ?x] =>
        destruct (@tryIpv6_env me en now l x) as [A [B C]]
    end; [apply envOk_withFlag; repeat split; auto | reflexivity | exact H2 |].
    split; [exact A|]. split; [exact B | exact C].
Qed.

Lemma enter_env (me : nat) (en : Entry) (now : Z) (s : State) :
  truthy ip = true -> EnvOk ip ip6 s ->
  EnvOk ip ip6 (fst (enter me en now s))
  /\ envPc ip ip6 (snd (enter me en now s))
  /\ tasks (fst (enter me en now s)) = tasks s.
Proof.
  intros T H. unfold enter. destruct en; [now apply enterUpdate_env|].
  destruct (_ && _)%bool; [|now apply enterUpdate_env].
  cbn [fst snd envPc]. auto.
Qed.

Lemma resume_env (me : nat) (en : Entry) (now : Z) (net : NetResult) (p : Pc)
      (s : State) :
  EnvOk ip ip6 s -> envPc ip ip6 p ->
  EnvOk ip ip6 (fst (resume me en now net p s))
  /\ envPc ip ip6 (snd (resume me en now net p s))
  /\ tasks (fst (resume me en now net p s)) = tasks s.
Proof.
  intros H Hp. destruct p as [ |l|l|l|r]; cbn [resume envPc] in *;
    try contradiction.
  - destruct (ipUpdateInProgress s); cbn [fst snd envPc]; auto.
  - destruct Hp as [Hl _]. destruct net as [data|message].
    + apply finish_env; auto.
    + match goal with
      | |- context [finish en now l ?x] =>
          destruct (@finish_env en now l x) as [A [B C]]
      end; [now apply envOk_record_log | exact Hl |].
      split; [exact A|]. split; [exact B | exact C].
  - cbn [fst snd envPc]. auto.
Qed.

Lemma step_env (t : Tick) (s : State) :
  truthy ip = true ->
  EnvOk ip ip6 s -> Forall (fun t => envPc ip ip6 (pc t)) (tasks s) ->
  EnvOk ip ip6 (step t s)
  /\ Forall (fun t => envPc ip ip6 (pc t)) (tasks (step t s)).
Proof.
  intros T H Hts. destruct t as [en now | who now net].
  - unfold step.
    destruct (enter_env (List.length (tasks s)) en now T H) as [E1 [E2 E3]].
    destruct (enter (List.length (tasks s)) en now s) as [s' p]. cbn [fst snd] in *.
    split; [exact E1|].
    change (tasks (withTasks ?ts s')) with ts. rewrite E3.
    apply Forall_app. split; [exact Hts|]. constructor; [exact E2 | constructor].
  - destruct (nth_error (tasks s) who) as [t0|] eqn:E;
      [|rewrite step_resume_none; auto].
    rewrite (@step_resume who now net s t0 E).
    pose proof (@Forall_nth _ who t0 (tasks s) Hts E) as P0. cbv beta in P0.
    destruct (@resume_env who (entry t0) now net (pc t0) s H P0) as [E1 [E2 E3]].
    destruct (resume who (entry t0) now net (pc t0) s) as [s' p]. cbn [fst snd] in *.
    split; [exact E1|].
    change (tasks (withTasks ?ts s')) with ts. rewrite E3.
    apply Forall_setTask; [exact Hts | exact E2].
Qed.

Lemma run_env (ticks : list Tick) :
  forall s, truthy ip = true ->
            EnvOk ip ip6 s -> Forall (fun t => envPc ip ip6 (pc t)) (tasks s) ->
            EnvOk ip ip6 (run ticks s).
Proof.
  induction ticks as [|t rest IH]; intros s T H Hts; [exact H|].
  cbn [run]. destruct (@step_env t s T H Hts) as [H' Hts']. now apply IH.
Qed.

End Environment.

(** X23.  An IPv4 address given in the environment is never looked up: from
    the manager as constructed with PUBLIC_IP set, after any sequence of
    calls and continuations, the cached IPv4 address is the one given, every
    request that was sent went to the IPv6 service, and with PUBLIC_IPV6 set
    too no request was sent at all. *)
Theorem address_from_environment_is_not_looked_up :
  forall (ip ip6 : JsVal) (interval : Z) (ticks : list Resolver.Tick),
    truthy ip = true ->
    let s := Resolver.run ticks (ResolverRest.constructed ip ip6 interval) in
    Resolver.ipv4 (Resolver.ipCache s) = ip
    /\ (forall caller url,
          In (caller, url) (Resolver.outbound (Resolver.events s)) ->
          url = "https://api6.ipify.org"%string)
    /\ (truthy ip6 = true -> Resolver.outbound (Resolver.events s) = []).
Proof.
  intros ip ip6 interval ticks T s. subst s.
  assert (H0 : EnvOk ip ip6 (ResolverRest.constructed ip ip6 interval)).
  { unfold EnvOk, ResolverRest.constructed. cbn. unfold or_. rewrite T. auto. }
  destruct (@run_env ip ip6 ticks _ T H0 (Forall_nil _)) as [_ [_ [Hc Ho]]].
  split; [exact Hc|]. rewrite Forall_forall in Ho. split.
  - intros caller url Hin. apply (Ho _ Hin).
  - intros T6. destruct (Resolver.outbound _) as [|x l]; [reflexivity|].
    destruct (Ho x (or_introl eq_refl)) as [_ F]. congruence.
Qed.

(** X24.  [getPublicIPSync] does not wait for the refresh it starts.  With
    an address in the cache it returns that address and does nothing else.
    With none, and none given in the environment, it returns [null]: when no
    refresh is under way it has sent the primary IPv4 request and set the
    flag; when one is, it has sent nothing and only added a waiting call. *)
Theorem getPublicIPSync_does_not_wait :
  forall (now : Z) (s : Resolver.State),
    let r := ResolverRest.getPublicIPSync now s in
    (truthy (Resolver.ipv4 (Resolver.ipCache s)) = true ->
     r = (s, Resolver.ipv4 (Resolver.ipCache s)))
    /\ (truthy (Resolver.ipv4 (Resolver.ipCache s)) = false ->
        truthy (Resolver.PUBLIC_IP s) = false ->
        snd r = JNull
        /\ Resolver.ipCache (fst r) = Resolver.ipCache s
        /\ Resolver.ipUpdateInProgress (fst r) = true
        /\ if Resolver.ipUpdateInProgress s
           then Resolver.outbound (Resolver.events (fst r))
                = Resolver.outbound (Resolver.events s)
                /\ Resolver.tasks (fst r)
                   = Resolver.tasks s
                     ++ [Resolver.mkTask Resolver.ViaUpdatePublicIPs Resolver.Waiting]
           else Resolver.outbound (Resolver.events (fst r))
                = Resolver.outbound (Resolver.events s)
                  ++ [(List.length (Resolver.tasks s), "https://api.ipify.org"%string)]).
Proof.
  intros now s r. subst r. unfold ResolverRest.getPublicIPSync. cbv zeta. split.
  - intros T. rewrite T. cbn [negb]. unfold or_. now rewrite T.
  - intros T Te. rewrite T. cbn [negb].
    unfold Resolver.step, Resolver.enter, Resolver.enterUpdate.
    destruct (Resolver.ipUpdateInProgress s) eqn:F.
    + cbn. unfold or_. rewrite T, F, outbound_app. cbn. rewrite app_nil_r. auto.
    + cbn [Resolver.ipv4']. rewrite Te. cbn. unfold or_. rewrite T, outbound_app.
      auto.
Qed.

(** X25.  A configuration that [validateProviderConfig] accepts names one of
    the four providers, in any letter case, and [getProviderDomain] then
    gives a non-empty domain, with one exception: Route53 configured by zone
    id only, for which it gives the missing zone name. *)
Theorem validated_provider_has_domain :
  forall c : ConfigManager.Settings,
    ConfigManager.validateProviderConfig c = Ok tt ->
    In (ConfigManager.toLowerCase (ConfigManager.dnsProvider c))
       ["cloudflare"; "technitium"; "route53"; "digitalocean"]%string
    /\ (truthy (ConfigManager.getProviderDomain c) = true
        \/ (ConfigManager.toLowerCase (ConfigManager.dnsProvider c) = "route53"%string
            /\ truthy (ConfigManager.route53ZoneId c) = true
            /\ truthy (ConfigManager.route53Zone c) = false
            /\ ConfigManager.getProviderDomain c = ConfigManager.route53Zone c)).
Proof.
  intros c. unfold ConfigManager.validateProviderConfig, ConfigManager.getProviderDomain,
    ConfigManager.required. cbv zeta.
  set (provider := ConfigManager.toLowerCase (ConfigManager.dnsProvider c)).
  destruct (String.eqb_spec provider "cloudflare") as [->|N1].
  { cbn. destruct (truthy (ConfigManager.cloudflareToken c)); [|discriminate].
    destruct (truthy (ConfigManager.cloudflareZone c)); [|discriminate]. auto. }
  destruct (String.eqb_spec provider "technitium") as [->|N2].
  { cbn. destruct (truthy (ConfigManager.technitiumUrl c)); [|discriminate].
    destruct (truthy (ConfigManager.technitiumToken c)); [|discriminate].
    destruct (truthy (ConfigManager.technitiumZone c)); [|discriminate]. auto. }
  destruct (String.eqb_spec provider "route53") as [->|N3].
  { cbn. destruct (truthy (ConfigManager.route53AccessKey c)); [|discriminate].
    destruct (truthy (ConfigManager.route53SecretKey c)); [|discriminate]. cbn.
    destruct (truthy (ConfigManager.route53Zone c)); [auto|].
    destruct (truthy (ConfigManager.route53ZoneId c)); [|discriminate].
    intros _. split; [auto|]. right. auto. }
  destruct (String.eqb_spec provider "digitalocean") as [->|N4].
  { cbn. destruct (truthy (ConfigManager.digitalOceanToken c)); [|discriminate].
    destruct (truthy (ConfigManager.digitalOceanDomain c)); [|discriminate].
    intros _. split; [auto 6|]. left. reflexivity. }
  discriminate.
Qed.

(** X26.  [getPublicIPv6Sync] starts the whole refresh again: without a
    cached IPv6 address (a host that has none, say), without an IPv4 address
    in the environment and with no refresh under way, every call returns
    [null] and sends the primary IPv4 request, also when an IPv4 address is
    cached. *)
Theorem getPublicIPv6Sync_repeats_ipv4_lookup :
  forall (now : Z) (s : Resolver.State),
    truthy (Resolver.ipv6 (Resolver.ipCache s)) = false ->
    truthy (Resolver.PUBLIC_IP s) = false ->
    Resolver.ipUpdateInProgress s = false ->
    let r := ResolverRest.getPublicIPv6Sync now s in
    snd r = JNull
    /\ Resolver.ipCache (fst r) = Resolver.ipCache s
    /\ Resolver.ipUpdateInProgress (fst r) = true
    /\ Resolver.outbound (Resolver.events (fst r))
       = Resolver.outbound (Resolver.events s)
         ++ [(List.length (Resolver.tasks s), "https://api.ipify.org"%string)].
Proof.
  intros now s T Te F r. subst r. unfold ResolverRest.getPublicIPv6Sync. cbv zeta.
  rewrite T. cbn [negb].
  unfold Resolver.step, Resolver.enter, Resolver.enterUpdate. rewrite F.
  cbn [Resolver.ipv4']. rewrite Te. cbn. unfold or_. rewrite T, outbound_app.
  auto.
Qed.

Section ClosedManager.
Import Scenario Scenario4.

Lemma refresh_flag_is_a_lock_witness :
Resolver.ipUpdateInProgress stale = false
/\ Resolver.tasks stale = []
/\ let s := Resolver.run crowd stale in
   holders (Resolver.tasks s)
   = (if Resolver.ipUpdateInProgress s then 1 else 0)%nat.
Proof.
split; [reflexivity|]. split; [reflexivity|].
exact (@refresh_flag_is_a_lock crowd stale eq_refl eq_refl).
Defined.

Lemma address_from_environment_is_not_looked_up_witness :
truthy (JStr "203.0.113.7") = true
/\ let s := Resolver.run crowd
              (ResolverRest.constructed (JStr "203.0.113.7") JUndef 3600000) in
   Resolver.ipv4 (Resolver.ipCache s) = JStr "203.0.113.7"
   /\ (forall caller url,
         In (caller, url) (Resolver.outbound (Resolver.events s)) ->
         url = "https://api6.ipify.org"%string)
   /\ (truthy JUndef = true -> Resolver.outbound (Resolver.events s) = []).
Proof.
split; [reflexivity|].
exact (@address_from_environment_is_not_looked_up (JStr "203.0.113.7") JUndef 3600000
         crowd eq_refl).
Defined.

Lemma getPublicIPSync_does_not_wait_witness :
truthy (Resolver.ipv4 (Resolver.ipCache blank)) = false
/\ truthy (Resolver.PUBLIC_IP blank) = false
/\ snd (ResolverRest.getPublicIPSync 1000 blank) = JNull
/\ Resolver.outbound (Resolver.events (fst (ResolverRest.getPublicIPSync 1000 blank)))
   = [(0%nat, "https://api.ipify.org"%string)].
Proof.
split; [reflexivity|]. split; [reflexivity|].
destruct (proj2 (@getPublicIPSync_does_not_wait 1000 blank) eq_refl eq_refl)
  as [H1 [_ [_ H2]]].
split; [exact H1 | exact H2].
Defined.

Lemma getPublicIPv6Sync_repeats_ipv4_lookup_witness :
truthy (Resolver.ipv6 (Resolver.ipCache stale)) = false
/\ truthy (Resolver.PUBLIC_IP stale) = false
/\ Resolver.ipUpdateInProgress stale = false
/\ let r := ResolverRest.getPublicIPv6Sync 4000000 stale in
   snd r = JNull
   /\ Resolver.ipCache (fst r) = Resolver.ipCache stale
   /\ Resolver.ipUpdateInProgress (fst r) = true
   /\ Resolver.outbound (Resolver.events (fst r))
      = Resolver.outbound (Resolver.events stale)
        ++ [(List.length (Resolver.tasks stale), "https://api.ipify.org"%string)].
Proof.
split; [reflexivity|]. split; [reflexivity|]. split; [reflexivity|].
exact (@getPublicIPv6Sync_repeats_ipv4_lookup 4000000 stale eq_refl eq_refl eq_refl).
Defined.

Lemma validated_provider_has_domain_witness :
ConfigManager.validateProviderConfig technitium = Ok tt
/\ In (ConfigManager.toLowerCase (ConfigManager.dnsProvider technitium))
      ["cloudflare"; "technitium"; "route53"; "digitalocean"]%string
/\ (truthy (ConfigManager.getProviderDomain technitium) = true
    \/ (ConfigManager.toLowerCase (ConfigManager.dnsProvider technitium) = "route53"%string
        /\ truthy (ConfigManager.route53ZoneId technitium) = true
        /\ truthy (ConfigManager.route53Zone technitium) = false
        /\ ConfigManager.getProviderDomain technitium
           = ConfigManager.route53Zone technitium)).
Proof.
split; [reflexivity|].
exact (@validated_provider_has_domain technitium eq_refl).
Defined.

End ClosedManager.

(* ================================================================== *)
(** ** Two runs over records that are replaced *)
(* ================================================================== *)

Section Replace.
Variable config : Config.

Lemma strictEq_sym (a b : JsVal) : strictEq a b = strictEq b a.
Proof.
  destruct a, b; simpl; try reflexivity.
  - now destruct b, b0.
  - apply Z.eqb_sym.
  - apply String.eqb_sym.
Qed.

Lemma strictEq_trans (a b c : JsVal) :
  strictEq a b = true -> strictEq a c = true -> strictEq b c = true.
Proof.
  intros H1 H2. apply strictEq_true in H1. subst b. exact H2.
Qed.

(** A record of the zone has the key of at most one of two specs that
    differ in name or type. *)
Lemma keyed_other (s s' r : Obj) :
  sameKey s s' = false -> keyed s r = true -> keyed s' r = false.
Proof.
  unfold keyed, sameKey. intros H K.
  apply andb_prop in K. destruct K as [K1 K2].
  destruct (strictEq (get "name" (convertToStandardFormat r)) (get "name" s')) eqn:E1;
    [|reflexivity].
  destruct (strictEq (get "type" (convertToStandardFormat r)) (get "type" s')) eqn:E2;
    [|reflexivity].
  rewrite (strictEq_trans _ _ _ K1 E1), (strictEq_trans _ _ _ K2 E2) in H.
  discriminate.
Qed.

Lemma find_map {A C} (f : C -> bool) (g : A -> C) (l : list A) :
  find f (map g l) = option_map g (find (fun x => f (g x)) l).
Proof.
  induction l as [|a l IH]; simpl; [reflexivity|].
  destruct (f (g a)); [reflexivity | exact IH].
Qed.

Lemma find_filter_keep {A} (f g : A -> bool) (l : list A) :
  (forall x, In x l -> f x = true -> g x = true) ->
  find f (filter g l) = find f l.
Proof.
  induction l as [|a l IH]; intros H; simpl; [reflexivity|].
  destruct (g a) eqn:G; simpl.
  - destruct (f a); [reflexivity|]. apply IH. intros x Hx. apply H. now right.
  - destruct (f a) eqn:F.
    + rewrite (H a (or_introl eq_refl) F) in G. discriminate.
    + apply IH. intros x Hx. apply H. now right.
Qed.

Lemma find_head_filter {A} (f : A -> bool) (l : list A) :
  find f l = hd_error (filter f l).
Proof.
  induction l as [|a l IH]; simpl; [reflexivity|].
  destruct (f a); [reflexivity | exact IH].
Qed.

Lemma filter_filter_other {A} (f g : A -> bool) (l : list A) :
  (forall x, In x l -> f x = true -> g x = true) ->
  filter f (filter g l) = filter f l.
Proof.
  induction l as [|a l IH]; intros H; simpl; [reflexivity|].
  destruct (g a) eqn:G; simpl.
  - destruct (f a); [f_equal|]; apply IH; intros x Hx; apply H; now right.
  - destruct (f a) eqn:F.
    + rewrite (H a (or_introl eq_refl) F) in G. discriminate.
    + apply IH. intros x Hx. apply H. now right.
Qed.

Lemma absent_keyed (zone : ZoneServer.Zone) (spec : Obj) :
  absentFrom zone spec <-> filter (keyed spec) zone = [].
Proof.
  unfold absentFrom. rewrite find_map. fold (keyed spec).
  change (fun x => sameKey (convertToStandardFormat x) spec) with (keyed spec).
  rewrite find_head_filter.
  destruct (filter (keyed spec) zone); simpl; split; congruence.
Qed.

Lemma keyed_storedOf (spec : Obj) :
  convergible spec = true -> keyed spec (storedOf spec) = true.
Proof.
  intros Hcv.
  destruct (convergible_inv spec Hcv)
    as [n [t [c [k [Hn [Ht [Hc [Hr [Hne [Hl [Htt [Ha Hb]]]]]]]]]]]].
  rewrite (storedOf_eq spec Hn Ht Hc Hl).
  unfold keyed, sameKey.
  change (get "name" (convertToStandardFormat (zoneRecord n t c k))) with (JStr n).
  change (get "type" (convertToStandardFormat (zoneRecord n t c k))) with (JStr t).
  rewrite Hn, Ht. simpl. now rewrite !String.eqb_refl.
Qed.

Lemma keyed_replaced (spec : Obj) (zone : ZoneServer.Zone) :
  convergible spec = true ->
  filter (keyed spec) (replaced spec zone) = [storedOf spec].
Proof.
  intros Hcv. unfold replaced. rewrite filter_app.
  assert (E : filter (keyed spec) (filter (fun r => negb (keyed spec r)) zone) = []).
  { induction zone as [|a l IH]; simpl; [reflexivity|].
    destruct (keyed spec a) eqn:K; simpl; [exact IH|]. now rewrite K. }
  rewrite E. simpl. now rewrite keyed_storedOf.
Qed.

Lemma keyed_replaced_other (s s' : Obj) (zone : ZoneServer.Zone) :
  convergible s = true -> sameKey s s' = false ->
  filter (keyed s') (replaced s zone) = filter (keyed s') zone.
Proof.
  intros Hcv Hk. unfold replaced. rewrite filter_app.
  rewrite filter_filter_other.
  - simpl. rewrite (keyed_other s s' _ Hk (keyed_storedOf s Hcv)). apply app_nil_r.
  - intros x _ K. destruct (keyed s x) eqn:K'; [|reflexivity].
    rewrite (keyed_other s s' x Hk K') in K. discriminate.
Qed.

(** What is settled on the zone: the first record of the key does not
    differ. *)
Lemma settledOn_keyed (zone zone' : ZoneServer.Zone) (spec : Obj) :
  filter (keyed spec) zone' = filter (keyed spec) zone ->
  settledOn zone spec -> settledOn zone' spec.
Proof.
  intros E [existing [Hf Hn]]. exists existing. split; [|exact Hn].
  rewrite find_map in *.
  change (fun x => sameKey (convertToStandardFormat x) spec) with (keyed spec) in *.
  rewrite find_head_filter in *. now rewrite E.
Qed.

Lemma absentFrom_keyed (zone zone' : ZoneServer.Zone) (spec : Obj) :
  filter (keyed spec) zone' = filter (keyed spec) zone ->
  absentFrom zone spec -> absentFrom zone' spec.
Proof. intros E H. apply absent_keyed. rewrite E. now apply absent_keyed. Qed.

End Replace.

Section ReplaceOnServer.
Variable config : Config.

Lemma conv_name (x : Obj) : get "name" (convertToStandardFormat x) = get "name" x.
Proof. reflexivity. Qed.

Lemma conv_type (x : Obj) : get "type" (convertToStandardFormat x) = get "type" x.
Proof. reflexivity. Qed.

(** The record the delete request for a cached zone record describes. *)
Lemma delete_describes (n t c : string) (k : Z) :
  roundTrips t = true -> c <> ""%string -> Z.abs k <= maxSafeInteger ->
  ZoneServer.recordOfParams
    (params (deleteRequest config (convertToStandardFormat (zoneRecord n t c k))))
  = Some (zoneRecord n t c (if k =? 0 then 3600 else k)).
Proof.
  intros Hr Hne Hb.
  destruct (@convert_zoneRecord n t c k Hr Hne) as [A1 [A2 [A3 A4]]].
  set (rec := convertToStandardFormat (zoneRecord n t c k)) in *.
  assert (Hl : or_ (get "ttl" rec) (JNum 3600) = JNum (if k =? 0 then 3600 else k)).
  { rewrite A4. unfold or_, truthy. now destruct (k =? 0). }
  assert (Hb' : Z.abs (if k =? 0 then 3600 else k) <= maxSafeInteger).
  { destruct (k =? 0); [discriminate | exact Hb]. }
  unfold deleteRequest. cbn [params].
  unfold convertToTechnitiumFormat. rewrite A1, A2, A3, Hl.
  apply roundTrips_cases in Hr.
  destruct Hr as [-> | [-> | [-> | [-> | ->]]]];
    cbn -[numToString parseInteger];
    unfold ZoneServer.recordOfParams; cbn -[numToString parseInteger];
    rewrite parse_numToString by assumption; reflexivity.
Qed.

Lemma sameFields_refl (k v : string) :
  ZoneServer.sameFields [(k, JStr v)] [(k, JStr v)] = true.
Proof. simpl. now rewrite !String.eqb_refl. Qed.

(** Of the records of a zone with one record of the spec's key, the delete
    request for that record names that record and no other. *)
Lemma named_keyed (spec : Obj) (zone : ZoneServer.Zone) (n t c : string) (k : Z) :
  filter (keyed spec) zone = [zoneRecord n t c k] ->
  roundTrips t = true -> c <> ""%string -> Z.abs k <= maxSafeInteger ->
  forall x, In x zone ->
    ZoneServer.named
      (params (deleteRequest config (convertToStandardFormat (zoneRecord n t c k)))) x
    = keyed spec x.
Proof.
  intros Hf Hr Hne Hb x Hx.
  assert (Kr : keyed spec (zoneRecord n t c k) = true).
  { assert (I : In (zoneRecord n t c k) (filter (keyed spec) zone))
      by (rewrite Hf; now left).
    apply filter_In in I. apply I. }
  unfold keyed, sameKey in Kr. rewrite conv_name, conv_type in Kr.
  apply andb_prop in Kr. destruct Kr as [Kn Kt].
  apply strictEq_true in Kn. apply strictEq_true in Kt.
  change (get "name" (zoneRecord n t c k)) with (JStr n) in Kn.
  change (get "type" (zoneRecord n t c k)) with (JStr t) in Kt.
  unfold ZoneServer.named. rewrite delete_describes by assumption.
  change (get "name" (zoneRecord n t c (if k =? 0 then 3600 else k))) with (JStr n).
  change (get "type" (zoneRecord n t c (if k =? 0 then 3600 else k))) with (JStr t).
  change (get "rData" (zoneRecord n t c (if k =? 0 then 3600 else k)))
    with (JObj [(dataKey t, JStr c)]).
  unfold keyed, sameKey. rewrite conv_name, conv_type, <- Kn, <- Kt.
  destruct (strictEq (get "name" x) (JStr n) && strictEq (get "type" x) (JStr t)) eqn:K;
    [|reflexivity].
  assert (I : In x (filter (keyed spec) zone)).
  { apply filter_In. split; [exact Hx|].
    unfold keyed, sameKey. now rewrite conv_name, conv_type, <- Kn, <- Kt. }
  rewrite Hf in I. destruct I as [<-|[]].
  change (get "rData" (zoneRecord n t c k)) with (JObj [(dataKey t, JStr c)]).
  cbv iota. rewrite sameFields_refl. reflexivity.
Qed.

Lemma serve_delete (ps : list (string * string)) (zone : ZoneServer.Zone) :
  ZoneServer.serve (mkRequest POST "/api/zones/records/delete" ps) zone
  = (ZoneServer.ok None, filter (fun x => negb (ZoneServer.named ps x)) zone).
Proof. reflexivity. Qed.

(** The update of a replaceable record on the zone server: the record of
    the spec's key is deleted, the spec's record is added, and the cache is
    the zone again. *)
Lemma updateRecord_zone (spec : Obj) (w : World ZoneServer.Zone)
      (n t c : string) (k : Z) :
  cached (recordCache w) = map convertToStandardFormat (backend w) ->
  convergible spec = true ->
  filter (keyed spec) (backend w) = [zoneRecord n t c k] ->
  roundTrips t = true -> c <> ""%string -> Z.abs k <= maxSafeInteger ->
  find (fun r => strictEq (idOf r) (idOf (zoneRecord n t c k))) (backend w)
    = Some (zoneRecord n t c k) ->
  exists w',
    updateRecord ZoneServer.serve config (idOf (zoneRecord n t c k)) spec w
      = (Ok spec, w')
    /\ backend w' = replaced spec (backend w)
    /\ synced w'.
Proof.
  intros Hs Hcv Hf Hr Hne Hb Hid.
  unfold updateRecord. unfold bind at 1. cbn [emit fst snd].
  set (w0 := mkWorld _ _ _ _).
  assert (F : find (fun r => strictEq (get "id" r) (idOf (zoneRecord n t c k)))
                   (cached (recordCache w0))
              = Some (convertToStandardFormat (zoneRecord n t c k))).
  { subst w0. cbn [recordCache]. rewrite Hs, find_map.
    change (fun x => strictEq (get "id" (convertToStandardFormat x))
                              (idOf (zoneRecord n t c k)))
      with (fun x => strictEq (idOf x) (idOf (zoneRecord n t c k))).
    now rewrite Hid. }
  unfold bind at 1.
  rewrite (@deleteRecord_present _ ZoneServer.serve config _ _ w0 F). cbv zeta.
  assert (S : ZoneServer.serve
                (deleteRequest config (convertToStandardFormat (zoneRecord n t c k)))
                (backend w0)
              = (ZoneServer.ok None,
                 filter (fun r => negb (keyed spec r)) (backend w))).
  { subst w0. cbn [backend].
    pose proof (@named_keyed spec (backend w) n t c k Hf Hr Hne Hb) as N.
    unfold deleteRequest in *. cbn [params] in N.
    rewrite serve_delete. f_equal.
    apply filter_ext_in. intros x Hx. now rewrite (N x Hx). }
  rewrite S. unfold ZoneServer.ok. cbn [status].
  change (strictEq (JStr "ok") (JStr "ok")) with true. cbv iota.
  match goal with
  | |- context [createRecord ZoneServer.serve config spec ?x] =>
      destruct (@createRecord_zone_world config spec x Hcv)
        as [w' [E [Eb [Es _]]]]
  end.
  exists w'. rewrite E. split; [reflexivity|]. split; [|exact Es].
  rewrite Eb. reflexivity.
Qed.

End ReplaceOnServer.

Section TwoRunsWithReplacement.
Variable config : Config.

Lemma sameKey_sym (a b : Obj) : sameKey a b = sameKey b a.
Proof.
  unfold sameKey.
  now rewrite (strictEq_sym (get "name" a)), (strictEq_sym (get "type" a)).
Qed.

Lemma find_filter_some {A} (f g : A -> bool) (l : list A) (x : A) :
  find f l = Some x -> g x = true -> find f (filter g l) = Some x.
Proof.
  induction l as [|a l IH]; simpl; [discriminate|].
  intros H G. destruct (f a) eqn:F.
  - injection H as ->. rewrite G. simpl. now rewrite F.
  - destruct (g a); simpl; [rewrite F|]; now apply IH.
Qed.

Lemma filter_none_keyed (spec : Obj) (zone : ZoneServer.Zone) :
  absentFrom zone spec -> filter (fun r => negb (keyed spec r)) zone = zone.
Proof.
  intros H. apply absent_keyed in H.
  induction zone as [|a l IH]; simpl in *; [reflexivity|].
  destruct (keyed spec a); [discriminate|]. simpl. f_equal. now apply IH.
Qed.

Lemma settled_storedOf (spec : Obj) :
  convergible spec = true -> settledOn [storedOf spec] spec.
Proof.
  intros Hcv.
  destruct (convergible_inv spec Hcv)
    as [n [t [c [k [Hn [Ht [Hc [Hr [Hne [Hl [Htt [Ha Hb]]]]]]]]]]]].
  rewrite (storedOf_eq spec Hn Ht Hc Hl).
  destruct (@convert_zoneRecord n t c k Hr Hne) as [A1 [A2 [A3 A4]]].
  exists (convertToStandardFormat (zoneRecord n t c k)). split.
  - simpl find. unfold sameKey. rewrite A1, A2, Hn, Ht. simpl.
    now rewrite !String.eqb_refl.
  - unfold needsUpdate, contentDiff, ttlDiff, or_, and_, strictNe.
    rewrite A3, A4, Hc. simpl strictEq. rewrite String.eqb_refl. simpl.
    destruct (truthy (get "ttl" spec)) eqn:T.
    + rewrite (Htt eq_refl). simpl. now rewrite Z.eqb_refl.
    + exact T.
Qed.

Lemma settled_replaced (spec : Obj) (zone : ZoneServer.Zone) :
  convergible spec = true -> settledOn (replaced spec zone) spec.
Proof.
  intros Hcv. apply settledOn_keyed with (zone := [storedOf spec]).
  - rewrite keyed_replaced by assumption. simpl.
    now rewrite keyed_storedOf.
  - now apply settled_storedOf.
Qed.

(** The three states a spec can be in before a run. *)
Lemma status_replaced_other (s s' : Obj) (zone : ZoneServer.Zone) :
  convergible s = true -> sameKey s s' = false ->
  (absentFrom zone s' \/ settledOn zone s' \/ replaceableOn zone s') ->
  absentFrom (replaced s zone) s' \/ settledOn (replaced s zone) s'
  \/ replaceableOn (replaced s zone) s'.
Proof.
  intros Hcv Hk H.
  pose proof (keyed_replaced_other s s' zone Hcv Hk) as E.
  destruct H as [H|[H|H]].
  - left. now apply absentFrom_keyed with (zone := zone).
  - right. left. now apply settledOn_keyed with (zone := zone).
  - right. right. destruct H as [n [t [c [k [Hf [Hr [Hne [Hb Hid]]]]]]]].
    exists n, t, c, k. rewrite E. repeat split; auto.
    unfold replaced. apply find_app_some. apply find_filter_some; [exact Hid|].
    assert (K : keyed s' (zoneRecord n t c k) = true).
    { assert (I : In (zoneRecord n t c k) (filter (keyed s') zone))
        by (rewrite Hf; now left).
      apply filter_In in I. apply I. }
    rewrite sameKey_sym in Hk.
    now rewrite (keyed_other s' s _ Hk K).
Qed.

(** One spec of a run on the zone server: either it is settled and nothing
    changes, or its record is put in place of what the zone held for its
    name and type. *)
Lemma ensureRecord_status (spec : Obj) (w : World ZoneServer.Zone) :
  synced w -> convergible spec = true ->
  (absentFrom (backend w) spec \/ settledOn (backend w) spec
   \/ replaceableOn (backend w) spec) ->
  exists r w',
    ensureRecord ZoneServer.serve config spec w = (Ok r, w')
    /\ synced w'
    /\ ((backend w' = backend w /\ settledOn (backend w) spec)
        \/ backend w' = replaced spec (backend w)).
Proof.
  intros Hs Hcv [Ha|[Hse|Hre]].
  - destruct (@ensureRecord_absent_world config spec w Hs Ha Hcv)
      as [w' [E [Hb [Hs' _]]]].
    exists (Some spec), w'. split; [exact E|]. split; [exact Hs'|]. right.
    unfold replaced. now rewrite filter_none_keyed.
  - exists None, w. rewrite ensureRecord_settled by now apply settled_in_cache.
    auto.
  - destruct Hre as [n [t [c [k [Hf [Hr [Hne [Hb Hid]]]]]]]].
    assert (F : findExisting spec (recordCache w)
                = Some (convertToStandardFormat (zoneRecord n t c k))).
    { unfold findExisting. rewrite Hs, find_map.
      change (fun x => strictEq (get "name" (convertToStandardFormat x)) (get "name" spec)
                       && strictEq (get "type" (convertToStandardFormat x)) (get "type" spec))
        with (keyed spec).
      now rewrite find_head_filter, Hf. }
    rewrite (ensureRecord_existing ZoneServer.serve config spec w F). cbv zeta.
    destruct (truthy (needsUpdate (convertToStandardFormat (zoneRecord n t c k)) spec))
      eqn:N.
    + match goal with
      | |- context [updateRecord ZoneServer.serve config ?i spec ?x] =>
          destruct (@updateRecord_zone config spec x n t c k Hs Hcv Hf Hr Hne Hb Hid)
            as [w' [E [Eb Es]]]
      end.
      change (get "id" (convertToStandardFormat (zoneRecord n t c k)))
        with (idOf (zoneRecord n t c k)).
      rewrite E. exists (Some spec), w'. auto.
    + eexists. eexists. split; [reflexivity|]. split; [exact Hs|]. left.
      split; [reflexivity|].
      exists (convertToStandardFormat (zoneRecord n t c k)). split; [|exact N].
      rewrite find_map.
      change (fun x => sameKey (convertToStandardFormat x) spec) with (keyed spec).
      now rewrite find_head_filter, Hf.
Qed.

(** The first run: every spec is settled at its end. *)
Lemma first_run_settles (specs : list Obj) :
  forall (done : list Obj) results (w : World ZoneServer.Zone),
    synced w ->
    forallb convergible specs = true ->
    distinctKeys specs = true ->
    (forall d s, In d done -> In s specs -> sameKey s d = false) ->
    (forall d, In d done -> settledOn (backend w) d) ->
    (forall s, In s specs ->
       absentFrom (backend w) s \/ settledOn (backend w) s
       \/ replaceableOn (backend w) s) ->
    exists rs w',
      processAll ZoneServer.serve config specs results w = (Ok rs, w')
      /\ synced w'
      /\ (forall d, In d done -> settledOn (backend w') d)
      /\ (forall s, In s specs -> settledOn (backend w') s).
Proof.
  induction specs as [|spec rest IH]; intros done results w Hs Hc Hd Hk Hdone Hz.
  - exists results, w. repeat split; auto. intros s [].
  - simpl in Hc, Hd.
    apply andb_prop in Hc. destruct Hc as [Hc Hcr].
    apply andb_prop in Hd. destruct Hd as [Hd Hdr].
    rewrite forallb_forall in Hd.
    cbn [processAll]. unfold bind. rewrite processConfig_eq.
    destruct (@ensureRecord_status spec w Hs Hc (Hz spec (or_introl eq_refl)))
      as [r [w1 [E [Hs1 Hb]]]].
    rewrite E.
    assert (Hself : settledOn (backend w1) spec).
    { destruct Hb as [[-> H] | ->]; [exact H | now apply settled_replaced]. }
    assert (Hother : forall s',
               sameKey spec s' = false ->
               (settledOn (backend w) s' -> settledOn (backend w1) s')
               /\ ((absentFrom (backend w) s' \/ settledOn (backend w) s'
                    \/ replaceableOn (backend w) s') ->
                   absentFrom (backend w1) s' \/ settledOn (backend w1) s'
                   \/ replaceableOn (backend w1) s')).
    { intros s' K. destruct Hb as [[-> _] | ->]; [auto|]. split.
      - apply settledOn_keyed. now apply keyed_replaced_other.
      - now apply status_replaced_other. }
    destruct (IH (spec :: done)
                 (match r with Some x => results ++ [x] | None => results end) w1)
      as [rs [w' [R [Hs' [Hdone' Hall]]]]]; auto.
    + intros d s [<-|Hin] Hin'.
      * rewrite sameKey_sym. specialize (Hd s Hin').
        now apply negb_true_iff in Hd.
      * apply Hk; [exact Hin | now right].
    + intros d [<-|Hin]; [exact Hself|].
      apply (Hother d); [|now apply Hdone].
      apply Hk; [exact Hin | now left].
    + intros s Hin. apply (Hother s).
      * specialize (Hd s Hin). now apply negb_true_iff in Hd.
      * apply Hz. now right.
    + exists rs, w'. destruct r; rewrite R; repeat split; auto;
        try (intros d Hin; apply Hdone'; now right);
        intros s [<-|Hin]; auto; apply Hdone'; now left.
Qed.

End TwoRunsWithReplacement.

(** C1, as the code has it.  Take a zone server that stores what it is sent,
    a cache in sync with it, and a desired set of convergible specs, no two
    of the same name and type, each of which is absent from the zone, or
    matched there by a record that does not differ, or matched by the one
    record of its name and type, which the provider can replace.  Then the
    first run returns, and a second run with the same set, at any later
    time, returns the empty list, makes no call of [createRecord],
    [updateRecord] or [deleteRecord], sends no add or delete request, and
    leaves the zone as it is. *)
Theorem second_run_is_idle :
  forall (config : Config) (specs : list Obj) (w : World ZoneServer.Zone)
         (later : Z),
    synced w ->
    forallb convergible specs = true ->
    distinctKeys specs = true ->
    (forall s, In s specs ->
       absentFrom (backend w) s \/ settledOn (backend w) s
       \/ replaceableOn (backend w) s) ->
    let first := batchEnsureRecords ZoneServer.serve config specs w in
    let second := batchEnsureRecords ZoneServer.serve config specs
                    (withClock later (snd first)) in
    (exists rs, fst first = Ok rs)
    /\ fst second = Ok []
    /\ mutations (added (trace (snd first)) (trace (snd second))) = []
    /\ backend (snd second) = backend (snd first).
Proof.
  intros config specs w later Hs Hc Hd Hz first second.
  destruct specs as [|spec rest].
  - subst first second. simpl. rewrite added_self. repeat split; eauto.
  - assert (E1 : exists rs w1, first = (Ok rs, w1) /\ synced w1
                   /\ forall s, In s (spec :: rest) -> settledOn (backend w1) s).
    { subst first. rewrite batchEnsureRecords_cons.
      destruct (@getRecordsFromCache_zone config w Hs) as [l [w0 [E [Hb [Hs0 _]]]]].
      rewrite E.
      destruct (@first_run_settles config (spec :: rest) [] [] w0 Hs0 Hc Hd)
        as [rs [w1 [R [Hs1 [_ Hall]]]]].
      { intros d s []. }
      { intros d []. }
      { intros s Hin. rewrite Hb. now apply Hz. }
      exists rs, w1. auto. }
    destruct E1 as [rs [w1 [E1 [Hs1 Hall]]]].
    subst second. rewrite E1. cbn [fst snd].
    split; [eauto|].
    rewrite batchEnsureRecords_cons.
    assert (Hs1' : synced (withClock later w1)) by exact Hs1.
    destruct (@getRecordsFromCache_zone config (withClock later w1) Hs1')
      as [l [w0 [E [Hb [Hs0 Ht]]]]].
    rewrite E, processAll_settled.
    + simpl. repeat split; auto.
      destruct Ht as [-> | ->]; simpl.
      * now rewrite added_self.
      * now rewrite added_app.
    + intros s Hin. apply settled_in_cache; auto.
      rewrite Hb. simpl. now apply Hall.
Qed.

Section ClosedReplacement.
Import Scenario.

Lemma second_run_is_idle_witness :
synced warm
/\ forallb convergible [appMoved; note] = true
/\ distinctKeys [appMoved; note] = true
/\ replaceableOn (backend warm) appMoved
/\ absentFrom (backend warm) note
/\ let first := batchEnsureRecords ZoneServer.serve config [appMoved; note] warm in
   let second := batchEnsureRecords ZoneServer.serve config [appMoved; note]
                   (withClock 9000000 (snd first)) in
   (exists rs, fst first = Ok rs)
   /\ fst second = Ok []
   /\ mutations (added (trace (snd first)) (trace (snd second))) = []
   /\ backend (snd second) = backend (snd first).
Proof.
assert (H1 : synced warm) by reflexivity.
assert (H2 : forallb convergible [appMoved; note] = true) by reflexivity.
assert (H3 : distinctKeys [appMoved; note] = true) by reflexivity.
assert (H4 : replaceableOn (backend warm) appMoved).
{ exists "app.example.com"%string, "A"%string, "1.2.3.4"%string, 300.
  split; [reflexivity|]. split; [reflexivity|].
  split; [discriminate|]. split; [vm_compute; discriminate|]. reflexivity. }
assert (H5 : absentFrom (backend warm) note) by reflexivity.
split; [exact H1|]. split; [exact H2|]. split; [exact H3|].
split; [exact H4|]. split; [exact H5|].
apply (@second_run_is_idle config [appMoved; note] warm 9000000 H1 H2 H3).
intros s [<-|[<-|[]]]; [right; right; exact H4 | left; exact H5].
Defined.

End ClosedReplacement.

(* ================================================================== *)
(** ** The public IP refresh and what it writes *)
(* ================================================================== *)

Section WhatIsWritten.
Import Resolver.

Lemma finish_cache (en : Entry) (now : Z) (l : Locals) (s : State) :
  ipCache (fst (finish en now l s)) = mkIpCache (ipv4' l) (ipv6' l) now
  /\ exists r, snd (finish en now l s) = Returned r.
Proof.
  unfold finish, recordIf. cbv zeta.
  destruct (truthy (ipv4' l) && strictNe (ipv4' l) (oldIpv4 l))%bool;
    destruct (truthy (ipv6' l) && strictNe (ipv6' l) (oldIpv6 l))%bool;
    cbn; eauto.
Qed.

Lemma tryIpv6_toCome (me : nat) (en : Entry) (now : Z) (l : Locals) (s : State)
      (setts : list (Z * NetResult)) :
  toCome (snd (tryIpv6 me en now l s)) (ipCache (fst (tryIpv6 me en now l s))) setts
  = ipv6Stage (ipv6' l) (ipv4' l) now setts.
Proof.
  unfold tryIpv6, ipv6Stage.
  destruct (truthy (ipv6' l)); cbn [negb fst snd].
  - destruct (finish_cache en now l s) as [Hc [r Hr]]. rewrite Hr, Hc. reflexivity.
  - reflexivity.
Qed.

Lemma resume_toCome (me : nat) (en : Entry) (now : Z) (net : NetResult) (p : Pc)
      (s : State) (setts : list (Z * NetResult)) :
  p <> Waiting ->
  toCome (snd (resume me en now net p s)) (ipCache (fst (resume me en now net p s))) setts
  = toCome p (ipCache s) ((now, net) :: setts).
Proof.
  intros Hp. destruct p as [ |l|l|l|r]; [congruence| | | |]; cbn [resume].
  - destruct net as [data|message].
    + rewrite tryIpv6_toCome. reflexivity.
    + cbn [fst snd toCome]. destruct setts as [|[t [d|m]] rest]; reflexivity.
  - destruct net as [data|message]; rewrite tryIpv6_toCome; reflexivity.
  - destruct net as [data|message].
    + match goal with
      | |- context [finish en now ?k s] =>
          destruct (finish_cache en now k s) as [Hc [r Hr]]
      end. rewrite Hr, Hc. reflexivity.
    + match goal with
      | |- context [finish en now l ?x] =>
          destruct (finish_cache en now l x) as [Hc [r Hr]]
      end. rewrite Hr, Hc. reflexivity.
  - reflexivity.
Qed.

Lemma inv_head (s : State) :
  Inv s -> exists t0 others,
    tasks s = t0 :: others /\ pc t0 <> Waiting
    /\ Forall (fun t => pc t = Waiting \/ exists r, pc t = Returned r) others.
Proof.
  intros [t0 others Ht Hfl Hin Hw | t0 others Ht Hfl Hp Hr Hseq];
    exists t0, others; split; auto; split.
  - intros E. rewrite E in Hin. exact Hin.
  - eapply Forall_impl; [|exact Hw]. intros t Q. now left.
  - congruence.
  - eapply Forall_impl; [|exact Hr]. intros t [Q|Q]; eauto.
Qed.

Lemma resume_rest (me : nat) (en : Entry) (now : Z) (net : NetResult) (p : Pc)
      (s : State) :
  (p = Waiting \/ exists r, p = Returned r) -> fst (resume me en now net p s) = s.
Proof.
  intros [->|[r ->]]; cbn [resume]; [now destruct (ipUpdateInProgress s) | reflexivity].
Qed.

(** A tick of the refresh uses up one settlement of the first call, or
    none. *)
Lemma step_toCome (t : Tick) (s : State) (setts : list (Z * NetResult)) :
  Inv s ->
  match t with
  | Invoke en now => ipUpdateInProgress s && reachesUpdate en now s
  | Resume _ _ _ => true
  end = true ->
  firstToCome (step t s) setts = firstToCome s (settlements [t] ++ setts).
Proof.
  intros H Ht.
  destruct (inv_head H) as [t0 [others [Etasks [Hp Hrest]]]].
  destruct t as [en now | who now net].
  - apply andb_prop in Ht. destruct Ht as [Hfl Hr].
    unfold step. rewrite enter_waits by assumption.
    unfold firstToCome. cbn [tasks withTasks record ipCache]. rewrite Etasks.
    reflexivity.
  - destruct (nth_error (tasks s) who) as [tk|] eqn:E.
    + rewrite (@step_resume who now net s tk E).
      unfold firstToCome. cbn [tasks withTasks ipCache].
      rewrite resume_tasks, Etasks. rewrite Etasks in E.
      destruct who as [|j]; cbn [nth_error] in E.
      * injection E as <-. cbn [setTask pc settlements flat_map app].
        now rewrite resume_toCome.
      * cbn [setTask settlements flat_map app].
        rewrite resume_rest by exact (@Forall_nth _ j tk others Hrest E).
        reflexivity.
    + rewrite step_resume_none by assumption.
      destruct who as [|j]; [rewrite Etasks in E; discriminate|].
      reflexivity.
Qed.

Lemma settlements_app (a b : list Tick) :
  settlements (a ++ b) = settlements a ++ settlements b.
Proof. apply flat_map_app. Qed.

Lemma run_toCome (ticks : list Tick) :
  forall s setts, Inv s -> duringRefresh ticks s = true ->
    firstToCome (run ticks s) setts = firstToCome s (settlements ticks ++ setts).
Proof.
  induction ticks as [|t rest IH]; intros s setts H Hd; [reflexivity|].
  cbn [run duringRefresh] in *.
  apply andb_prop in Hd. destruct Hd as [Ht Hd].
  rewrite IH; auto.
  - rewrite step_toCome by assumption.
    change (t :: rest) with ([t] ++ rest).
    now rewrite settlements_app, <- app_assoc.
  - destruct t as [en now | who now net].
    + apply andb_prop in Ht. destruct Ht. now apply invoke_inv.
    + now apply resume_inv.
Qed.

(** The first call of a manager at rest, when it gets as far as
    [updatePublicIPs]. *)
Lemma first_toCome (s0 : State) (en0 : Entry) (now0 : Z)
      (setts : list (Z * NetResult)) :
  idle s0 -> reachesUpdate en0 now0 s0 = true ->
  firstToCome (step (Invoke en0 now0) s0) setts
  = refreshed (PUBLIC_IP s0) (PUBLIC_IPV6 s0) now0 setts.
Proof.
  intros [Hfl [Ht He]] Hr.
  assert (E : enter (List.length (tasks s0)) en0 now0 s0
              = enterUpdate (List.length (tasks s0)) en0 now0 s0).
  { unfold enter. destruct en0; [reflexivity|].
    unfold reachesUpdate in Hr. apply negb_true_iff in Hr. now rewrite Hr. }
  unfold step. rewrite E. unfold enterUpdate. rewrite Hfl.
  unfold refreshed, ipv4Stage. cbn [ipv4'].
  destruct (truthy (PUBLIC_IP s0)) eqn:T; cbn [negb].
  - match goal with
    | |- context [tryIpv6 ?m en0 now0 ?l ?x] =>
        pose proof (tryIpv6_toCome m en0 now0 l x setts) as K;
        pose proof (tryIpv6_tasks m en0 now0 l x) as Tk;
        destruct (tryIpv6 m en0 now0 l x) as [s' p]
    end.
    cbn [fst snd] in *. unfold firstToCome. cbn [tasks withTasks ipCache].
    rewrite Tk. cbn [tasks withFlag]. rewrite Ht. cbn [app pc]. exact K.
  - unfold firstToCome. cbn [tasks withTasks record withFlag ipCache].
    rewrite Ht. cbn [app pc toCome ipv6' ipv4'].
    destruct setts as [|[t [d|m]] [|[t' [d'|m']] rest]]; reflexivity.
Qed.

Lemma firstToCome_nil (s : State) :
  Inv s ->
  match firstToCome s [] with
  | Some c => ipUpdateInProgress s = false /\ ipCache s = c
  | None => ipUpdateInProgress s = true
  end.
Proof.
  intros [t0 others Ht Hfl Hin Hw | t0 others Ht Hfl Hp Hr Hseq];
    unfold firstToCome; rewrite Ht.
  - destruct (pc t0); cbn in Hin; try contradiction; exact Hfl.
  - rewrite Hp. cbn. auto.
Qed.

Lemma firstToCome_returned (s : State) :
  Inv s -> forallb returned (tasks s) = true -> firstToCome s [] = Some (ipCache s).
Proof.
  intros H R. destruct (inv_head H) as [t0 [others [Etasks _]]].
  unfold firstToCome. rewrite Etasks in *. cbn [forallb] in R.
  apply andb_prop in R. destruct R as [R _]. unfold returned in R.
  destruct (pc t0); try discriminate. reflexivity.
Qed.

Lemma drain_during (now : Z) (net : NetResult) (s x : State) :
  duringRefresh (drain now net s) x = true.
Proof.
  unfold drain. generalize (seq 0 (List.length (tasks s))). intros l.
  cbn [app duringRefresh andb].
  generalize (step (Resume 0 now net) (step (Resume 0 now net) (step (Resume 0 now net) x))).
  induction l as [|a l IH]; intros y; simpl; auto.
Qed.

(** A call that has returned stays as it is, whatever is made to run
    next. *)
Lemma step_keeps_returned (tk : Tick) (s : State) (i : nat) (t : Task) :
  nth_error (tasks s) i = Some t -> returned t = true ->
  nth_error (tasks (step tk s)) i = Some t.
Proof.
  intros E R. destruct tk as [en now | who now net].
  - unfold step.
    destruct (enter_shape (List.length (tasks s)) en now s) as [Ht _].
    destruct (enter (List.length (tasks s)) en now s) as [s' p].
    cbn [fst tasks withTasks] in *. rewrite Ht.
    rewrite nth_error_app1; [exact E|]. apply nth_error_Some. congruence.
  - destruct (nth_error (tasks s) who) as [tw|] eqn:Ew.
    + rewrite (@step_resume who now net s tw Ew). cbn [tasks withTasks].
      rewrite resume_tasks.
      destruct (Nat.eq_dec who i) as [->|Hne].
      * rewrite E in Ew. injection Ew as <-.
        unfold returned in R. destruct t as [en p]. cbn [pc entry] in *.
        destruct p; try discriminate. cbn [resume snd].
        apply nth_error_setTask_same. apply nth_error_Some. congruence.
      * rewrite nth_error_setTask_other by assumption. exact E.
    + now rewrite step_resume_none.
Qed.

Lemma run_keeps_returned (later : list Tick) :
  forall (s : State) (i : nat) (t : Task),
    nth_error (tasks s) i = Some t -> returned t = true ->
    nth_error (tasks (run later s)) i = Some t.
Proof.
  induction later as [|tk rest IH]; intros s i t E R; [exact E|].
  cbn [run]. apply IH; auto. now apply step_keeps_returned.
Qed.

End WhatIsWritten.

(** C8.  Start from a state with no call under way, make a first call, and
    let any number of further calls of the refresh be made while the flag is
    set, interleaved in any order with the settlement of requests and with
    poll ticks.  Then (1) all requests sent are those of one call sequence of
    the first call; (2) a call that has returned has done so after the flag
    was cleared and the first call had returned, and with what the cache
    holds, which is what the first call returned; (3) letting the pending
    requests settle and the polls tick brings every call to return, all with
    the content of the one cache; (4) when the first call gets as far as
    [updatePublicIPs], that cache is the one its refresh writes from the
    addresses of the environment and from what its own requests resolve to:
    the flag stays set until these have settled; (5) what the calls have
    returned stays, whatever is called next. *)
Theorem refresh_is_single_flight :
  forall (s0 : Resolver.State) (en0 : Resolver.Entry) (now0 : Z)
         (ticks : list Resolver.Tick) (now : Z) (net : Resolver.NetResult),
    Resolver.idle s0 ->
    Resolver.duringRefresh ticks (Resolver.step (Resolver.Invoke en0 now0) s0) = true ->
    let s := Resolver.run ticks (Resolver.step (Resolver.Invoke en0 now0) s0) in
    let s' := Resolver.run (Resolver.drain now net s) s in
    In (Resolver.outbound (Resolver.events s)) (Resolver.callSequences 0)
    /\ (forall i t r,
          nth_error (Resolver.tasks s) i = Some t ->
          Resolver.pc t = Resolver.Returned r ->
          r = Resolver.deliver (Resolver.entry t) s
          /\ Resolver.ipUpdateInProgress s = false
          /\ exists t0,
               nth_error (Resolver.tasks s) 0 = Some t0
               /\ Resolver.pc t0
                  = Resolver.Returned (Resolver.deliver (Resolver.entry t0) s))
    /\ forallb Resolver.returned (Resolver.tasks s') = true
    /\ In (Resolver.outbound (Resolver.events s')) (Resolver.callSequences 0)
    /\ (forall i t,
          nth_error (Resolver.tasks s') i = Some t ->
          Resolver.pc t = Resolver.Returned (Resolver.deliver (Resolver.entry t) s'))
    /\ (Resolver.reachesUpdate en0 now0 s0 = true ->
        match refreshed (Resolver.PUBLIC_IP s0) (Resolver.PUBLIC_IPV6 s0) now0
                (settlements ticks) with
        | Some c => Resolver.ipUpdateInProgress s = false /\ Resolver.ipCache s = c
        | None => Resolver.ipUpdateInProgress s = true
        end
        /\ refreshed (Resolver.PUBLIC_IP s0) (Resolver.PUBLIC_IPV6 s0) now0
             (settlements (ticks ++ Resolver.drain now net s))
           = Some (Resolver.ipCache s'))
    /\ (forall later i t,
          nth_error (Resolver.tasks s') i = Some t ->
          nth_error (Resolver.tasks (Resolver.run later s')) i = Some t).
Proof.
  intros s0 en0 now0 ticks now net Hidle Hd s s'.
  assert (H1 : Resolver.Inv (Resolver.step (Resolver.Invoke en0 now0) s0))
    by now apply first_call_inv.
  assert (H : Resolver.Inv s).
  { subst s. apply run_inv; auto. }
  assert (H' : Resolver.Inv s').
  { subst s'. apply run_inv; auto. apply drain_during. }
  split; [now apply inv_outbound|].
  split; [intros i t r; now apply inv_results|].
  assert (R : forallb Resolver.returned (Resolver.tasks s') = true)
    by now apply drain_returns.
  split; [exact R|].
  split; [now apply inv_outbound|].
  split.
  { intros i t E.
    rewrite forallb_forall in R.
    specialize (R t (nth_error_In _ _ E)). unfold Resolver.returned in R.
    destruct (Resolver.pc t) as [ | | | |r] eqn:P; try discriminate.
    destruct (@inv_results s' i t r H' E P) as [-> _]. reflexivity. }
  split.
  { intros Hr. split.
    - rewrite <- (app_nil_r (settlements ticks)).
      rewrite <- (@first_toCome s0 en0 now0 _ Hidle Hr).
      rewrite <- (@run_toCome ticks _ [] H1 Hd).
      now apply firstToCome_nil.
    - rewrite settlements_app.
      rewrite <- (@first_toCome s0 en0 now0 _ Hidle Hr).
      rewrite <- (@run_toCome ticks _ _ H1 Hd).
      fold s. rewrite <- (app_nil_r (settlements (Resolver.drain now net s))).
      rewrite <- (@run_toCome (Resolver.drain now net s) s [] H (drain_during now net s s)).
      fold s'. now apply firstToCome_returned. }
  intros later i t E. apply run_keeps_returned; [exact E|].
  rewrite forallb_forall in R. apply R. exact (nth_error_In _ _ E).
Qed.

Section ClosedRefresh.
Import Scenario.

(** C8, as stated, fails: the second caller arrives while the refresh of
    the first is in flight, and when its poll ticks next the flag is set
    again, by a call made after the refresh had ended; it returns only when
    that later refresh has ended, and with the address of the later refresh,
    not with the one the first call returned.  Two call sequences have been
    sent. *)
Lemma waiter_receives_a_later_refresh :
  let s1 := Resolver.step (Resolver.Invoke Resolver.ViaUpdatePublicIPs 4000000) stale in
  let s := Resolver.run overtaken s1 in
  Resolver.ipUpdateInProgress s1 = true
  /\ map Resolver.pc (Resolver.tasks (Resolver.run (firstn 1 overtaken) s1))
     = [ Resolver.AwaitPrimary
           (Resolver.mkLocals (JStr "203.0.113.7") JNull JUndef JUndef);
         Resolver.Waiting ]
  /\ map Resolver.pc (Resolver.tasks s)
     = [ Resolver.Returned
           (Resolver.GotCache (Resolver.mkIpCache (JStr "198.51.100.4") JUndef 4000200));
         Resolver.Returned
           (Resolver.GotCache (Resolver.mkIpCache (JStr "192.0.2.99") JUndef 4000400));
         Resolver.Returned
           (Resolver.GotCache (Resolver.mkIpCache (JStr "192.0.2.99") JUndef 4000400)) ]
  /\ Resolver.outbound (Resolver.events s)
     = [ (0%nat, "https://api.ipify.org"%string);
         (0%nat, "https://api6.ipify.org"%string);
         (2%nat, "https://api.ipify.org"%string);
         (2%nat, "https://api6.ipify.org"%string) ]
  /\ ~ In (Resolver.outbound (Resolver.events s)) (Resolver.callSequences 0).
Proof.
  vm_compute. repeat split.
  intros H. repeat (destruct H as [H|H]; [discriminate H|]). exact H.
Qed.

Lemma refresh_is_single_flight_witness :
Resolver.idle stale
/\ Resolver.duringRefresh crowd
     (Resolver.step (Resolver.Invoke Resolver.ViaUpdatePublicIPs 4000000) stale) = true
/\ let s := Resolver.run crowd
              (Resolver.step (Resolver.Invoke Resolver.ViaUpdatePublicIPs 4000000) stale) in
   let s' := Resolver.run (Resolver.drain 4000500 timeout s) s in
   In (Resolver.outbound (Resolver.events s)) (Resolver.callSequences 0)
   /\ (forall i t r,
         nth_error (Resolver.tasks s) i = Some t ->
         Resolver.pc t = Resolver.Returned r ->
         r = Resolver.deliver (Resolver.entry t) s
         /\ Resolver.ipUpdateInProgress s = false
         /\ exists t0,
              nth_error (Resolver.tasks s) 0 = Some t0
              /\ Resolver.pc t0
                 = Resolver.Returned (Resolver.deliver (Resolver.entry t0) s))
   /\ forallb Resolver.returned (Resolver.tasks s') = true
   /\ In (Resolver.outbound (Resolver.events s')) (Resolver.callSequences 0)
   /\ (forall i t,
         nth_error (Resolver.tasks s') i = Some t ->
         Resolver.pc t = Resolver.Returned (Resolver.deliver (Resolver.entry t) s'))
   /\ (Resolver.reachesUpdate Resolver.ViaUpdatePublicIPs 4000000 stale = true ->
       match refreshed (Resolver.PUBLIC_IP stale) (Resolver.PUBLIC_IPV6 stale) 4000000
               (settlements crowd) with
       | Some c => Resolver.ipUpdateInProgress s = false /\ Resolver.ipCache s = c
       | None => Resolver.ipUpdateInProgress s = true
       end
       /\ refreshed (Resolver.PUBLIC_IP stale) (Resolver.PUBLIC_IPV6 stale) 4000000
            (settlements (crowd ++ Resolver.drain 4000500 timeout s))
          = Some (Resolver.ipCache s'))
   /\ (forall later i t,
         nth_error (Resolver.tasks s') i = Some t ->
         nth_error (Resolver.tasks (Resolver.run later s')) i = Some t).
Proof.
assert (H1 : Resolver.idle stale) by (repeat split).
assert (H2 : Resolver.duringRefresh crowd
               (Resolver.step (Resolver.Invoke Resolver.ViaUpdatePublicIPs 4000000) stale)
             = true) by reflexivity.
split; [exact H1|]. split; [exact H2|].
exact (@refresh_is_single_flight stale Resolver.ViaUpdatePublicIPs 4000000 crowd
         4000500 timeout H1 H2).
Defined.

End ClosedRefresh.
